(** * Room presence and broadcast coordinator of infinitec-server

    A shallow embedding of the WebSocket part of the server entry file
    (the [wss.on('connection', ...)] callback and the [setInterval]
    heartbeat sweep) together with the statements that the coordinator's
    specification makes about it.

    Conventions of the embedding.
    - The process-global [clients] is a JavaScript [Map]: it keeps
      insertion order, [set] on a present key overwrites in place, [set]
      on a fresh key appends.  It is an association list here because
      [forEach] order decides who is reached before a throwing [send].
    - The handlers of a socket hold no [await] and run to completion.
      The sweep is given twice: as one sequential run ([heartbeatCheck]),
      which is the run in which no other handler is served at its
      [await]s, and as a callback that waits at every [await]
      ([heartbeatCheck_async]) while frames and closes are handled.
    - [ws.send] either returns or throws.  Which sockets throw is a
      component of the state ([closed]) that no handler changes.
    - The store answers every query; the rejections it can give are those
      of [delete] on a row that is not there, of [create] on a pair that is
      taken and of [findUnique] on a [roomId] that is not a string.
    - [failedHeartbeats] is a JavaScript number that only ever holds a
      count (starts at [0], changed by [++] and by [= 0]); it is a [nat].
    - [Date.now()] is an oracle [clock] read through a call counter.
    - The [console.error] lines are recorded; [console.log] lines have no
      effect on any state and are left out. *)

From Stdlib Require Import String List Arith ZArith Lia Bool.
Import ListNotations.
Open Scope string_scope.
Open Scope list_scope.

(** ** Data *)

(** Identity of one [ws] socket object. *)
Definition Handle := nat.

(** [interface ClientConnection]. *)
Record ClientConnection := mkClient {
  ws : Handle;
  userId : string;
  roomId : string;
  failedHeartbeats : nat;
  lastHeartbeat : Z
}.

(** Rows of the [Room] table, the columns the coordinator reads. *)
Module Room.
Record t := mk {
  id : string;
  roomId : string;
  ownerId : string;
  maxUsers : nat;
  status : string
}.
End Room.

(** Rows of the [RoomMember] table. *)
Module RoomMember.
Record t := mk {
  roomId : string;
  userId : string;
  role : string
}.
End RoomMember.

Record Db := mkDb {
  rooms : list Room.t;
  roomMembers : list RoomMember.t
}.

(** The parsed inbound frame [data = JSON.parse(message)]: the three
    fields the handler reads, and the rest of the object as its text.
    [userId] and [roomId] are declared [string | null]. *)
Record Data := mkData {
  dtype : option string;
  duserId : option string;
  droomId : option string;
  drest : string
}.

(** An inbound message.  [Malformed]: [JSON.parse(message)] throws, or
    yields [null], on which reading [data.type] throws.  Any other parsed
    value is a [Frame]; one without a string [type] has [dtype = None] and
    matches no branch. *)
Inductive Inbound :=
| Malformed
| Frame (data : Data).

Inductive Reason := owner_disconnected | owner_timeout.

(** Outbound frames, before [JSON.stringify]. *)
Inductive Message :=
| joined (room user : string)
| heartbeat_ack (timestamp : Z)
| heartbeat (timestamp : Z)
| room_deleted (room : string) (reason : option Reason)
| draw_event (data : Data).

Inductive ErrorLine :=
| err_message                         (* '处理WebSocket消息错误:' *)
| err_notify_user (user : string)     (* `通知用户 ${member.userId} 失败:` *)
| err_probe (user room : string)      (* `发送心跳到用户 ... 失败:` *)
| err_notify_member (user : string)   (* `通知成员 ${otherMember.userId} 失败:` *)
| err_sweep.                          (* '心跳检测错误:' *)

(** What the process does to the outside.  [Sent k h m]: [client.ws.send]
    on the registry entry stored under key [k], whose socket is [h],
    returned.  [Replied h m]: [ws.send] on the handler's own socket
    returned. *)
Inductive Event :=
| Sent (clientId : string) (h : Handle) (m : Message)
| Replied (h : Handle) (m : Message)
| ConsoleError (e : ErrorLine).

Record State := mkState {
  clients : list (string * ClientConnection);
  db : Db;
  closed : list Handle;
  events : list Event;
  ticks : nat
}.

(** The closure variables of one [wss.on('connection')] callback. *)
Record Session := mkSession {
  s_ws : Handle;
  s_userId : option string;
  s_roomId : option string
}.

(** How a loop body ends: it falls through (or [continue]s), or it
    [return]s from the enclosing callback. *)
Inductive Completion := Normal | Return.

(** ** Decidable equalities *)


Definition option_eqb {A} (eqb : A -> A -> bool) (a b : option A) : bool :=
  match a, b with
  | Some x, Some y => eqb x y
  | None, None => true
  | _, _ => false
  end.

(** ** The JavaScript [Map] *)

Definition JsMap (V : Type) := list (string * V).

Fixpoint Map_get {V} (k : string) (m : JsMap V) : option V :=
  match m with
  | [] => None
  | (k', v) :: m' => if k' =? k then Some v else Map_get k m'
  end.

Definition Map_has {V} (k : string) (m : JsMap V) : bool :=
  match Map_get k m with Some _ => true | None => false end.

Fixpoint Map_replace {V} (k : string) (v : V) (m : JsMap V) : JsMap V :=
  match m with
  | [] => []
  | (k', v') :: m' =>
      if k' =? k then (k', v) :: m' else (k', v') :: Map_replace k v m'
  end.

Definition Map_set {V} (k : string) (v : V) (m : JsMap V) : JsMap V :=
  if Map_has k m then Map_replace k v m else m ++ [(k, v)].

Fixpoint Map_delete {V} (k : string) (m : JsMap V) : JsMap V :=
  match m with
  | [] => []
  | (k', v) :: m' =>
      if k' =? k then Map_delete k m' else (k', v) :: Map_delete k m'
  end.

(** Keys are unique in a [Map]. *)
Definition Map_wf {V} (m : JsMap V) : Prop := NoDup (map fst m).

(** Number of entries stored under [k]. *)
Definition Map_count {V} (k : string) (m : JsMap V) : nat :=
  length (filter (fun e => fst e =? k) m).

(** ** State and exceptions *)

Inductive Outcome (A : Type) :=
| Done (a : A) (s : State)
| Raised (s : State).
Arguments Done {A} a s.
Arguments Raised {A} s.

Definition M (A : Type) := State -> Outcome A.

Definition ret {A} (a : A) : M A := fun s => Done a s.

Definition bind {A B} (c : M A) (k : A -> M B) : M B :=
  fun s => match c s with
           | Done a s' => k a s'
           | Raised s' => Raised s'
           end.

Definition throw {A} : M A := fun s => Raised s.

(** [try { c } catch (error) { h }] *)
Definition try_catch {A} (c : M A) (h : M A) : M A :=
  fun s => match c s with
           | Done a s' => Done a s'
           | Raised s' => h s'
           end.

Definition final {A} (o : Outcome A) : State :=
  match o with Done _ s => s | Raised s => s end.

Declare Scope js_scope.
Delimit Scope js_scope with js.
Notation "x <- c ;; k" := (bind c (fun x => k))
  (at level 100, c at next level, right associativity) : js_scope.
Notation "c ;; k" := (bind c (fun _ => k))
  (at level 100, right associativity) : js_scope.
Open Scope js_scope.

(** [for (const x of l) { body }] *)
Fixpoint for_of {A} (l : list A) (body : A -> M Completion) : M Completion :=
  match l with
  | [] => ret Normal
  | x :: l' =>
      c <- body x ;;
      match c with
      | Normal => for_of l' body
      | Return => ret Return
      end
  end.

Definition set_clients (f : JsMap ClientConnection -> JsMap ClientConnection)
  : M unit :=
  fun s => Done tt (mkState (f (clients s)) (db s) (closed s) (events s) (ticks s)).

Definition set_db (f : Db -> Db) : M unit :=
  fun s => Done tt (mkState (clients s) (f (db s)) (closed s) (events s) (ticks s)).

Definition emit (e : Event) : M unit :=
  fun s => Done tt (mkState (clients s) (db s) (closed s) (events s ++ [e]) (ticks s)).

Definition clients_get (k : string) : M (option ClientConnection) :=
  fun s => Done (Map_get k (clients s)) s.

Definition clients_set (k : string) (c : ClientConnection) : M unit :=
  set_clients (Map_set k c).

Definition clients_delete (k : string) : M unit :=
  set_clients (Map_delete k).

Definition console_error (e : ErrorLine) : M unit := emit (ConsoleError e).

Definition is_closed (h : Handle) (s : State) : bool :=
  existsb (Nat.eqb h) (closed s).

(** [client.ws.send(JSON.stringify(m))] on a registry entry. *)
Definition client_send (k : string) (c : ClientConnection) (m : Message) : M unit :=
  fun s => if is_closed (ws c) s then Raised s else emit (Sent k (ws c) m) s.

(** [ws.send(JSON.stringify(m))] on the handler's own socket. *)
Definition ws_send (h : Handle) (m : Message) : M unit :=
  fun s => if is_closed h s then Raised s else emit (Replied h m) s.

(** ** Handlers that wait

    The callback of [setInterval] is an [async] function: at every [await]
    it gives the event loop back, and the frames and closes that have
    arrived are handled before it is resumed.  A [Task] is such a callback
    under way: settled with an outcome, or waiting in some state, to be
    resumed in the state the other handlers leave. *)

Inductive Task (A : Type) : Type :=
| Settled (o : Outcome A)
| Waiting (s : State) (resume : State -> Task A).
Arguments Settled {A} o.
Arguments Waiting {A} s resume.

Definition Async (A : Type) := State -> Task A.

(** Code between two [await]s: it runs to its end at once. *)
Definition sync {A} (c : M A) : Async A := fun s => Settled (c s).

(** The outcome [o] taken up again in state [s]. *)
Definition put {A} (o : Outcome A) (s : State) : Outcome A :=
  match o with
  | Done a _ => Done a s
  | Raised _ => Raised s
  end.

(** [await c] for a store call [c]: the callback waits until the store
    carries the call out, and waits again until the settled promise is
    taken up; a rejected promise is taken up as an exception. *)
Definition await {A} (c : M A) : Async A :=
  fun s => Waiting s (fun s1 =>
             Waiting (final (c s1)) (fun s2 => Settled (put (c s1) s2))).

Fixpoint then_ {A B} (t : Task A) (k : A -> Async B) : Task B :=
  match t with
  | Settled (Done a s) => k a s
  | Settled (Raised s) => Settled (Raised s)
  | Waiting s resume => Waiting s (fun s' => then_ (resume s') k)
  end.

Definition abind {A B} (c : Async A) (k : A -> Async B) : Async B :=
  fun s => then_ (c s) k.

(** [try { c } catch (error) { h }] around code that waits. *)
Fixpoint caught {A} (t : Task A) (h : Async A) : Task A :=
  match t with
  | Settled (Done a s) => Settled (Done a s)
  | Settled (Raised s) => h s
  | Waiting s resume => Waiting s (fun s' => caught (resume s') h)
  end.

Definition try_catch_async {A} (c : Async A) (h : Async A) : Async A :=
  fun s => caught (c s) h.

Declare Scope async_scope.
Delimit Scope async_scope with async.
Notation "x <- c ;; k" := (abind c (fun x => k))
  (at level 100, c at next level, right associativity) : async_scope.
Notation "c ;; k" := (abind c (fun _ => k))
  (at level 100, right associativity) : async_scope.

(** [for (const x of l) { body }] with a body that waits. *)
Fixpoint for_of_async {A} (l : list A) (body : A -> Async Completion)
  : Async Completion :=
  match l with
  | [] => sync (ret Normal)
  | x :: l' =>
      (c <- body x ;;
       match c with
       | Normal => for_of_async l' body
       | Return => sync (ret Return)
       end)%async
  end.

(** What the other handlers do during one wait. *)
Definition Others := State -> State.

Definition idle : Others := fun s => s.

(** The task run to its end, the other handlers doing [env] at its
    successive waits and nothing at the waits after those. *)
Fixpoint run_with {A} (env : list Others) (t : Task A) : Outcome A :=
  match t with
  | Settled o => o
  | Waiting s resume =>
      match env with
      | [] => run_with [] (resume s)
      | e :: env' => run_with env' (resume (e s))
      end
  end.

(** The state in which the task waits next, once the other handlers have
    done [env] at its first waits; [None] when it has settled by then. *)
Fixpoint waiting_in {A} (env : list Others) (t : Task A) : option State :=
  match t with
  | Settled _ => None
  | Waiting s resume =>
      match env with
      | [] => Some s
      | e :: env' => waiting_in env' (resume (e s))
      end
  end.

(** [Q] holds of the outcome however the task is resumed, the other
    handlers taking the state from [s] to some [s'] with [E s s'] during
    each wait. *)
Fixpoint in_every_run {A} (E : State -> State -> Prop) (Q : Outcome A -> Prop)
  (t : Task A) : Prop :=
  match t with
  | Settled o => Q o
  | Waiting s resume => forall s', E s s' -> in_every_run E Q (resume s')
  end.

(** ** The external store (Prisma) *)

Definition active_rooms (d : Db) : list Room.t :=
  filter (fun r => Room.status r =? "active") (rooms d).

Definition members_of (rid : string) (d : Db) : list RoomMember.t :=
  filter (fun m => RoomMember.roomId m =? rid) (roomMembers d).

Definition members_except (rid uid : string) (d : Db) : list RoomMember.t :=
  filter (fun m => (RoomMember.roomId m =? rid) && negb (RoomMember.userId m =? uid))
         (roomMembers d).

Definition find_room (rid : string) (d : Db) : option Room.t :=
  find (fun r => Room.id r =? rid) (rooms d).

Definition is_member_row (rid uid : string) (m : RoomMember.t) : bool :=
  (RoomMember.roomId m =? rid) && (RoomMember.userId m =? uid).

Definition find_member (rid uid : string) (d : Db) : option RoomMember.t :=
  find (is_member_row rid uid) (roomMembers d).

(** Modelled from the spec: the Prisma schema declaring how [RoomMember]
    refers to [Room] is not among the sources.  The spec has a dissolved
    room deleted "and all memberships" with it "as a single logical unit",
    dissolution "transitively removes all memberships": deleting a room row
    takes the member rows that refer to it along. *)
Definition delete_room_rows (rid : string) (d : Db) : Db :=
  mkDb (filter (fun r => negb (Room.id r =? rid)) (rooms d))
       (filter (fun m => negb (RoomMember.roomId m =? rid)) (roomMembers d)).

Definition delete_member_row (rid uid : string) (d : Db) : Db :=
  mkDb (rooms d) (filter (fun m => negb (is_member_row rid uid m)) (roomMembers d)).

(** [prisma.room.findMany({ where: { status: 'active' } })] *)
Definition room_findMany_active : M (list Room.t) :=
  fun s => Done (active_rooms (db s)) s.

(** [prisma.roomMember.findMany({ where: { roomId } })] *)
Definition roomMember_findMany (rid : string) : M (list RoomMember.t) :=
  fun s => Done (members_of rid (db s)) s.

(** [prisma.roomMember.findMany({ where: { roomId, userId: { not } } })] *)
Definition roomMember_findMany_not (rid uid : string) : M (list RoomMember.t) :=
  fun s => Done (members_except rid uid (db s)) s.

(** [prisma.room.findUnique({ where: { id } })] *)
Definition room_findUnique (rid : string) : M (option Room.t) :=
  fun s => Done (find_room rid (db s)) s.

(** [prisma.roomMember.findUnique({ where: { roomId_userId } })] *)
Definition roomMember_findUnique (rid uid : string) : M (option RoomMember.t) :=
  fun s => Done (find_member rid uid (db s)) s.

(** [prisma.roomMember.count({ where: { roomId } })] *)
Definition roomMember_count (rid : string) : M nat :=
  fun s => Done (length (members_of rid (db s))) s.

(** [prisma.room.delete({ where: { id } })]: rejects when no row has the id. *)
Definition room_delete (rid : string) : M unit :=
  fun s => match find_room rid (db s) with
           | Some _ => set_db (delete_room_rows rid) s
           | None => Raised s
           end.

(** [prisma.roomMember.delete({ where: { roomId_userId } })]: rejects when
    no row has the pair. *)
Definition roomMember_delete (rid uid : string) : M unit :=
  fun s => match find_member rid uid (db s) with
           | Some _ => set_db (delete_member_row rid uid) s
           | None => Raised s
           end.

(** The unique indexes of the two tables: the primary key [id] of [Room]
    and the compound key [roomId_userId] of [RoomMember] that the sweep
    names in [findUnique] and [delete]. *)
Definition Db_wf (d : Db) : Prop :=
  NoDup (map Room.id (rooms d)) /\
  NoDup (map (fun m => (RoomMember.roomId m, RoomMember.userId m)) (roomMembers d)).

(** ** The coordinator *)

(** [`${roomId}_${userId}`] *)
Definition clientKey (room user : string) : string :=
  String.append room (String.append "_" user).

(** A [string | null] that passes [if (v)]. *)
Definition nonempty (v : option string) : option string :=
  match v with
  | Some s => if s =? "" then None else Some s
  | None => None
  end.

Definition type_is (t : string) (data : Data) : bool :=
  option_eqb String.eqb (dtype data) (Some t).

(** [client.failedHeartbeats++] *)
Definition charge (c : ClientConnection) : ClientConnection :=
  mkClient (ws c) (userId c) (roomId c) (S (failedHeartbeats c)) (lastHeartbeat c).

(** ** Scenarios *)

(** A clock that advances by one at every reading. *)
Definition clk (n : nat) : Z := Z.of_nat n.

Definition room_R1 : Room.t := Room.mk "id1" "R1" "U1" 10 "active".
Definition room_R2 : Room.t := Room.mk "id2" "R2" "U3" 10 "active".

Definition owner_U1 : RoomMember.t := RoomMember.mk "id1" "U1" "owner".
Definition member_U2 : RoomMember.t := RoomMember.mk "id1" "U2" "member".
Definition owner_U3 : RoomMember.t := RoomMember.mk "id2" "U3" "owner".

(** Room [R1] of owner [U1] with member [U2]. *)
Definition store_R1 : Db := mkDb [room_R1] [owner_U1; member_U2].


(** Rooms [R1] and [R2], the second owned by [U3] alone. *)
Definition store_R1_R2 : Db :=
  mkDb [room_R1; room_R2] [owner_U1; member_U2; owner_U3].

Definition join_frame (u r : string) : Inbound :=
  Frame (mkData (Some "join") (Some u) (Some r) "").

Definition heartbeat_frame : Inbound :=
  Frame (mkData (Some "heartbeat") None None "").

Definition stroke : Data :=
  mkData (Some "draw_event") None None "points:[[1,2],[3,4]]".

(** The closure variables of a socket before any join, and after a join. *)
Definition fresh_socket (h : Handle) : Session := mkSession h None None.
Definition socket_of (h : Handle) (u r : string) : Session :=
  mkSession h (Some u) (Some r).

Definition entry (h : Handle) (u r : string) (n : nat) : ClientConnection :=
  mkClient h u r n 0.

(** Users [A], [B], [C] of room [R1] in the registry, in this order. *)
Definition registry_ABC : JsMap ClientConnection :=
  [("R1_A", entry 1 "A" "R1" 0); ("R1_B", entry 2 "B" "R1" 0);
   ("R1_C", entry 3 "C" "R1" 0)].

(** The same users, [C] having joined before [B]. *)
Definition registry_ACB : JsMap ClientConnection :=
  [("R1_A", entry 1 "A" "R1" 0); ("R1_C", entry 3 "C" "R1" 0);
   ("R1_B", entry 2 "B" "R1" 0)].

Definition start (m : JsMap ClientConnection) (d : Db) (broken : list Handle)
  : State :=
  mkState m d broken [] 0.

(** A store in which [R1] has lost its owner's row. *)
Definition store_R1_no_owner : Db := mkDb [room_R1] [member_U2].

(** [U1] and [U2] of room [R1] in the registry. *)
Definition registry_R1 : JsMap ClientConnection :=
  [("R1_U1", entry 1 "U1" "R1" 0); ("R1_U2", entry 2 "U2" "R1" 0)].

(** The same with the entry of a user of a room that is no more. *)
Definition registry_R1_and_stale : JsMap ClientConnection :=
  [("R1_U1", entry 1 "U1" "R1" 0); ("R1_U2", entry 2 "U2" "R1" 0);
   ("R9_U9", entry 9 "U9" "R9" 2)].

(** [U1] fresh and [U2] one probe short of a maximum of [3]. *)
Definition registry_U2_late : JsMap ClientConnection :=
  [("R1_U1", entry 1 "U1" "R1" 0); ("R1_U2", entry 2 "U2" "R1" 2)].

(** The data of the application-level heartbeat frame. *)
Definition heartbeat_data : Data := mkData (Some "heartbeat") None None "".

(** Join frames that lack one of the two identifiers. *)
Definition join_without_room : Data := mkData (Some "join") (Some "U1") None "".
Definition join_without_user : Data := mkData (Some "join") None (Some "R1") "".

Section Coordinator.

Set Default Proof Using "Type".

(** What successive calls of [Date.now()] answer. *)
Variable clock : nat -> Z.

(** [MAX_FAILED_HEARTBEATS] of ./constants, which is not among the sources. *)
Variable MAX_FAILED_HEARTBEATS : nat.

Definition Date_now : M Z :=
  fun s => Done (clock (ticks s))
                (mkState (clients s) (db s) (closed s) (events s) (S (ticks s))).

(** *** [ws.on('message')] and [ws.on('close')] *)

(** The assignments [userId = data.userId; roomId = data.roomId] at the
    head of the join branch. *)
Definition assign (sess : Session) (data : Data) : Session :=
  if type_is "join" data
  then mkSession (s_ws sess) (duserId data) (droomId data)
  else sess.

(** The callback of [clients.forEach] in the [draw_event] branch. *)
Definition relay (sess : Session) (r : string) (data : Data)
  (e : string * ClientConnection) : M Completion :=
  let (k, client) := e in
  if (roomId client =? r)
     && negb (option_eqb String.eqb (Some (userId client)) (s_userId sess))
  then client_send k client (draw_event data) ;; ret Normal
  else ret Normal.

(** The body of the [try] block once [data] is parsed; [sess] holds the
    closure variables after [assign]. *)
Definition handle_frame (sess : Session) (data : Data) : M unit :=
  if type_is "join" data then
    match nonempty (s_userId sess), nonempty (s_roomId sess) with
    | Some u, Some r =>
        let clientId := clientKey r u in
        now <- Date_now ;;
        clients_set clientId (mkClient (s_ws sess) u r 0 now) ;;
        ws_send (s_ws sess) (joined r u)
    | _, _ => ret tt
    end
  else if type_is "heartbeat" data then
    match nonempty (s_userId sess), nonempty (s_roomId sess) with
    | Some u, Some r =>
        let clientId := clientKey r u in
        found <- clients_get clientId ;;
        match found with
        | Some client =>
            now <- Date_now ;;
            clients_set clientId
              (mkClient (ws client) (userId client) (roomId client) 0 now) ;;
            stamp <- Date_now ;;
            ws_send (s_ws sess) (heartbeat_ack stamp)
        | None => ret tt
        end
    | _, _ => ret tt
    end
  else if type_is "draw_event" data then
    match nonempty (s_roomId sess) with
    | Some r =>
        fun s => (for_of (clients s) (relay sess r data) ;; ret tt) s
    | None => ret tt
    end
  else ret tt.

Definition on_message (sess : Session) (msg : Inbound) (s : State)
  : Session * State :=
  match msg with
  | Malformed => (sess, final (try_catch throw (console_error err_message) s))
  | Frame data =>
      let sess' := assign sess data in
      (sess', final (try_catch (handle_frame sess' data)
                               (console_error err_message) s))
  end.

Definition on_close (sess : Session) (s : State) : State :=
  match nonempty (s_userId sess), nonempty (s_roomId sess) with
  | Some u, Some r => final (clients_delete (clientKey r u) s)
  | _, _ => s
  end.

(** *** The [setInterval] callback *)

(** One turn of the loop that answers a vanished room. *)
Definition notify_vanished (room : Room.t) (member : RoomMember.t)
  : M Completion :=
  let clientId := clientKey (Room.roomId room) (RoomMember.userId member) in
  found <- clients_get clientId ;;
  match found with
  | Some client =>
      try_catch
        (client_send clientId client (room_deleted (Room.roomId room) None) ;;
         clients_delete clientId)
        (console_error (err_notify_user (RoomMember.userId member)) ;;
         clients_delete clientId) ;;
      ret Normal
  | None => ret Normal
  end.

(** One turn of the loop over [otherMembers] that precedes a dissolution. *)
Definition notify_other (room : Room.t) (why : Reason) (otherMember : RoomMember.t)
  : M Completion :=
  let clientKey' := clientKey (Room.roomId room) (RoomMember.userId otherMember) in
  found <- clients_get clientKey' ;;
  match found with
  | Some client =>
      try_catch
        (client_send clientKey' client (room_deleted (Room.roomId room) (Some why)))
        (console_error (err_notify_member (RoomMember.userId otherMember))) ;;
      ret Normal
  | None => ret Normal
  end.

(** The first [if (client) ... else ...] of the member loop. *)
Definition probe_or_absent (room : Room.t) (member : RoomMember.t)
  : M Completion :=
  let clientId := clientKey (Room.roomId room) (RoomMember.userId member) in
  found <- clients_get clientId ;;
  match found with
  | Some client =>
      now <- Date_now ;;
      try_catch
        (client_send clientId client (heartbeat now) ;;
         clients_set clientId (charge client))
        (console_error (err_probe (RoomMember.userId member) (Room.roomId room)) ;;
         clients_set clientId (charge client)) ;;
      ret Normal
  | None =>
      if RoomMember.userId member =? Room.ownerId room then
        otherMembers <- roomMember_findMany_not (Room.id room) (RoomMember.userId member) ;;
        for_of otherMembers (notify_other room owner_disconnected) ;;
        room_delete (Room.id room) ;;
        ret Return
      else
        existingMember <- roomMember_findUnique (Room.id room) (RoomMember.userId member) ;;
        match existingMember with
        | Some _ =>
            roomMember_delete (Room.id room) (RoomMember.userId member) ;;
            ret Normal
        | None => ret Normal
        end
  end.

(** The second half of the member loop, from [const updatedClient]. *)
Definition threshold_check (room : Room.t) (member : RoomMember.t)
  : M Completion :=
  let clientId := clientKey (Room.roomId room) (RoomMember.userId member) in
  updatedClient <- clients_get clientId ;;
  match updatedClient with
  | Some updated =>
      if (MAX_FAILED_HEARTBEATS <=? failedHeartbeats updated)%nat then
        if RoomMember.userId member =? Room.ownerId room then
          otherMembers <- roomMember_findMany_not (Room.id room) (RoomMember.userId member) ;;
          for_of otherMembers (notify_other room owner_timeout) ;;
          room_delete (Room.id room) ;;
          clients_delete clientId ;;
          ret Return
        else
          roomMember_delete (Room.id room) (RoomMember.userId member) ;;
          clients_delete clientId ;;
          ret Normal
      else ret Normal
  | None => ret Normal
  end.

(** The body of [for (const member of members)]. *)
Definition check_member (room : Room.t) (member : RoomMember.t)
  : M Completion :=
  c <- probe_or_absent room member ;;
  match c with
  | Return => ret Return
  | Normal => threshold_check room member
  end.

(** The body of [for (const room of rooms)]. *)
Definition check_room (room : Room.t) : M Completion :=
  members <- roomMember_findMany (Room.id room) ;;
  roomExists <- room_findUnique (Room.id room) ;;
  match roomExists with
  | None =>
      for_of members (notify_vanished room) ;;
      ret Normal
  | Some _ =>
      c <- for_of members (check_member room) ;;
      match c with
      | Return => ret Return
      | Normal =>
          remainingMembers <- roomMember_count (Room.id room) ;;
          if (remainingMembers =? 0)%nat then
            room_delete (Room.id room) ;;
            ret Normal
          else ret Normal
      end
  end.

(** The callback given to [setInterval]: one sweep cycle. *)
Definition heartbeatCheck : M unit :=
  try_catch
    (rooms <- room_findMany_active ;;
     for_of rooms check_room ;;
     ret tt)
    (console_error err_sweep).

Definition sweep (s : State) : State := final (heartbeatCheck s).

(** *** The [setInterval] callback with its [await]s

    The same callback with every [await prisma...] a wait; what lies
    between two of them runs at once.  The loops that notify and the probe
    block hold no [await]. *)

Definition probe_or_absent_async (room : Room.t) (member : RoomMember.t)
  : Async Completion :=
  let clientId := clientKey (Room.roomId room) (RoomMember.userId member) in
  (found <- sync (clients_get clientId) ;;
   match found with
   | Some client =>
       sync (now <- Date_now ;;
             try_catch
               (client_send clientId client (heartbeat now) ;;
                clients_set clientId (charge client))
               (console_error (err_probe (RoomMember.userId member) (Room.roomId room)) ;;
                clients_set clientId (charge client)) ;;
             ret Normal)%js
   | None =>
       if RoomMember.userId member =? Room.ownerId room then
         otherMembers <-
           await (roomMember_findMany_not (Room.id room) (RoomMember.userId member)) ;;
         sync (for_of otherMembers (notify_other room owner_disconnected)) ;;
         await (room_delete (Room.id room)) ;;
         sync (ret Return)
       else
         existingMember <-
           await (roomMember_findUnique (Room.id room) (RoomMember.userId member)) ;;
         match existingMember with
         | Some _ =>
             await (roomMember_delete (Room.id room) (RoomMember.userId member)) ;;
             sync (ret Normal)
         | None => sync (ret Normal)
         end
   end)%async.

Definition threshold_check_async (room : Room.t) (member : RoomMember.t)
  : Async Completion :=
  let clientId := clientKey (Room.roomId room) (RoomMember.userId member) in
  (updatedClient <- sync (clients_get clientId) ;;
   match updatedClient with
   | Some updated =>
       if (MAX_FAILED_HEARTBEATS <=? failedHeartbeats updated)%nat then
         if RoomMember.userId member =? Room.ownerId room then
           otherMembers <-
             await (roomMember_findMany_not (Room.id room) (RoomMember.userId member)) ;;
           sync (for_of otherMembers (notify_other room owner_timeout)) ;;
           await (room_delete (Room.id room)) ;;
           sync (clients_delete clientId) ;;
           sync (ret Return)
         else
           await (roomMember_delete (Room.id room) (RoomMember.userId member)) ;;
           sync (clients_delete clientId) ;;
           sync (ret Normal)
       else sync (ret Normal)
   | None => sync (ret Normal)
   end)%async.

Definition check_member_async (room : Room.t) (member : RoomMember.t)
  : Async Completion :=
  (c <- probe_or_absent_async room member ;;
   match c with
   | Return => sync (ret Return)
   | Normal => threshold_check_async room member
   end)%async.

Definition check_room_async (room : Room.t) : Async Completion :=
  (members <- await (roomMember_findMany (Room.id room)) ;;
   roomExists <- await (room_findUnique (Room.id room)) ;;
   match roomExists with
   | None =>
       sync (for_of members (notify_vanished room)) ;;
       sync (ret Normal)
   | Some _ =>
       c <- for_of_async members (check_member_async room) ;;
       match c with
       | Return => sync (ret Return)
       | Normal =>
           remainingMembers <- await (roomMember_count (Room.id room)) ;;
           if (remainingMembers =? 0)%nat then
             await (room_delete (Room.id room)) ;;
             sync (ret Normal)
           else sync (ret Normal)
       end
   end)%async.

(** The [try] block of the callback. *)
Definition sweep_rooms_async : Async unit :=
  (rooms <- await room_findMany_active ;;
   for_of_async rooms check_room_async ;;
   sync (ret tt))%async.

Definition heartbeatCheck_async : Async unit :=
  try_catch_async sweep_rooms_async (sync (console_error err_sweep)).

(** What the handlers of the sockets can do while a callback waits: any
    number of frames and closes, on sockets with any closure variables, and
    any socket starting to throw on [send]. *)
Definition breaks (h : Handle) (s : State) : State :=
  mkState (clients s) (db s) (h :: closed s) (events s) (ticks s).

Inductive ws_activity : State -> State -> Prop :=
| ws_nothing s : ws_activity s s
| ws_frame s s' sess msg :
    ws_activity s s' -> ws_activity s (snd (on_message sess msg s'))
| ws_close s s' sess :
    ws_activity s s' -> ws_activity s (on_close sess s')
| ws_break s s' h :
    ws_activity s s' -> ws_activity s (breaks h s').

(** The frame [msg] arriving on the socket with closure variables [sess],
    and that socket closing, as what happens during a wait. *)
Definition arrives (sess : Session) (msg : Inbound) : Others :=
  fun s => snd (on_message sess msg s).

Definition closes (sess : Session) : Others := on_close sess.

(** *** Runs and observations used by the statements *)

(** Frames handled one after the other, each on the socket whose closure
    variables are given with it. *)
Fixpoint run_messages (l : list (Session * Inbound)) (s : State) : State :=
  match l with
  | [] => s
  | (sess, msg) :: l' => run_messages l' (snd (on_message sess msg s))
  end.

(** A join frame for [(r, u)] that passes [if (userId && roomId)]. *)
Definition accepted_join (r u : string) (msg : Inbound) : Prop :=
  match msg with
  | Frame data =>
      type_is "join" data = true /\
      duserId data = Some u /\ droomId data = Some r /\ u <> "" /\ r <> ""
  | Malformed => False
  end.

(** A socket whose closure variables hold a completed join of [(r, u)]. *)
Definition joined_as (r u : string) (sess : Session) : Prop :=
  s_userId sess = Some u /\ s_roomId sess = Some r /\ u <> "" /\ r <> "".

(** The registry entries a [draw_event] of room [r] sent by [u] is for. *)
Definition peer_of (r u : string) (e : string * ClientConnection) : bool :=
  (roomId (snd e) =? r) && negb (userId (snd e) =? u).

Definition relayed (data : Data) (e : string * ClientConnection) : Event :=
  Sent (fst e) (ws (snd e)) (draw_event data).


(** *** The states the sweep passes through *)

Definition add_events (new : list Event) (s : State) : State :=
  mkState (clients s) (db s) (closed s) (events s ++ new) (ticks s).

(** What one turn of the loop over [otherMembers] adds to the events. *)
Definition notice (room : Room.t) (why : Reason) (s : State)
  (otherMember : RoomMember.t) : list Event :=
  let k := clientKey (Room.roomId room) (RoomMember.userId otherMember) in
  match Map_get k (clients s) with
  | Some c =>
      if is_closed (ws c) s
      then [ConsoleError (err_notify_member (RoomMember.userId otherMember))]
      else [Sent k (ws c) (room_deleted (Room.roomId room) (Some why))]
  | None => []
  end.

Definition notices (room : Room.t) (why : Reason) (s : State)
  (others : list RoomMember.t) : list Event :=
  flat_map (notice room why s) others.

(** The state after the probe of [member], whose entry is [c]. *)
Definition probed (room : Room.t) (member : RoomMember.t)
  (c : ClientConnection) (s : State) : State :=
  let k := clientKey (Room.roomId room) (RoomMember.userId member) in
  mkState (Map_set k (charge c) (clients s)) (db s) (closed s)
    (events s ++
       [if is_closed (ws c) s
        then ConsoleError (err_probe (RoomMember.userId member) (Room.roomId room))
        else Sent k (ws c) (heartbeat (clock (ticks s)))])
    (S (ticks s)).

(** The state after the others were told [why] and the room row deleted;
    [drop] is what happens to the registry. *)
Definition dissolved (room : Room.t) (why : Reason) (owner : string)
  (drop : JsMap ClientConnection -> JsMap ClientConnection) (s : State) : State :=
  mkState (drop (clients s)) (delete_room_rows (Room.id room) (db s)) (closed s)
    (events s ++ notices room why s (members_except (Room.id room) owner (db s)))
    (ticks s).

(** The state after the membership row of [uid] was deleted. *)
Definition evicted (room : Room.t) (uid : string)
  (drop : JsMap ClientConnection -> JsMap ClientConnection) (s : State) : State :=
  mkState (drop (clients s)) (delete_member_row (Room.id room) uid (db s))
    (closed s) (events s) (ticks s).

(** *** Relations between the states before and after a step *)

(** [c'] is [c] but for the failure count. *)
Definition same_socket (c c' : ClientConnection) : Prop :=
  ws c' = ws c /\ userId c' = userId c /\ roomId c' = roomId c /\
  lastHeartbeat c' = lastHeartbeat c.

(** Every entry of [m'] was already in [m], on the same socket, with a
    failure count that was not larger. *)
Definition registry_aged (m m' : JsMap ClientConnection) : Prop :=
  forall k c', Map_get k m' = Some c' ->
    exists c, Map_get k m = Some c /\ same_socket c c' /\
              (failedHeartbeats c <= failedHeartbeats c')%nat.

(** [d'] is [d] with some rows deleted. *)
Definition db_shrunk (d d' : Db) : Prop :=
  exists f g, rooms d' = filter f (rooms d) /\
              roomMembers d' = filter g (roomMembers d).

Definition sweep_step (s s' : State) : Prop :=
  closed s' = closed s /\
  registry_aged (clients s) (clients s') /\
  db_shrunk (db s) (db s') /\
  exists new, events s' = events s ++ new.

(** No entry has used up its allowance of unanswered probes. *)
Definition quiet (m : JsMap ClientConnection) : Prop :=
  forall k c, Map_get k m = Some c ->
    (failedHeartbeats c < MAX_FAILED_HEARTBEATS)%nat.

(** The failure count stored under [k] goes from non-zero to zero. *)
Definition reset_at (k : string) (s s' : State) : Prop :=
  exists c c', Map_get k (clients s) = Some c /\
               Map_get k (clients s') = Some c' /\
               failedHeartbeats c <> 0 /\ failedHeartbeats c' = 0.

(** The state after one turn of the loop that answers a vanished room. *)
Definition vanished_told (room : Room.t) (member : RoomMember.t) (s : State)
  : State :=
  let k := clientKey (Room.roomId room) (RoomMember.userId member) in
  match Map_get k (clients s) with
  | Some c =>
      mkState (Map_delete k (clients s)) (db s) (closed s)
        (events s ++
           [if is_closed (ws c) s
            then ConsoleError (err_notify_user (RoomMember.userId member))
            else Sent k (ws c) (room_deleted (Room.roomId room) None)])
        (ticks s)
  | None => s
  end.

(** The cycle started in [s] comes to examine [member] of [room], and
    [s2] is the state at that moment: the rooms listed before [room] were
    processed to their end, [room] was found to exist, and the members
    listed before [member] were examined without ending the cycle. *)
Definition examines (s : State) (room : Room.t) (member : RoomMember.t)
  (s2 : State) : Prop :=
  exists pre post mpre mpost s1,
    active_rooms (db s) = pre ++ room :: post /\
    for_of pre check_room s = Done Normal s1 /\
    find_room (Room.id room) (db s1) <> None /\
    members_of (Room.id room) (db s1) = mpre ++ member :: mpost /\
    for_of mpre (check_member room) s1 = Done Normal s2.



(** An event other than a [room_deleted] frame with a reason. *)
Definition calm (e : Event) : bool :=
  match e with
  | Sent _ _ (room_deleted _ (Some _)) => false
  | _ => true
  end.

(** From [s] to [s'] only calm events were added. *)
Definition calm_step (s s' : State) : Prop :=
  exists new, events s' = events s ++ new /\ forallb calm new = true.

(** What the member loop relies on for the members still to come. *)
Definition members_pending (room : Room.t) (rest : list RoomMember.t) (s : State)
  : Prop :=
  find_room (Room.id room) (db s) <> None /\
  NoDup (map RoomMember.userId rest) /\
  (forall y, In y rest ->
     find_member (Room.id room) (RoomMember.userId y) (db s) <> None).

(** The peers the [forEach] of a [draw_event] gets to serve: those before
    the first peer whose socket throws. *)
Fixpoint served (r u : string) (s : State) (l : JsMap ClientConnection)
  : JsMap ClientConnection :=
  match l with
  | [] => []
  | e :: l' =>
      if peer_of r u e
      then if is_closed (ws (snd e)) s then [] else e :: served r u s l'
      else served r u s l'
  end.

(** No peer's socket throws. *)
Definition all_open (r u : string) (s : State) (l : JsMap ClientConnection)
  : bool :=
  forallb (fun e => negb (peer_of r u e && is_closed (ws (snd e)) s)) l.

(** *** What the other handlers leave as it was *)

(** The store is the same after as before. *)
Definition store_kept (s s' : State) : Prop := db s' = db s.

(** No failure count was raised: an entry of [m'] has count [0] or a
    count that the entry under its key in [m] had reached already. *)
Definition counts_not_raised (m m' : JsMap ClientConnection) : Prop :=
  forall k c', Map_get k m' = Some c' ->
    failedHeartbeats c' = 0 \/
    exists c, Map_get k m = Some c /\
              (failedHeartbeats c' <= failedHeartbeats c)%nat.

Definition undisturbed (s s' : State) : Prop :=
  store_kept s s' /\ counts_not_raised (clients s) (clients s').

(** Every entry but the one under [k] is below the maximum. *)
Definition quiet_but (k : string) (m : JsMap ClientConnection) : Prop :=
  forall k' c, k' <> k -> Map_get k' m = Some c ->
    (failedHeartbeats c < MAX_FAILED_HEARTBEATS)%nat.

(** *** The room routes of the HTTP server

    [POST /api/rooms/leave], [/api/rooms/join] and [/api/rooms/delete] of
    the routes file that imports [clients].  [verifyToken] of ../utils/jwt
    is not among the sources and is a parameter; of its payload the routes
    read [userId] only.  The [password] column of a room row, which
    [Room.t] does not carry, is read through [password_of].  The
    [console.error] line of a route's outer [catch] is represented by its
    500 reply.  A route is handled here as one sequential run; what other
    handlers do at its [await]s is not part of these definitions. *)

Record Payload := mkPayload { p_userId : string }.

(** A field of the JSON body, which [bodyParser.json()] hands over as
    parsed: absent ([undefined] or [null]), a string, or another JSON
    value (a number, a boolean, an array, an object), of which the routes
    see the truthiness only. *)
Inductive BodyField :=
| field_absent
| field_string (s : string)
| field_other (truthy : bool).

(** [req.headers.token] and the fields of [req.body].  A [password] that
    is not a string differs from every stored password, like an absent
    one, and is [None]. *)
Record RoomRequest := mkRequest {
  token : option string;
  roomId_field : BodyField;
  body_password : option string
}.

(** [req.body.roomId] where it is a string. *)
Definition body_roomId (req : RoomRequest) : option string :=
  match roomId_field req with
  | field_string s => Some s
  | _ => None
  end.

(** A value that fails [if (v)]. *)
Definition falsy (v : BodyField) : bool :=
  match v with
  | field_absent => true
  | field_string s => s =? ""
  | field_other truthy => negb truthy
  end.

Inductive Body :=
| error_login_first        (* { error: '请先登录' } *)
| error_token_invalid      (* { error: 'Token无效或已过期' } *)
| error_roomId_empty       (* { error: '房间ID不能为空' } *)
| error_room_missing       (* { error: '房间不存在' } *)
| error_not_owner          (* { error: '只有房主才能解散房间' } *)
| error_wrong_password     (* { error: '房间密码错误' } *)
| error_already_member     (* { error: '您已经在该房间中' } *)
| error_room_full          (* { error: '房间人数已满' } *)
| error_route_failed       (* the body sent by the outer catch *)
| ok_dissolved             (* { success: true, message: '房间已解散' } *)
| ok_left                  (* { success: true, message: '已退出房间' } *)
| ok_joined (room : Room.t). (* { success: true, message: '加入房间成功', room } *)

(** [res.status(status).json(body)]; [res.json] alone has status 200. *)
Inductive Reply := reply (status : nat) (body : Body).

Definition status_of (r : Reply) : nat := let (n, _) := r in n.

(** [prisma.room.findUnique({ where: { roomId } })].  The column is a
    string; the client checks its argument against the schema before it
    queries, and rejects a [roomId] that is not a string. *)
Definition find_room_by_code (code : string) (d : Db) : option Room.t :=
  find (fun r => Room.roomId r =? code) (rooms d).

Definition room_findUnique_code (v : BodyField) : M (option Room.t) :=
  fun s => match v with
           | field_string code => Done (find_room_by_code code (db s)) s
           | _ => Raised s
           end.

(** [prisma.roomMember.deleteMany({ where: { roomId, userId } })] *)
Definition roomMember_deleteMany (rid uid : string) : M unit :=
  set_db (delete_member_row rid uid).

Definition add_member_row (row : RoomMember.t) (d : Db) : Db :=
  mkDb (rooms d) (roomMembers d ++ [row]).

(** [prisma.roomMember.create({ data })]: rejects when the pair is taken. *)
Definition roomMember_create (row : RoomMember.t) : M unit :=
  fun s => match find_member (RoomMember.roomId row) (RoomMember.userId row) (db s) with
           | Some _ => Raised s
           | None => set_db (add_member_row row) s
           end.

(** One turn of the loop by which a route tells the members. *)
Definition notify_route (room : Room.t) (member : RoomMember.t) : M Completion :=
  let clientId := clientKey (Room.roomId room) (RoomMember.userId member) in
  found <- clients_get clientId ;;
  match found with
  | Some client =>
      try_catch
        (client_send clientId client (room_deleted (Room.roomId room) None))
        (console_error (err_notify_user (RoomMember.userId member))) ;;
      ret Normal
  | None => ret Normal
  end.

(** The part the owner's branch of [leave] and the end of [delete] share:
    tell the members, delete the room, answer. *)
Definition dissolve_by_route (room : Room.t) : M Reply :=
  members <- roomMember_findMany (Room.id room) ;;
  for_of members (notify_route room) ;;
  room_delete (Room.id room) ;;
  ret (reply 200 ok_dissolved).

(** [app.post('/api/rooms/leave', ...)] *)
Definition leave_room (verifyToken : string -> option Payload) (req : RoomRequest)
  : M Reply :=
  try_catch
    (match nonempty (token req) with
     | None => ret (reply 401 error_login_first)
     | Some tok =>
         match verifyToken tok with
         | None => ret (reply 401 error_token_invalid)
         | Some payload =>
             if falsy (roomId_field req)
             then ret (reply 400 error_roomId_empty)
             else
                 found <- room_findUnique_code (roomId_field req) ;;
                 match found with
                 | None => ret (reply 404 error_room_missing)
                 | Some room =>
                     if Room.ownerId room =? p_userId payload
                     then dissolve_by_route room
                     else
                       roomMember_deleteMany (Room.id room) (p_userId payload) ;;
                       ret (reply 200 ok_left)
                 end
         end
     end)
    (ret (reply 500 error_route_failed)).

(** [app.post('/api/rooms/delete', ...)] *)
Definition delete_room (verifyToken : string -> option Payload) (req : RoomRequest)
  : M Reply :=
  try_catch
    (match nonempty (token req) with
     | None => ret (reply 401 error_login_first)
     | Some tok =>
         match verifyToken tok with
         | None => ret (reply 401 error_token_invalid)
         | Some payload =>
             if falsy (roomId_field req)
             then ret (reply 400 error_roomId_empty)
             else
                 found <- room_findUnique_code (roomId_field req) ;;
                 match found with
                 | None => ret (reply 404 error_room_missing)
                 | Some room =>
                     if negb (Room.ownerId room =? p_userId payload)
                     then ret (reply 403 error_not_owner)
                     else dissolve_by_route room
                 end
         end
     end)
    (ret (reply 500 error_route_failed)).

(** [room.password && room.password !== password] *)
Definition password_refused (stored given : option string) : bool :=
  match nonempty stored with
  | Some p => negb (option_eqb String.eqb (Some p) given)
  | None => false
  end.

(** [app.post('/api/rooms/join', ...)] *)
Definition join_room (verifyToken : string -> option Payload)
  (password_of : Room.t -> option string) (req : RoomRequest) : M Reply :=
  try_catch
    (match nonempty (token req) with
     | None => ret (reply 401 error_login_first)
     | Some tok =>
         match verifyToken tok with
         | None => ret (reply 401 error_token_invalid)
         | Some payload =>
             if falsy (roomId_field req)
             then ret (reply 400 error_roomId_empty)
             else
                 found <- room_findUnique_code (roomId_field req) ;;
                 match found with
                 | None => ret (reply 404 error_room_missing)
                 | Some room =>
                     if password_refused (password_of room) (body_password req)
                     then ret (reply 401 error_wrong_password)
                     else
                       existingMember <-
                         roomMember_findUnique (Room.id room) (p_userId payload) ;;
                       match existingMember with
                       | Some _ => ret (reply 400 error_already_member)
                       | None =>
                           memberCount <- roomMember_count (Room.id room) ;;
                           if (Room.maxUsers room <=? memberCount)%nat
                           then ret (reply 400 error_room_full)
                           else
                             roomMember_create
                               (RoomMember.mk (Room.id room) (p_userId payload)
                                              "member") ;;
                             ret (reply 200 (ok_joined room))
                       end
                 end
         end
     end)
    (ret (reply 500 error_route_failed)).

(** The answer of a route and the state it leaves. *)
Definition answer (o : Outcome Reply) : Reply :=
  match o with
  | Done r _ => r
  | Raised _ => reply 500 error_route_failed
  end.

(** What one turn of a route's notification loop adds to the events. *)
Definition told (room : Room.t) (s : State) (member : RoomMember.t) : list Event :=
  let k := clientKey (Room.roomId room) (RoomMember.userId member) in
  match Map_get k (clients s) with
  | Some c =>
      if is_closed (ws c) s
      then [ConsoleError (err_notify_user (RoomMember.userId member))]
      else [Sent k (ws c) (room_deleted (Room.roomId room) None)]
  | None => []
  end.

(** A [room_deleted] frame without a reason sent on the entry under [k]. *)
Definition is_plain_notice (k : string) (e : Event) : bool :=
  match e with
  | Sent k' _ (room_deleted _ None) => k' =? k
  | _ => false
  end.

(** *** Observations for the further properties *)

(** Every entry sits under the key made of its own fields, which are not
    empty. *)
Definition keyed (m : JsMap ClientConnection) : Prop :=
  forall k c, Map_get k m = Some c ->
    k = clientKey (roomId c) (userId c) /\ roomId c <> "" /\ userId c <> "".

(** No underscore in a room identifier. *)
Definition plain (r : string) : Prop :=
  forall a b, r <> String.append a (String.append "_" b).

(** [n] turns of the member loop for [member], one per cycle, with nothing
    else happening to the member in between. *)
Fixpoint examined (n : nat) (room : Room.t) (member : RoomMember.t) (s : State)
  : State :=
  match n with
  | 0 => s
  | S n' => final (check_member room member (examined n' room member s))
  end.

(** [n] times: the member is examined, then its heartbeat frame arrives. *)
Fixpoint examined_and_acked (n : nat) (sess : Session) (data : Data)
  (room : Room.t) (member : RoomMember.t) (s : State) : State :=
  match n with
  | 0 => s
  | S n' =>
      snd (on_message sess (Frame data)
             (final (check_member room member
                       (examined_and_acked n' sess data room member s))))
  end.

(** Events that are a reply on socket [h] or the handler's error line. *)
Definition own_reply (h : Handle) (e : Event) : bool :=
  match e with
  | Replied h' _ => Nat.eqb h' h
  | ConsoleError err_message => true
  | _ => false
  end.

(** How many reasonless [room_deleted] frames [evs] holds for key [k]. *)
Definition plainly_told (k : string) (evs : list Event) : nat :=
  length (filter (is_plain_notice k) evs).

(** No room has more member rows than its [maxUsers]. *)
Definition within_capacity (d : Db) : Prop :=
  forall r, In r (rooms d) ->
    (length (members_of (Room.id r) d) <= Room.maxUsers r)%nat.

(** The key under which member [m] of [room] is looked up. *)
Definition member_key (room : Room.t) (m : RoomMember.t) : string :=
  clientKey (Room.roomId room) (RoomMember.userId m).

(** *** Requests used at concrete inputs *)

(** A verifier that knows three tokens. *)
Definition tokens (t : string) : option Payload :=
  if t =? "t1" then Some (mkPayload "U1")
  else if t =? "t2" then Some (mkPayload "U2")
  else if t =? "t9" then Some (mkPayload "U9")
  else None.

(** Rooms without a password. *)
Definition no_password (_ : Room.t) : option string := None.

Definition request (t code : string) : RoomRequest :=
  mkRequest (Some t) (field_string code) None.

(** ** Facts about the [Map] *)

Lemma Map_get_replace_eq {V} (k : string) (v : V) (m : JsMap V) :
  Map_has k m = true -> Map_get k (Map_replace k v m) = Some v.
Proof.
  unfold Map_has. induction m as [| [k' v'] m IH]; simpl; [discriminate |].
  destruct (k' =? k) eqn:E; simpl; rewrite E; auto.
Qed.

Lemma Map_get_app_fresh {V} (k k' : string) (v : V) (m : JsMap V) :
  Map_get k' (m ++ [(k, v)]) =
  match Map_get k' m with
  | Some x => Some x
  | None => if k =? k' then Some v else None
  end.
Proof.
  induction m as [| [k0 v0] m IH]; simpl; [reflexivity |].
  destruct (k0 =? k'); auto.
Qed.

Lemma Map_get_set_eq {V} (k : string) (v : V) (m : JsMap V) :
  Map_get k (Map_set k v m) = Some v.
Proof.
  unfold Map_set. destruct (Map_has k m) eqn:H.
  - now apply Map_get_replace_eq.
  - rewrite Map_get_app_fresh. unfold Map_has in H.
    destruct (Map_get k m); [discriminate |]. now rewrite String.eqb_refl.
Qed.

Lemma Map_get_replace_ne {V} (k k' : string) (v : V) (m : JsMap V) :
  k <> k' -> Map_get k' (Map_replace k v m) = Map_get k' m.
Proof.
  intros Hne. induction m as [| [k0 v0] m IH]; simpl; [reflexivity |].
  destruct (k0 =? k) eqn:E; simpl.
  - apply String.eqb_eq in E. subst k0.
    apply String.eqb_neq in Hne. now rewrite Hne.
  - destruct (k0 =? k'); auto.
Qed.

Lemma Map_get_set_ne {V} (k k' : string) (v : V) (m : JsMap V) :
  k <> k' -> Map_get k' (Map_set k v m) = Map_get k' m.
Proof.
  intros Hne. unfold Map_set. destruct (Map_has k m).
  - now apply Map_get_replace_ne.
  - rewrite Map_get_app_fresh. destruct (Map_get k' m); [reflexivity |].
    apply String.eqb_neq in Hne. now rewrite Hne.
Qed.

Lemma Map_get_delete_eq {V} (k : string) (m : JsMap V) :
  Map_get k (Map_delete k m) = None.
Proof.
  induction m as [| [k0 v0] m IH]; simpl; [reflexivity |].
  destruct (k0 =? k) eqn:E; simpl; [assumption | now rewrite E].
Qed.

Lemma Map_get_delete_ne {V} (k k' : string) (m : JsMap V) :
  k <> k' -> Map_get k' (Map_delete k m) = Map_get k' m.
Proof.
  intros Hne. induction m as [| [k0 v0] m IH]; simpl; [reflexivity |].
  destruct (k0 =? k) eqn:E; simpl.
  - apply String.eqb_eq in E. subst k0.
    apply String.eqb_neq in Hne. now rewrite Hne.
  - destruct (k0 =? k'); auto.
Qed.

Lemma Map_get_In {V} (k : string) (v : V) (m : JsMap V) :
  Map_get k m = Some v -> In (k, v) m.
Proof.
  induction m as [| [k0 v0] m IH]; simpl; [discriminate |].
  destruct (k0 =? k) eqn:E.
  - apply String.eqb_eq in E. intros [= ->]. left. now subst.
  - intros H. right. auto.
Qed.

Lemma Map_get_None_keys {V} (k : string) (m : JsMap V) :
  Map_get k m = None <-> ~ In k (map fst m).
Proof.
  clear clock MAX_FAILED_HEARTBEATS.
  induction m as [| [k0 v0] m IH]; simpl; [tauto |].
  destruct (k0 =? k) eqn:E.
  - apply String.eqb_eq in E. split; [discriminate | intros H; exfalso; auto].
  - apply String.eqb_neq in E. rewrite IH. tauto.
Qed.

Lemma In_Map_get {V} (k : string) (v : V) (m : JsMap V) :
  Map_wf m -> In (k, v) m -> Map_get k m = Some v.
Proof.
  clear clock MAX_FAILED_HEARTBEATS.
  unfold Map_wf. induction m as [| [k0 v0] m IH]; simpl; [tauto |].
  intros Hnd [H | H].
  - injection H as -> ->. now rewrite String.eqb_refl.
  - inversion Hnd as [| ? ? Hnotin Hnd']; subst.
    destruct (k0 =? k) eqn:E; [| auto].
    apply String.eqb_eq in E. subst k0. exfalso. apply Hnotin.
    change k with (fst (k, v)). now apply in_map.
Qed.

Lemma Map_keys_replace {V} (k : string) (v : V) (m : JsMap V) :
  map fst (Map_replace k v m) = map fst m.
Proof.
  induction m as [| [k0 v0] m IH]; simpl; [reflexivity |].
  destruct (k0 =? k); simpl; congruence.
Qed.

Lemma Map_wf_set {V} (k : string) (v : V) (m : JsMap V) :
  Map_wf m -> Map_wf (Map_set k v m).
Proof.
  clear clock MAX_FAILED_HEARTBEATS.
  unfold Map_wf, Map_set. intros Hnd. destruct (Map_has k m) eqn:H.
  - now rewrite Map_keys_replace.
  - rewrite map_app. simpl. unfold Map_has in H.
    destruct (Map_get k m) eqn:G; [discriminate |].
    apply Map_get_None_keys in G.
    apply NoDup_app; [assumption | repeat constructor; simpl; tauto |].
    intros x Hx [Hk | []]. now subst.
Qed.

Lemma Map_keys_delete_incl {V} (k x : string) (m : JsMap V) :
  In x (map fst (Map_delete k m)) -> In x (map fst m).
Proof.
  clear clock MAX_FAILED_HEARTBEATS.
  induction m as [| [k0 v0] m IH]; simpl; [tauto |].
  destruct (k0 =? k); simpl; tauto.
Qed.

Lemma Map_wf_delete {V} (k : string) (m : JsMap V) :
  Map_wf m -> Map_wf (Map_delete k m).
Proof.
  unfold Map_wf. induction m as [| [k0 v0] m IH]; simpl; [auto |].
  intros Hnd. inversion Hnd as [| ? ? Hnotin Hnd']; subst.
  destruct (k0 =? k); simpl; [auto |].
  constructor; [| auto]. intros H. apply Hnotin.
  eapply Map_keys_delete_incl; eassumption.
Qed.

Lemma Map_count_absent {V} (k : string) (m : JsMap V) :
  ~ In k (map fst m) -> Map_count k m = 0.
Proof.
  clear clock MAX_FAILED_HEARTBEATS.
  unfold Map_count. induction m as [| [k0 v0] m IH]; simpl; [reflexivity |].
  intros H. destruct (k0 =? k) eqn:E.
  - apply String.eqb_eq in E. tauto.
  - apply IH. tauto.
Qed.

Lemma Map_count_present {V} (k : string) (v : V) (m : JsMap V) :
  Map_wf m -> Map_get k m = Some v -> Map_count k m = 1.
Proof.
  unfold Map_wf, Map_count.
  induction m as [| [k0 v0] m IH]; simpl; [discriminate |].
  intros Hnd. inversion Hnd as [| ? ? Hnotin Hnd']; subst.
  destruct (k0 =? k) eqn:E; simpl.
  - intros _. apply String.eqb_eq in E. subst k0.
    f_equal. now apply (Map_count_absent k m).
  - auto.
Qed.

(** ** The message handler *)

Lemma nonempty_Some (v : string) : v <> "" -> nonempty (Some v) = Some v.
Proof.
  intros H. simpl. apply String.eqb_neq in H. now rewrite H.
Qed.

Lemma nonempty_inv (o : option string) (v : string) :
  nonempty o = Some v -> o = Some v /\ v <> "".
Proof.
  destruct o as [x |]; simpl; [| discriminate].
  destruct (x =? "") eqn:E; [discriminate |].
  intros [= ->]. split; [reflexivity | now apply String.eqb_neq].
Qed.

Lemma type_is_exclusive (t t' : string) (data : Data) :
  type_is t data = true -> t <> t' -> type_is t' data = false.
Proof.
  unfold type_is. destruct (dtype data) as [x |]; simpl; [| discriminate].
  intros H Hne. apply String.eqb_eq in H. subst x. now apply String.eqb_neq.
Qed.

(** An accepted join installs a fresh entry under the key, whatever
    becomes of the [joined] reply. *)
Lemma on_message_join (r u : string) (sess : Session) (msg : Inbound) (s : State) :
  accepted_join r u msg ->
  fst (on_message sess msg s) = mkSession (s_ws sess) (Some u) (Some r) /\
  clients (snd (on_message sess msg s)) =
    Map_set (clientKey r u)
            (mkClient (s_ws sess) u r 0 (clock (ticks s))) (clients s) /\
  db (snd (on_message sess msg s)) = db s.
Proof.
  clear MAX_FAILED_HEARTBEATS.
  destruct msg as [| data]; simpl; [tauto |].
  intros (Ht & Hu & Hr & Hune & Hrne).
  unfold assign, handle_frame. rewrite Ht. simpl. rewrite Hu, Hr.
  rewrite (nonempty_Some u Hune), (nonempty_Some r Hrne).
  unfold try_catch, bind, Date_now, clients_set, set_clients, ws_send, is_closed.
  simpl. destruct (existsb (Nat.eqb (s_ws sess)) (closed s)); simpl; auto.
Qed.

Lemma for_of_cons {A} (x : A) (l : list A) (body : A -> M Completion) (s : State) :
  for_of (x :: l) body s =
  match body x s with
  | Done Normal s' => for_of l body s'
  | Done Return s' => Done Return s'
  | Raised s' => Raised s'
  end.
Proof.
  simpl. unfold bind. destruct (body x s) as [[|] s' | s']; reflexivity.
Qed.

Lemma relay_step (sess : Session) (r : string) (data : Data)
  (k : string) (c : ClientConnection) (s : State) :
  relay sess r data (k, c) s =
  if (roomId c =? r)
     && negb (option_eqb String.eqb (Some (userId c)) (s_userId sess))
  then if is_closed (ws c) s then Raised s
       else Done Normal (mkState (clients s) (db s) (closed s)
                           (events s ++ [Sent k (ws c) (draw_event data)])
                           (ticks s))
  else Done Normal s.
Proof.
  unfold relay. destruct (_ && _); [| reflexivity].
  unfold bind, client_send. destruct (is_closed (ws c) s); reflexivity.
Qed.

(** The [forEach] of the [draw_event] branch touches nothing but the
    sockets it sends on. *)
Lemma relay_loop_frame (sess : Session) (r : string) (data : Data)
  (l : list (string * ClientConnection)) (s : State) :
  clients (final (for_of l (relay sess r data) s)) = clients s /\
  db (final (for_of l (relay sess r data) s)) = db s /\
  closed (final (for_of l (relay sess r data) s)) = closed s /\
  ticks (final (for_of l (relay sess r data) s)) = ticks s.
Proof.
  revert s. induction l as [| [k c] l IH]; intros s; [simpl; auto |].
  rewrite for_of_cons, relay_step.
  destruct (_ && _); [| apply IH].
  destruct (is_closed (ws c) s); [simpl; auto |].
  apply (IH (mkState (clients s) (db s) (closed s)
               (events s ++ [Sent k (ws c) (draw_event data)]) (ticks s))).
Qed.

(** The [forEach] serves the peers in registry order up to the first one
    whose socket throws; the exception of that send ends the loop. *)
Lemma relay_loop_eq (sess : Session) (r u : string) (data : Data)
  (l : list (string * ClientConnection)) (s : State) :
  s_userId sess = Some u ->
  for_of l (relay sess r data) s =
  if all_open r u s l
  then Done Normal (add_events (map (relayed data) (served r u s l)) s)
  else Raised (add_events (map (relayed data) (served r u s l)) s).
Proof.
  intros Hu.
  assert (G : forall new,
    for_of l (relay sess r data) (add_events new s) =
    if all_open r u s l
    then Done Normal (add_events (new ++ map (relayed data) (served r u s l)) s)
    else Raised (add_events (new ++ map (relayed data) (served r u s l)) s)).
  { induction l as [| [k c] l IH]; intros new.
    - simpl. now rewrite app_nil_r.
    - rewrite for_of_cons, relay_step, Hu. simpl.
      change ((roomId c =? r) && negb (userId c =? u)) with (peer_of r u (k, c)).
      change (is_closed (ws c) (add_events new s)) with (is_closed (ws c) s).
      destruct (peer_of r u (k, c)); simpl.
      + destruct (is_closed (ws c) s); simpl.
        * now rewrite app_nil_r.
        * change (mkState (clients s) (db s) (closed s)
                    ((events s ++ new) ++ [Sent k (ws c) (draw_event data)])
                    (ticks s))
            with (add_events ((events s ++ new) ++ [relayed data (k, c)]) 
                    (mkState (clients s) (db s) (closed s) [] (ticks s))).
          replace (add_events ((events s ++ new) ++ [relayed data (k, c)])
                     (mkState (clients s) (db s) (closed s) [] (ticks s)))
            with (add_events (new ++ [relayed data (k, c)]) s)
            by (unfold add_events; simpl; now rewrite app_assoc).
          rewrite IH, <- !app_assoc. reflexivity.
      + apply IH. }
  specialize (G []). simpl in G.
  replace (add_events [] s) with s in G
    by (unfold add_events; rewrite app_nil_r; now destruct s).
  exact G.
Qed.

Lemma served_In (r u : string) (s : State) (l : JsMap ClientConnection)
  (e : string * ClientConnection) :
  In e (served r u s l) ->
  In e l /\ peer_of r u e = true /\ is_closed (ws (snd e)) s = false.
Proof.
  clear clock MAX_FAILED_HEARTBEATS.
  induction l as [| x l IH]; simpl; [tauto |].
  destruct (peer_of r u x) eqn:P.
  - destruct (is_closed (ws (snd x)) s) eqn:C; simpl; [tauto |].
    intros [<- | H]; [auto | ]. destruct (IH H) as (H1 & H2 & H3). auto.
  - intros H. destruct (IH H) as (H1 & H2 & H3). auto.
Qed.

Lemma served_all_open (r u : string) (s : State) (l : JsMap ClientConnection) :
  all_open r u s l = true -> served r u s l = filter (peer_of r u) l.
Proof.
  unfold all_open. induction l as [| x l IH]; simpl; [reflexivity |].
  intros H. apply andb_prop in H. destruct H as (Hx & Hl).
  destruct (peer_of r u x); simpl in *.
  - apply negb_true_iff in Hx. rewrite Hx. f_equal. auto.
  - auto.
Qed.

Lemma all_open_intro (r u : string) (s : State) (l : JsMap ClientConnection) :
  (forall k c, In (k, c) l -> peer_of r u (k, c) = true ->
               is_closed (ws c) s = false) ->
  all_open r u s l = true.
Proof.
  intros H. unfold all_open. apply forallb_forall. intros [k c] Hin.
  destruct (peer_of r u (k, c)) eqn:P; [| reflexivity].
  simpl. now rewrite (H k c Hin P).
Qed.

(** A peer whose socket throws cuts the broadcast short: the peers listed
    after it are not served. *)
Lemma served_cut (r u : string) (s : State)
  (pre post : JsMap ClientConnection) (b : string * ClientConnection) :
  peer_of r u b = true ->
  is_closed (ws (snd b)) s = true ->
  all_open r u s (pre ++ b :: post) = false /\
  forall e, In e (served r u s (pre ++ b :: post)) -> In e pre.
Proof.
  clear clock MAX_FAILED_HEARTBEATS.
  intros Hp Hc. split.
  - unfold all_open. rewrite forallb_app. simpl. rewrite Hp, Hc. simpl.
    apply andb_false_r.
  - induction pre as [| x pre IH]; simpl.
    + rewrite Hp, Hc. simpl. tauto.
    + destruct (peer_of r u x); [destruct (is_closed (ws (snd x)) s) |];
        simpl; intuition.
Qed.

(** What a [draw_event] frame on a socket joined as [(r, u)] adds to the
    events. *)
Lemma on_message_draw_event (r u : string) (sess : Session) (data : Data) (s : State) :
  joined_as r u sess ->
  type_is "draw_event" data = true ->
  snd (on_message sess (Frame data) s) =
  add_events (map (relayed data) (served r u s (clients s)) ++
              if all_open r u s (clients s) then [] else [ConsoleError err_message])
             s.
Proof.
  intros (Hu & Hr & Hune & Hrne) Ht.
  unfold on_message, assign, handle_frame.
  rewrite (type_is_exclusive _ "join" _ Ht) by discriminate.
  rewrite (type_is_exclusive _ "heartbeat" _ Ht) by discriminate.
  rewrite Ht, Hr, (nonempty_Some r Hrne).
  unfold try_catch, bind.
  rewrite (relay_loop_eq sess r u data (clients s) s Hu).
  destruct (all_open r u s (clients s)); simpl.
  - now rewrite app_nil_r.
  - unfold add_events. simpl. now rewrite app_assoc.
Qed.

(** Handling any frame leaves the registry as it was or performs one
    [set]; the store, the sockets' condition are never touched. *)
Lemma on_message_registry (sess : Session) (msg : Inbound) (s : State) :
  (clients (snd (on_message sess msg s)) = clients s \/
   exists k v, clients (snd (on_message sess msg s)) = Map_set k v (clients s)) /\
  db (snd (on_message sess msg s)) = db s /\
  closed (snd (on_message sess msg s)) = closed s.
Proof.
  clear MAX_FAILED_HEARTBEATS.
  destruct msg as [| data]; simpl; [auto |].
  unfold handle_frame, try_catch.
  destruct (type_is "join" data).
  { destruct (nonempty _) as [u |]; [| simpl; auto].
    destruct (nonempty _) as [r |]; [| simpl; auto].
    unfold bind, Date_now, clients_set, set_clients, ws_send, is_closed. simpl.
    destruct (existsb _ _); simpl; eauto 6. }
  destruct (type_is "heartbeat" data).
  { destruct (nonempty _) as [u |]; [| simpl; auto].
    destruct (nonempty _) as [r |]; [| simpl; auto].
    unfold bind, clients_get. simpl.
    destruct (Map_get _ _) as [c |]; [| simpl; auto].
    unfold Date_now, clients_set, set_clients, ws_send, is_closed. simpl.
    destruct (existsb _ _); simpl; eauto 6. }
  destruct (type_is "draw_event" data); [| simpl; auto].
  destruct (nonempty _) as [r |]; [| simpl; auto].
  unfold bind.
  pose proof (relay_loop_frame (assign sess data) r data (clients s) s) as H.
  destruct (for_of _ _ s) as [c s' | s']; simpl in *; intuition.
Qed.

Lemma on_message_Map_wf (sess : Session) (msg : Inbound) (s : State) :
  Map_wf (clients s) -> Map_wf (clients (snd (on_message sess msg s))).
Proof.
  intros Hwf. destruct (on_message_registry sess msg s) as [[H | (k & v & H)] _];
    rewrite H; [assumption | now apply Map_wf_set].
Qed.

Lemma run_messages_Map_wf (l : list (Session * Inbound)) (s : State) :
  Map_wf (clients s) -> Map_wf (clients (run_messages l s)).
Proof.
  revert s. induction l as [| [sess msg] l IH]; intros s Hwf; simpl; [assumption |].
  apply IH. now apply on_message_Map_wf.
Qed.

Lemma run_messages_app (l l' : list (Session * Inbound)) (s : State) :
  run_messages (l ++ l') s = run_messages l' (run_messages l s).
Proof.
  revert s. induction l as [| [sess msg] l IH]; intros s; simpl; auto.
Qed.

(** C10. Socket T1 joins [(r, u)], socket T2 then joins the same key and
    overwrites the entry, and T1 closes: the close handler deletes by key
    alone, so the entry that goes is the one T2 installed, although T2 is
    still open. *)
Theorem close_of_replaced_socket_removes_successor
  (r u : string) (sess1 sess2 : Session) (join1 join2 : Inbound) (s : State) :
  accepted_join r u join1 ->
  accepted_join r u join2 ->
  let sess1' := fst (on_message sess1 join1 s) in
  let s1 := snd (on_message sess1 join1 s) in
  let s2 := snd (on_message sess2 join2 s1) in
  Map_get (clientKey r u) (clients s2)
    = Some (mkClient (s_ws sess2) u r 0 (clock (ticks s1))) /\
  Map_get (clientKey r u) (clients (on_close sess1' s2)) = None.
Proof.
  intros H1 H2 sess1' s1 s2.
  destruct (on_message_join r u sess1 join1 s H1) as (Hsess & _ & _).
  destruct (on_message_join r u sess2 join2 s1 H2) as (_ & Hc2 & _).
  fold s2 in Hc2. fold sess1' in Hsess. split.
  - rewrite Hc2. apply Map_get_set_eq.
  - assert (Hu : u <> "" /\ r <> "").
    { destruct join1; simpl in H1; tauto. }
    unfold on_close. rewrite Hsess. simpl s_userId. simpl s_roomId.
    rewrite (nonempty_Some u), (nonempty_Some r) by tauto.
    unfold clients_delete, set_clients. simpl.
    apply Map_get_delete_eq.
Qed.

(** C8. After any run of frames that ends with an accepted join of
    [(r, u)] (in particular a run of joins of that same key, from whatever
    sockets), the registry holds exactly one entry under the key: the one
    of the last join, on that join's socket, with failure count [0] and
    with the time read by that join as last-ack time. *)
Theorem join_last_writer_wins
  (r u : string) (earlier : list (Session * Inbound))
  (sess : Session) (msg : Inbound) (s : State) :
  Map_wf (clients s) ->
  accepted_join r u msg ->
  let before := run_messages earlier s in
  let after := run_messages (earlier ++ [(sess, msg)]) s in
  Map_get (clientKey r u) (clients after)
    = Some (mkClient (s_ws sess) u r 0 (clock (ticks before))) /\
  Map_count (clientKey r u) (clients after) = 1.
Proof.
  intros Hwf Hj before after.
  assert (Hafter : after = snd (on_message sess msg before)).
  { unfold after, before. now rewrite run_messages_app. }
  destruct (on_message_join r u sess msg before Hj) as (_ & Hc & _).
  assert (Hget : Map_get (clientKey r u) (clients after)
                 = Some (mkClient (s_ws sess) u r 0 (clock (ticks before)))).
  { rewrite Hafter, Hc. apply Map_get_set_eq. }
  split; [exact Hget |].
  eapply Map_count_present; [| exact Hget].
  rewrite Hafter. apply on_message_Map_wf. now apply run_messages_Map_wf.
Qed.

(** C5, as amended.  A [draw_event] frame sent on a socket joined as
    [(r, u)] is forwarded, as parsed, only to registry entries whose room
    is [r] and whose user is not [u], whatever the sockets do: no entry of
    user [u] is sent anything, nothing is replied on the sender's socket,
    and the sender's socket is sent the frame only if it is also the
    socket of an entry of [r] under another user.  When the peers' sockets
    accept the send, every such entry is sent the frame, once, in registry
    order. *)
Theorem draw_event_delivered_to_peers_only
  (r u : string) (sess : Session) (data : Data) (s : State) :
  joined_as r u sess ->
  type_is "draw_event" data = true ->
  let s' := snd (on_message sess (Frame data) s) in
  exists new,
    events s' = events s ++ new /\
    (forall k h m, In (Sent k h m) new ->
       m = draw_event data /\
       exists c, In (k, c) (clients s) /\ h = ws c /\ roomId c = r /\ userId c <> u) /\
    (forall h m, ~ In (Replied h m) new) /\
    ((forall k c, In (k, c) (clients s) -> ws c = s_ws sess -> roomId c = r ->
                  userId c = u) ->
     forall k m, ~ In (Sent k (s_ws sess) m) new) /\
    ((forall k c, In (k, c) (clients s) -> roomId c = r -> userId c <> u ->
                  is_closed (ws c) s = false) ->
     new = map (relayed data) (filter (peer_of r u) (clients s)) /\
     forall k c, In (k, c) (clients s) -> roomId c = r -> userId c <> u ->
                 In (Sent k (ws c) (draw_event data)) new).
Proof.
  intros Hj Ht s'.
  assert (Hpeer : forall k c, peer_of r u (k, c) = true <->
                              roomId c = r /\ userId c <> u).
  { intros k c. unfold peer_of. simpl.
    rewrite andb_true_iff, negb_true_iff, String.eqb_eq, String.eqb_neq. tauto. }
  set (new := map (relayed data) (served r u s (clients s)) ++
              (if all_open r u s (clients s) then [] else [ConsoleError err_message])).
  assert (Hsent : forall k h m, In (Sent k h m) new ->
            m = draw_event data /\
            exists c, In (k, c) (clients s) /\ h = ws c /\ roomId c = r /\
                      userId c <> u).
  { intros k h m Hin. apply in_app_or in Hin. destruct Hin as [Hin | Hin].
    + apply in_map_iff in Hin. destruct Hin as ([k' c] & E & Hin).
      unfold relayed in E. simpl in E. injection E as E1 E2 E3. subst k h m.
      apply served_In in Hin.
      destruct Hin as (Hin & Hp & _). apply Hpeer in Hp.
      split; [reflexivity |]. exists c. tauto.
    + destruct (all_open r u s (clients s)); simpl in Hin; [tauto |].
      destruct Hin as [E | []]. discriminate. }
  exists new. split; [| split; [exact Hsent | split; [| split]]].
  - unfold s'. rewrite (on_message_draw_event r u sess data s Hj Ht). reflexivity.
  - intros h m Hin. apply in_app_or in Hin. destruct Hin as [Hin | Hin].
    + apply in_map_iff in Hin. destruct Hin as (e & E & _). discriminate.
    + destruct (all_open r u s (clients s)); simpl in Hin; [tauto |].
      destruct Hin as [E | []]. discriminate.
  - intros Hown k m Hin.
    destruct (Hsent k (s_ws sess) m Hin) as (_ & c & Hc & Hws & Hroom & Huser).
    apply Huser. apply (Hown k c); auto.
  - intros Hopen.
    assert (Hall : all_open r u s (clients s) = true).
    { apply all_open_intro. intros k c Hin Hp. apply Hpeer in Hp.
      apply (Hopen k c); tauto. }
    unfold new. rewrite Hall, app_nil_r, (served_all_open _ _ _ _ Hall).
    split; [reflexivity |]. intros k c Hin Hroom Huser.
    change (Sent k (ws c) (draw_event data)) with (relayed data (k, c)).
    apply in_map, filter_In. split; [assumption |]. apply Hpeer. tauto.
Qed.

(** A heartbeat frame on a socket joined as [(r, u)] clears the failure
    count of the entry stored under the key, whatever it was. *)
Lemma on_message_heartbeat (r u : string) (sess : Session) (data : Data)
  (c : ClientConnection) (s : State) :
  joined_as r u sess ->
  type_is "heartbeat" data = true ->
  Map_get (clientKey r u) (clients s) = Some c ->
  fst (on_message sess (Frame data) s) = sess /\
  clients (snd (on_message sess (Frame data) s)) =
    Map_set (clientKey r u)
      (mkClient (ws c) (userId c) (roomId c) 0 (clock (ticks s))) (clients s) /\
  db (snd (on_message sess (Frame data) s)) = db s.
Proof.
  intros (Hu & Hr & Hune & Hrne) Ht G. unfold on_message, assign, handle_frame.
  rewrite (type_is_exclusive _ "join" _ Ht) by discriminate.
  rewrite Ht, Hu, Hr, (nonempty_Some u Hune), (nonempty_Some r Hrne).
  unfold try_catch, bind, clients_get. rewrite G.
  unfold Date_now, clients_set, set_clients, ws_send, is_closed. simpl.
  destruct (existsb _ _); simpl; auto.
Qed.

(** The registry after a frame: untouched, or one [set] made by an
    accepted join or by a heartbeat that found its entry. *)
Lemma on_message_cases (sess : Session) (msg : Inbound) (s : State) :
  clients (snd (on_message sess msg s)) = clients s \/
  exists data r u,
    msg = Frame data /\
    ((accepted_join r u msg /\
      clients (snd (on_message sess msg s)) =
        Map_set (clientKey r u)
          (mkClient (s_ws sess) u r 0 (clock (ticks s))) (clients s)) \/
     (type_is "heartbeat" data = true /\ joined_as r u sess /\
      exists c, Map_get (clientKey r u) (clients s) = Some c /\
        clients (snd (on_message sess msg s)) =
          Map_set (clientKey r u)
            (mkClient (ws c) (userId c) (roomId c) 0 (clock (ticks s)))
            (clients s))).
Proof.
  clear MAX_FAILED_HEARTBEATS.
  destruct msg as [| data]; [left; reflexivity |].
  destruct (type_is "join" data) eqn:Tj.
  { destruct (nonempty (duserId data)) as [u |] eqn:Nu.
    - destruct (nonempty (droomId data)) as [r |] eqn:Nr.
      + apply nonempty_inv in Nu, Nr. destruct Nu as (Hu & Hune), Nr as (Hr & Hrne).
        right. exists data, r, u. split; [reflexivity |]. left.
        assert (Hj : accepted_join r u (Frame data)) by (simpl; auto).
        split; [exact Hj |]. apply (on_message_join r u sess _ s Hj).
      + left. simpl. unfold assign, handle_frame. rewrite Tj. simpl.
        rewrite Nu, Nr. reflexivity.
    - left. simpl. unfold assign, handle_frame. rewrite Tj. simpl.
      rewrite Nu. reflexivity. }
  destruct (type_is "heartbeat" data) eqn:Th.
  { destruct (nonempty (s_userId sess)) as [u |] eqn:Nu.
    - destruct (nonempty (s_roomId sess)) as [r |] eqn:Nr.
      + destruct (Map_get (clientKey r u) (clients s)) as [c |] eqn:G.
        * apply nonempty_inv in Nu, Nr.
          destruct Nu as (Hu & Hune), Nr as (Hr & Hrne).
          right. exists data, r, u. split; [reflexivity |]. right.
          assert (Hj : joined_as r u sess) by (unfold joined_as; auto).
          repeat split; try assumption. exists c. split; [exact G |].
          apply (on_message_heartbeat r u sess data c s Hj Th G).
        * left. simpl. unfold assign, handle_frame. rewrite Tj, Th, Nu, Nr.
          unfold try_catch, bind, clients_get. rewrite G. reflexivity.
      + left. simpl. unfold assign, handle_frame. rewrite Tj, Th, Nu, Nr.
        reflexivity.
    - left. simpl. unfold assign, handle_frame. rewrite Tj, Th, Nu. reflexivity. }
  left. simpl. unfold assign, handle_frame. rewrite Tj, Th.
  destruct (type_is "draw_event" data); [| reflexivity].
  destruct (nonempty (s_roomId sess)) as [r |]; [| reflexivity].
  unfold try_catch, bind.
  pose proof (relay_loop_frame sess r data (clients s) s) as H.
  destruct (for_of _ _ s) as [c s' | s']; simpl in *; tauto.
Qed.

Lemma on_close_registry (sess : Session) (s : State) :
  (clients (on_close sess s) = clients s \/
   exists k, clients (on_close sess s) = Map_delete k (clients s)) /\
  db (on_close sess s) = db s.
Proof.
  unfold on_close. destruct (nonempty _); [| auto].
  destruct (nonempty _); simpl; eauto.
Qed.

(** ** The sweep, step by step *)

Lemma for_of_app {A} (l l' : list A) (body : A -> M Completion) (s : State) :
  for_of (l ++ l') body s =
  match for_of l body s with
  | Done Normal s' => for_of l' body s'
  | Done Return s' => Done Return s'
  | Raised s' => Raised s'
  end.
Proof.
  revert s. induction l as [| x l IH]; intros s; [reflexivity |].
  rewrite <- app_comm_cons, !for_of_cons.
  destruct (body x s) as [[|] s' | s']; auto.
Qed.

Lemma notify_other_step (room : Room.t) (why : Reason) (m : RoomMember.t) (s : State) :
  notify_other room why m s = Done Normal (add_events (notice room why s m) s).
Proof.
  unfold notify_other, notice, bind, clients_get, try_catch, client_send.
  destruct (Map_get _ (clients s)) as [c |].
  - destruct (is_closed (ws c) s); reflexivity.
  - unfold add_events, ret. rewrite app_nil_r. now destruct s.
Qed.

Lemma notice_add_events (room : Room.t) (why : Reason) (new : list Event)
  (s : State) (m : RoomMember.t) :
  notice room why (add_events new s) m = notice room why s m.
Proof. reflexivity. Qed.

Lemma notify_other_loop (room : Room.t) (why : Reason)
  (others : list RoomMember.t) (s : State) :
  for_of others (notify_other room why) s =
  Done Normal (add_events (notices room why s others) s).
Proof.
  unfold notices.
  assert (G : forall new,
    for_of others (notify_other room why) (add_events new s) =
    Done Normal (add_events (new ++ flat_map (notice room why s) others) s)).
  { induction others as [| m others IH]; intros new.
    - simpl. now rewrite app_nil_r.
    - rewrite for_of_cons, notify_other_step, notice_add_events.
      replace (add_events (notice room why s m) (add_events new s))
        with (add_events (new ++ notice room why s m) s)
        by (unfold add_events; simpl; now rewrite app_assoc).
      rewrite IH. simpl. now rewrite app_assoc. }
  specialize (G []). simpl in G.
  replace (add_events [] s) with s in G
    by (unfold add_events; rewrite app_nil_r; now destruct s).
  exact G.
Qed.

(** The member loop body in closed form. *)
Lemma check_member_eq (room : Room.t) (member : RoomMember.t) (s : State) :
  let k := clientKey (Room.roomId room) (RoomMember.userId member) in
  let uid := RoomMember.userId member in
  check_member room member s =
  match Map_get k (clients s) with
  | Some c =>
      let s1 := probed room member c s in
      if (MAX_FAILED_HEARTBEATS <=? S (failedHeartbeats c))%nat then
        if uid =? Room.ownerId room then
          match find_room (Room.id room) (db s) with
          | Some _ => Done Return (dissolved room owner_timeout uid (Map_delete k) s1)
          | None =>
              Raised (add_events
                        (notices room owner_timeout s1
                           (members_except (Room.id room) uid (db s))) s1)
          end
        else
          match find_member (Room.id room) uid (db s) with
          | Some _ => Done Normal (evicted room uid (Map_delete k) s1)
          | None => Raised s1
          end
      else Done Normal s1
  | None =>
      if uid =? Room.ownerId room then
        match find_room (Room.id room) (db s) with
        | Some _ => Done Return (dissolved room owner_disconnected uid (fun m => m) s)
        | None =>
            Raised (add_events
                      (notices room owner_disconnected s
                         (members_except (Room.id room) uid (db s))) s)
        end
      else
        match find_member (Room.id room) uid (db s) with
        | Some _ => Done Normal (evicted room uid (fun m => m) s)
        | None => Done Normal s
        end
  end.
Proof.
  intros k uid. unfold check_member, probe_or_absent.
  fold k. fold uid. unfold bind at 1. unfold bind at 1. unfold clients_get at 1.
  destruct (Map_get k (clients s)) as [c |] eqn:G.
  - unfold bind at 1. unfold Date_now at 1. unfold bind at 1.
    assert (P : try_catch
      (client_send k c (heartbeat (clock (ticks s)));; clients_set k (charge c))
      (console_error (err_probe uid (Room.roomId room));; clients_set k (charge c))
      (mkState (clients s) (db s) (closed s) (events s) (S (ticks s)))
      = Done tt (probed room member c s)).
    { unfold try_catch, bind, client_send, console_error, emit, clients_set,
        set_clients, probed, is_closed. simpl.
      destruct (existsb (Nat.eqb (ws c)) (closed s)); reflexivity. }
    rewrite P. unfold ret at 1. unfold threshold_check. fold k. fold uid.
    unfold bind at 1. unfold clients_get at 1.
    assert (G1 : Map_get k (clients (probed room member c s)) = Some (charge c)).
    { unfold probed. simpl. apply Map_get_set_eq. }
    rewrite G1.
    change (failedHeartbeats (charge c)) with (S (failedHeartbeats c)).
    destruct (MAX_FAILED_HEARTBEATS <=? S (failedHeartbeats c))%nat; [| reflexivity].
    destruct (uid =? Room.ownerId room).
    + unfold bind at 1. unfold roomMember_findMany_not at 1.
      unfold bind at 1. rewrite notify_other_loop.
      unfold bind at 1. unfold room_delete at 1.
      change (db (add_events _ (probed room member c s))) with (db s).
      destruct (find_room (Room.id room) (db s)); reflexivity.
    + unfold bind at 1. unfold roomMember_delete at 1.
      change (db (probed room member c s)) with (db s).
      destruct (find_member (Room.id room) uid (db s)); reflexivity.
  - destruct (uid =? Room.ownerId room).
    + unfold bind at 1. unfold roomMember_findMany_not at 1.
      unfold bind at 1. rewrite notify_other_loop.
      unfold bind at 1. unfold room_delete at 1.
      change (db (add_events _ s)) with (db s).
      destruct (find_room (Room.id room) (db s)); reflexivity.
    + unfold bind at 1. unfold roomMember_findUnique at 1.
      destruct (find_member (Room.id room) uid (db s)) eqn:F.
      * unfold bind at 1. unfold roomMember_delete at 1. rewrite F.
        unfold set_db, ret, threshold_check, bind, clients_get. fold k.
        simpl. rewrite G. reflexivity.
      * unfold ret, threshold_check, bind, clients_get. fold k. now rewrite G.
Qed.

(** ** What any sweep step may do *)

Lemma registry_aged_refl (m : JsMap ClientConnection) : registry_aged m m.
Proof.
  intros k c' H. exists c'. unfold same_socket. repeat split; auto.
Qed.

Lemma registry_aged_trans (m1 m2 m3 : JsMap ClientConnection) :
  registry_aged m1 m2 -> registry_aged m2 m3 -> registry_aged m1 m3.
Proof.
  intros H12 H23 k c3 H3.
  destruct (H23 k c3 H3) as (c2 & H2 & (Ha & Hb & Hc & Hd) & Hle2).
  destruct (H12 k c2 H2) as (c1 & H1 & (Ha' & Hb' & Hc' & Hd') & Hle1).
  exists c1. unfold same_socket. repeat split; try congruence. lia.
Qed.

Lemma registry_aged_charge (k : string) (c : ClientConnection)
  (m : JsMap ClientConnection) :
  Map_get k m = Some c -> registry_aged m (Map_set k (charge c) m).
Proof.
  intros G k' c' H. destruct (String.eqb_spec k k') as [<- | Hne].
  - rewrite Map_get_set_eq in H. injection H as <-.
    exists c. unfold same_socket. simpl. repeat split; auto.
  - rewrite Map_get_set_ne in H by assumption.
    exists c'. unfold same_socket. repeat split; auto.
Qed.

Lemma registry_aged_delete (k : string) (m : JsMap ClientConnection) :
  registry_aged m (Map_delete k m).
Proof.
  intros k' c' H. destruct (String.eqb_spec k k') as [<- | Hne].
  - rewrite Map_get_delete_eq in H. discriminate.
  - rewrite Map_get_delete_ne in H by assumption.
    exists c'. unfold same_socket. repeat split; auto.
Qed.

Lemma filter_all {A} (l : list A) : filter (fun _ => true) l = l.
Proof. induction l; simpl; congruence. Qed.

Lemma filter_filter {A} (f g : A -> bool) (l : list A) :
  filter f (filter g l) = filter (fun x => g x && f x) l.
Proof.
  induction l as [| x l IH]; simpl; [reflexivity |].
  destruct (g x); simpl; [destruct (f x) |]; congruence.
Qed.

Lemma db_shrunk_refl (d : Db) : db_shrunk d d.
Proof.
  exists (fun _ => true), (fun _ => true). now rewrite !filter_all.
Qed.

Lemma db_shrunk_trans (d1 d2 d3 : Db) :
  db_shrunk d1 d2 -> db_shrunk d2 d3 -> db_shrunk d1 d3.
Proof.
  intros (f & g & Hf & Hg) (f' & g' & Hf' & Hg').
  exists (fun x => f x && f' x), (fun x => g x && g' x).
  rewrite Hf', Hg', Hf, Hg, !filter_filter. auto.
Qed.

Lemma db_shrunk_delete_room (rid : string) (d : Db) :
  db_shrunk d (delete_room_rows rid d).
Proof. unfold delete_room_rows. eexists _, _. simpl. split; reflexivity. Qed.

Lemma db_shrunk_delete_member (rid uid : string) (d : Db) :
  db_shrunk d (delete_member_row rid uid d).
Proof.
  unfold delete_member_row. exists (fun _ => true). eexists. simpl.
  rewrite filter_all. split; reflexivity.
Qed.

Lemma sweep_step_refl (s : State) : sweep_step s s.
Proof.
  repeat split; [apply registry_aged_refl | apply db_shrunk_refl |].
  exists []. now rewrite app_nil_r.
Qed.

Lemma sweep_step_trans (s1 s2 s3 : State) :
  sweep_step s1 s2 -> sweep_step s2 s3 -> sweep_step s1 s3.
Proof.
  intros (Hc & Hr & Hd & n & He) (Hc' & Hr' & Hd' & n' & He').
  repeat split.
  - congruence.
  - eapply registry_aged_trans; eassumption.
  - eapply db_shrunk_trans; eassumption.
  - exists (n ++ n'). rewrite He', He. now rewrite app_assoc.
Qed.

Lemma sweep_step_make (s : State) (m : JsMap ClientConnection) (d : Db)
  (new : list Event) (t : nat) :
  registry_aged (clients s) m -> db_shrunk (db s) d ->
  sweep_step s (mkState m d (closed s) (events s ++ new) t).
Proof.
  intros Hr Hd. repeat split; simpl; eauto.
Qed.

Lemma sweep_step_probed (room : Room.t) (member : RoomMember.t)
  (c : ClientConnection) (s : State) :
  Map_get (clientKey (Room.roomId room) (RoomMember.userId member)) (clients s)
    = Some c ->
  sweep_step s (probed room member c s).
Proof.
  intros G. unfold probed. apply sweep_step_make.
  - now apply registry_aged_charge.
  - apply db_shrunk_refl.
Qed.

Lemma sweep_step_add_events (new : list Event) (s : State) :
  sweep_step s (add_events new s).
Proof.
  unfold add_events. apply sweep_step_make;
    [apply registry_aged_refl | apply db_shrunk_refl].
Qed.

Lemma sweep_step_dissolved (room : Room.t) (why : Reason) (owner : string)
  (drop : JsMap ClientConnection -> JsMap ClientConnection) (s : State) :
  registry_aged (clients s) (drop (clients s)) ->
  sweep_step s (dissolved room why owner drop s).
Proof.
  intros H. unfold dissolved. apply sweep_step_make;
    [assumption | apply db_shrunk_delete_room].
Qed.

Lemma sweep_step_evicted (room : Room.t) (uid : string)
  (drop : JsMap ClientConnection -> JsMap ClientConnection) (s : State) :
  registry_aged (clients s) (drop (clients s)) ->
  sweep_step s (evicted room uid drop s).
Proof.
  intros H. unfold evicted.
  replace (events s) with (events s ++ []) by apply app_nil_r.
  apply sweep_step_make; [assumption | apply db_shrunk_delete_member].
Qed.

Lemma check_member_sweep_step (room : Room.t) (member : RoomMember.t) (s : State) :
  sweep_step s (final (check_member room member s)).
Proof.
  rewrite check_member_eq. cbv zeta.
  destruct (Map_get _ (clients s)) as [c |] eqn:G.
  - pose proof (sweep_step_probed room member c s G) as Hp.
    destruct (_ <=? _)%nat; [| exact Hp].
    destruct (_ =? _).
    + destruct (find_room _ _); simpl final;
        (eapply sweep_step_trans; [exact Hp |]).
      * apply sweep_step_dissolved, registry_aged_delete.
      * apply sweep_step_add_events.
    + destruct (find_member _ _ _); simpl final; [| exact Hp].
      eapply sweep_step_trans; [exact Hp |].
      apply sweep_step_evicted, registry_aged_delete.
  - destruct (_ =? _).
    + destruct (find_room _ _); simpl final.
      * apply sweep_step_dissolved, registry_aged_refl.
      * apply sweep_step_add_events.
    + destruct (find_member _ _ _); simpl final.
      * apply sweep_step_evicted, registry_aged_refl.
      * apply sweep_step_refl.
Qed.

(** ** Loops *)

Lemma for_of_always {A} (R : State -> State -> Prop) (body : A -> M Completion) :
  (forall s, R s s) ->
  (forall a b c, R a b -> R b c -> R a c) ->
  (forall x s, R s (final (body x s))) ->
  forall l s, R s (final (for_of l body s)).
Proof.
  intros Hrefl Htrans Hbody. induction l as [| x l IH]; intros s.
  - apply Hrefl.
  - rewrite for_of_cons. specialize (Hbody x s).
    destruct (body x s) as [[|] s' | s']; simpl in *; auto.
    eapply Htrans; [exact Hbody | apply IH].
Qed.

Lemma for_of_Normal {A} (R : State -> State -> Prop) (body : A -> M Completion) :
  (forall s, R s s) ->
  (forall a b c, R a b -> R b c -> R a c) ->
  (forall x s s', body x s = Done Normal s' -> R s s') ->
  forall l s s', for_of l body s = Done Normal s' -> R s s'.
Proof.
  intros Hrefl Htrans Hbody. induction l as [| x l IH]; intros s s'.
  - simpl. unfold ret. intros [= ->]. apply Hrefl.
  - rewrite for_of_cons.
    destruct (body x s) as [[|] s1 | s1] eqn:E; try discriminate.
    intros H. eapply Htrans; [eapply Hbody; exact E | now apply IH].
Qed.

Lemma for_of_rule {A} (Inv : list A -> State -> Prop) (Q : State -> Prop)
  (body : A -> M Completion) :
  (forall x rest s, Inv (x :: rest) s ->
     match body x s with
     | Done Normal s' => Inv rest s'
     | Done Return s' => Q s'
     | Raised _ => False
     end) ->
  forall l s, Inv l s ->
     match for_of l body s with
     | Done Normal s' => Inv [] s'
     | Done Return s' => Q s'
     | Raised _ => False
     end.
Proof.
  intros Hbody. induction l as [| x l IH]; intros s HI.
  - exact HI.
  - rewrite for_of_cons. specialize (Hbody x l s HI).
    destruct (body x s) as [[|] s' | s'];
      [apply IH; exact Hbody | exact Hbody | exact Hbody].
Qed.

Lemma for_of_prefix {A} (Inv : list A -> State -> Prop) (body : A -> M Completion) :
  (forall x rest s s', Inv (x :: rest) s -> body x s = Done Normal s' -> Inv rest s') ->
  forall pre rest s s',
    Inv (pre ++ rest) s -> for_of pre body s = Done Normal s' -> Inv rest s'.
Proof.
  intros Hbody. induction pre as [| x pre IH]; intros rest s s' HI.
  - simpl. unfold ret. now intros [= <-].
  - rewrite for_of_cons.
    destruct (body x s) as [[|] s1 | s1] eqn:E; try discriminate.
    intros H. apply (IH rest s1 s'); [| exact H].
    eapply Hbody; [exact HI | exact E].
Qed.

(** ** The room loop body and the cycle in closed form *)

Lemma notify_vanished_eq (room : Room.t) (member : RoomMember.t) (s : State) :
  notify_vanished room member s = Done Normal (vanished_told room member s).
Proof.
  unfold notify_vanished, vanished_told, bind, clients_get, try_catch,
    client_send, console_error, emit, clients_delete, set_clients, ret.
  destruct (Map_get _ (clients s)) as [c |]; [| reflexivity].
  destruct (is_closed (ws c) s); reflexivity.
Qed.

Lemma notify_vanished_loop (room : Room.t) (l : list RoomMember.t) (s : State) :
  for_of l (notify_vanished room) s =
  Done Normal (fold_left (fun st m => vanished_told room m st) l s).
Proof.
  revert s. induction l as [| m l IH]; intros s; [reflexivity |].
  rewrite for_of_cons, notify_vanished_eq. apply IH.
Qed.

Lemma check_room_eq (room : Room.t) (s : State) :
  check_room room s =
  let members := members_of (Room.id room) (db s) in
  match find_room (Room.id room) (db s) with
  | None =>
      Done Normal (fold_left (fun st m => vanished_told room m st) members s)
  | Some _ =>
      match for_of members (check_member room) s with
      | Done Normal s' =>
          if (length (members_of (Room.id room) (db s')) =? 0)%nat then
            match find_room (Room.id room) (db s') with
            | Some _ =>
                Done Normal (mkState (clients s')
                               (delete_room_rows (Room.id room) (db s'))
                               (closed s') (events s') (ticks s'))
            | None => Raised s'
            end
          else Done Normal s'
      | Done Return s' => Done Return s'
      | Raised s' => Raised s'
      end
  end.
Proof.
  unfold check_room, bind, roomMember_findMany, room_findUnique. cbv zeta.
  destruct (find_room (Room.id room) (db s)).
  - destruct (for_of _ (check_member room) s) as [[|] s' | s']; try reflexivity.
    unfold roomMember_count.
    destruct (length _ =? 0)%nat; [| reflexivity].
    unfold room_delete. destruct (find_room _ (db s')); reflexivity.
  - now rewrite notify_vanished_loop.
Qed.

Lemma heartbeatCheck_eq (s : State) :
  heartbeatCheck s =
  match for_of (active_rooms (db s)) check_room s with
  | Done _ s' => Done tt s'
  | Raised s' => Done tt (add_events [ConsoleError err_sweep] s')
  end.
Proof.
  unfold heartbeatCheck, try_catch, bind, room_findMany_active.
  destruct (for_of _ check_room s); reflexivity.
Qed.

Lemma sweep_step_vanished (room : Room.t) (member : RoomMember.t) (s : State) :
  sweep_step s (vanished_told room member s).
Proof.
  unfold vanished_told. destruct (Map_get _ (clients s)); [| apply sweep_step_refl].
  apply sweep_step_make; [apply registry_aged_delete | apply db_shrunk_refl].
Qed.

Lemma check_room_sweep_step (room : Room.t) (s : State) :
  sweep_step s (final (check_room room s)).
Proof.
  rewrite check_room_eq. cbv zeta. destruct (find_room _ (db s)).
  - pose proof (for_of_always sweep_step (check_member room)
                  sweep_step_refl sweep_step_trans
                  (check_member_sweep_step room)
                  (members_of (Room.id room) (db s)) s) as H.
    destruct (for_of _ _ s) as [[|] s' | s']; simpl in H; try exact H.
    destruct (_ =? 0)%nat; [| exact H].
    destruct (find_room _ (db s')); simpl final; [| exact H].
    eapply sweep_step_trans; [exact H |].
    replace (events s') with (events s' ++ []) by apply app_nil_r.
    apply sweep_step_make; [apply registry_aged_refl | apply db_shrunk_delete_room].
  - simpl final. generalize (members_of (Room.id room) (db s)). intros l.
    revert s. induction l as [| m l IH]; intros s; simpl; [apply sweep_step_refl |].
    eapply sweep_step_trans; [apply sweep_step_vanished | apply IH].
Qed.

(** Whatever a cycle does, it opens or closes no socket, adds no entry to
    the registry, lowers no failure count, only deletes rows from the
    store and only adds to the events. *)
Lemma sweep_sweep_step (s : State) : sweep_step s (sweep s).
Proof.
  unfold sweep. rewrite heartbeatCheck_eq.
  pose proof (for_of_always sweep_step check_room
                sweep_step_refl sweep_step_trans check_room_sweep_step
                (active_rooms (db s)) s) as H.
  destruct (for_of _ _ s) as [c s' | s']; simpl in *; [exact H |].
  eapply sweep_step_trans; [exact H | apply sweep_step_add_events].
Qed.

(** ** Probes and resets *)

Lemma probe_or_absent_live (room : Room.t) (member : RoomMember.t)
  (c : ClientConnection) (s : State) :
  Map_get (clientKey (Room.roomId room) (RoomMember.userId member)) (clients s)
    = Some c ->
  probe_or_absent room member s = Done Normal (probed room member c s).
Proof.
  intros G. unfold probe_or_absent, bind, clients_get. rewrite G.
  unfold Date_now, try_catch, client_send, console_error, emit, clients_set,
    set_clients, probed, is_closed, ret. simpl.
  destruct (existsb (Nat.eqb (ws c)) (closed s)); reflexivity.
Qed.

Lemma no_reset_when_aged (k : string) (s s' : State) :
  registry_aged (clients s) (clients s') -> ~ reset_at k s s'.
Proof.
  intros Hr (c & c' & G & G' & Hnz & Hz).
  destruct (Hr k c' G') as (c0 & G0 & _ & Hle).
  rewrite G in G0. injection G0 as <-. lia.
Qed.

(** C4. When the sweeper examines a member whose registry entry is [c],
    the probe block leaves the entry with a failure count one higher,
    whether the send returned or threw, within the same synchronous block
    and so before any frame of the peer can be handled.  A count that is
    not zero becomes zero by no sweep and by no close; a frame that makes
    it zero is an accepted join of the key or a heartbeat on a socket
    joined under the key. *)
Theorem probe_charges_counter_at_once
  (room : Room.t) (member : RoomMember.t) (c : ClientConnection) (s : State) :
  let k := clientKey (Room.roomId room) (RoomMember.userId member) in
  Map_get k (clients s) = Some c ->
  probe_or_absent room member s = Done Normal (probed room member c s) /\
  Map_get k (clients (probed room member c s)) = Some (charge c) /\
  failedHeartbeats (charge c) = S (failedHeartbeats c) /\
  (forall k', ~ reset_at k' s (sweep s)) /\
  (forall k' sess, ~ reset_at k' s (on_close sess s)) /\
  (forall k' sess msg,
     reset_at k' s (snd (on_message sess msg s)) ->
     exists data r u,
       msg = Frame data /\ k' = clientKey r u /\
       (accepted_join r u msg \/
        (type_is "heartbeat" data = true /\ joined_as r u sess))).
Proof.
  intros k G. split; [now apply probe_or_absent_live |].
  split; [unfold probed; simpl; apply Map_get_set_eq |].
  split; [reflexivity |]. split; [| split].
  - intros k'. apply no_reset_when_aged. apply (sweep_sweep_step s).
  - intros k' sess. apply no_reset_when_aged.
    destruct (on_close_registry sess s) as [[H | (k0 & H)] _]; rewrite H.
    + apply registry_aged_refl.
    + apply registry_aged_delete.
  - intros k' sess msg Hreset.
    destruct (on_message_cases sess msg s) as [H | (data & r & u & Hmsg & H)].
    + exfalso. revert Hreset. apply no_reset_when_aged. rewrite H.
      apply registry_aged_refl.
    + exists data, r, u. split; [exact Hmsg |].
      assert (Hset : exists v, clients (snd (on_message sess msg s))
                               = Map_set (clientKey r u) v (clients s)).
      { destruct H as [(_ & H) | (_ & _ & c0 & _ & H)]; eauto. }
      destruct Hset as (v & Hset).
      assert (Hk : k' = clientKey r u).
      { destruct (String.eqb_spec (clientKey r u) k') as [E | Hne]; [now symmetry |].
        exfalso. destruct Hreset as (c1 & c1' & G1 & G1' & Hnz & Hz).
        rewrite Hset, Map_get_set_ne in G1' by assumption.
        rewrite G1 in G1'. injection G1' as <-. contradiction. }
      split; [exact Hk |].
      destruct H as [(Hj & _) | (Ht & Hj & _)]; [left | right]; auto.
Qed.

(** ** Turns of the member loop that do not end the cycle *)

Lemma calm_step_refl (s : State) : calm_step s s.
Proof. exists []. now rewrite app_nil_r. Qed.

Lemma calm_step_same_events (s s' : State) :
  events s' = events s -> calm_step s s'.
Proof. intros H. exists []. now rewrite app_nil_r. Qed.

Lemma calm_step_trans (a b c : State) :
  calm_step a b -> calm_step b c -> calm_step a c.
Proof.
  intros (n & He & Hc) (n' & He' & Hc'). exists (n ++ n').
  rewrite He', He, app_assoc, forallb_app, Hc, Hc'. auto.
Qed.

Lemma calm_step_probed (room : Room.t) (member : RoomMember.t)
  (c : ClientConnection) (s : State) :
  calm_step s (probed room member c s).
Proof.
  unfold probed. eexists. split; [reflexivity |].
  simpl. now destruct (is_closed (ws c) s).
Qed.

Lemma check_member_Normal (room : Room.t) (member : RoomMember.t) (s s' : State) :
  check_member room member s = Done Normal s' ->
  rooms (db s') = rooms (db s) /\
  (roomMembers (db s') = roomMembers (db s) \/
   roomMembers (db s') =
     filter (fun x => negb (is_member_row (Room.id room) (RoomMember.userId member) x))
            (roomMembers (db s))) /\
  calm_step s s'.
Proof.
  rewrite check_member_eq. cbv zeta.
  destruct (Map_get _ (clients s)) as [c |].
  - pose proof (calm_step_probed room member c s) as Hp.
    destruct (_ <=? _)%nat.
    + destruct (_ =? _).
      * destruct (find_room _ _); discriminate.
      * destruct (find_member _ _ _); [| discriminate].
        intros [= <-]. simpl. repeat split; [now right |].
        destruct Hp as (n & He & Hc). exists n. now split.
    + intros [= <-]. simpl. repeat split; [now left | exact Hp].
  - destruct (_ =? _).
    + destruct (find_room _ _); discriminate.
    + destruct (find_member _ _ _); intros [= <-]; simpl;
        (repeat split; [| now apply calm_step_same_events]);
        [now right | now left].
Qed.

Lemma find_filter_keeps {A} (f g : A -> bool) (l : list A) :
  (forall x, f x = true -> g x = true) ->
  find f (filter g l) = find f l.
Proof.
  intros H. induction l as [| x l IH]; simpl; [reflexivity |].
  destruct (f x) eqn:F.
  - rewrite (H x F). simpl. now rewrite F.
  - destruct (g x); simpl; [now rewrite F | assumption].
Qed.

Lemma find_present {A} (f : A -> bool) (l : list A) (x : A) :
  In x l -> f x = true -> find f l <> None.
Proof.
  intros Hin Hf Hnone. now rewrite (find_none f l Hnone x Hin) in Hf.
Qed.

Lemma find_member_after_other (rid uid uid' : string) (l : list RoomMember.t) :
  uid' <> uid ->
  find (is_member_row rid uid')
       (filter (fun x => negb (is_member_row rid uid x)) l)
  = find (is_member_row rid uid') l.
Proof.
  intros Hne. apply find_filter_keeps. intros x Hx.
  unfold is_member_row in *. apply andb_prop in Hx. destruct Hx as (_ & Hx).
  apply String.eqb_eq in Hx. apply negb_true_iff, andb_false_intro2.
  apply String.eqb_neq. congruence.
Qed.

Lemma members_pending_step (room : Room.t) (x : RoomMember.t)
  (rest : list RoomMember.t) (s s' : State) :
  members_pending room (x :: rest) s ->
  check_member room x s = Done Normal s' ->
  members_pending room rest s'.
Proof.
  intros (Hroom & Hnd & Hfind) Hrun.
  destruct (check_member_Normal room x s s' Hrun) as (Hrooms & Hmembers & _).
  simpl in Hnd. inversion Hnd as [| ? ? Hnotin Hnd']; subst.
  split; [| split].
  - unfold find_room in *. now rewrite Hrooms.
  - exact Hnd'.
  - intros y Hy. specialize (Hfind y (or_intror Hy)).
    unfold find_member in *. destruct Hmembers as [-> | ->]; [assumption |].
    rewrite find_member_after_other; [assumption |].
    intros E. apply Hnotin. rewrite <- E. now apply in_map.
Qed.

(** ** The unique indexes *)

Lemma NoDup_map_filter {A B} (h : A -> B) (f : A -> bool) (l : list A) :
  NoDup (map h l) -> NoDup (map h (filter f l)).
Proof.
  clear clock MAX_FAILED_HEARTBEATS.
  induction l as [| x l IH]; simpl; [auto |].
  intros Hnd. inversion Hnd as [| ? ? Hnotin Hnd']; subst.
  destruct (f x); simpl; [| auto].
  constructor; [| auto]. intros Hin. apply Hnotin.
  apply in_map_iff in Hin. destruct Hin as (y & Hy & Hin).
  apply filter_In in Hin. rewrite <- Hy. apply in_map. tauto.
Qed.

Lemma Db_wf_shrunk (d d' : Db) : db_shrunk d d' -> Db_wf d -> Db_wf d'.
Proof.
  intros (f & g & Hf & Hg) (Hr & Hm). unfold Db_wf. rewrite Hf, Hg.
  split; now apply NoDup_map_filter.
Qed.

Lemma members_of_NoDup (rid : string) (d : Db) :
  Db_wf d -> NoDup (map RoomMember.userId (members_of rid d)).
Proof.
  intros (_ & Hm). unfold members_of.
  induction (roomMembers d) as [| x l IH]; simpl; [constructor |].
  simpl in Hm. inversion Hm as [| ? ? Hnotin Hnd]; subst.
  destruct (RoomMember.roomId x =? rid) eqn:E; simpl; [| auto].
  constructor; [| auto]. intros Hin. apply Hnotin.
  apply in_map_iff in Hin. destruct Hin as (y & Hy & Hin).
  apply filter_In in Hin. destruct Hin as (Hin & Hrid).
  apply String.eqb_eq in E, Hrid.
  apply in_map_iff. exists y. split; [congruence | assumption].
Qed.

Lemma members_of_found (rid : string) (d : Db) (y : RoomMember.t) :
  In y (members_of rid d) -> find_member rid (RoomMember.userId y) d <> None.
Proof.
  unfold members_of, find_member. intros Hin. apply filter_In in Hin.
  destruct Hin as (Hin & Hrid). apply (find_present _ _ y Hin).
  unfold is_member_row. now rewrite Hrid, String.eqb_refl.
Qed.

Lemma members_pending_start (room : Room.t) (s : State) :
  Db_wf (db s) ->
  find_room (Room.id room) (db s) <> None ->
  members_pending room (members_of (Room.id room) (db s)) s.
Proof.
  intros Hwf Hroom. split; [assumption |]. split.
  - now apply members_of_NoDup.
  - intros y. apply members_of_found.
Qed.

(** ** Turns of the room loop that do not end the cycle *)

Lemma calm_step_vanished (room : Room.t) (member : RoomMember.t) (s : State) :
  calm_step s (vanished_told room member s).
Proof.
  unfold vanished_told. destruct (Map_get _ (clients s)) as [c |];
    [| apply calm_step_refl].
  eexists. split; [reflexivity |]. simpl. now destruct (is_closed (ws c) s).
Qed.

Lemma check_room_Normal (room : Room.t) (s s' : State) :
  check_room room s = Done Normal s' -> calm_step s s'.
Proof.
  rewrite check_room_eq. cbv zeta. destruct (find_room _ (db s)).
  - destruct (for_of _ (check_member room) s) as [[|] s1 | s1] eqn:E;
      try discriminate.
    assert (H1 : calm_step s s1).
    { apply (for_of_Normal calm_step (check_member room)
               calm_step_refl calm_step_trans) with (l := members_of (Room.id room) (db s));
        [| exact E].
      intros x a b Hx. now destruct (check_member_Normal room x a b Hx) as (_ & _ & H). }
    destruct (_ =? 0)%nat.
    + destruct (find_room _ (db s1)); [| discriminate].
      intros [= <-]. eapply calm_step_trans; [exact H1 |].
      now apply calm_step_same_events.
    + now intros [= <-].
  - intros [= <-]. generalize (members_of (Room.id room) (db s)). intros l.
    revert s. induction l as [| m l IH]; intros s; simpl; [apply calm_step_refl |].
    eapply calm_step_trans; [apply calm_step_vanished | apply IH].
Qed.

(** At the moment a member is examined the store still has the room and
    the rows of the members yet to be examined, and the cycle has sent no
    [room_deleted] frame that carries a reason. *)
Lemma examines_inv (s : State) (room : Room.t) (member : RoomMember.t) (s2 : State) :
  Db_wf (db s) ->
  examines s room member s2 ->
  Db_wf (db s2) /\
  find_room (Room.id room) (db s2) <> None /\
  find_member (Room.id room) (RoomMember.userId member) (db s2) <> None /\
  calm_step s s2.
Proof.
  intros Hwf (pre & post & mpre & mpost & s1 & Hrooms & Hpre & Hroom & Hmem & Hmpre).
  assert (Hs1 : sweep_step s s1).
  { pose proof (for_of_always sweep_step check_room sweep_step_refl
                  sweep_step_trans check_room_sweep_step pre s) as H.
    now rewrite Hpre in H. }
  assert (Hs2 : sweep_step s1 s2).
  { pose proof (for_of_always sweep_step (check_member room) sweep_step_refl
                  sweep_step_trans (check_member_sweep_step room) mpre s1) as H.
    now rewrite Hmpre in H. }
  assert (Hwf1 : Db_wf (db s1)).
  { destruct Hs1 as (_ & _ & Hd & _). eapply Db_wf_shrunk; eassumption. }
  assert (Hwf2 : Db_wf (db s2)).
  { destruct Hs2 as (_ & _ & Hd & _). eapply Db_wf_shrunk; eassumption. }
  assert (Hpend : members_pending room (member :: mpost) s2).
  { apply (for_of_prefix (members_pending room) (check_member room)
             (members_pending_step room) mpre (member :: mpost) s1 s2);
      [| exact Hmpre].
    rewrite <- Hmem. now apply members_pending_start. }
  destruct Hpend as (Hroom2 & _ & Hfind).
  split; [exact Hwf2 |]. split; [exact Hroom2 |]. split.
  - apply Hfind. now left.
  - eapply calm_step_trans.
    + apply (for_of_Normal calm_step check_room calm_step_refl calm_step_trans
               check_room_Normal pre s s1 Hpre).
    + apply (for_of_Normal calm_step (check_member room) calm_step_refl
               calm_step_trans) with (l := mpre); [| exact Hmpre].
      intros x a b Hx. now destruct (check_member_Normal room x a b Hx) as (_ & _ & H).
Qed.

(** A turn of the member loop that [return]s ends the cycle there. *)
Lemma examines_Return (s : State) (room : Room.t) (member : RoomMember.t)
  (s2 s3 : State) :
  examines s room member s2 ->
  check_member room member s2 = Done Return s3 ->
  heartbeatCheck s = Done tt s3.
Proof.
  intros (pre & post & mpre & mpost & s1 & Hrooms & Hpre & Hroom & Hmem & Hmpre) Hrun.
  assert (Hloop : for_of (mpre ++ member :: mpost) (check_member room) s1
                  = Done Return s3).
  { now rewrite for_of_app, Hmpre, for_of_cons, Hrun. }
  assert (Hr : check_room room s1 = Done Return s3).
  { rewrite check_room_eq. cbv zeta.
    destruct (find_room (Room.id room) (db s1)); [| contradiction].
    now rewrite Hmem, Hloop. }
  rewrite heartbeatCheck_eq, Hrooms, for_of_app, Hpre, for_of_cons, Hr.
  reflexivity.
Qed.

(** ** Dissolution *)

Lemma append_inj_l (a b c : string) :
  String.append a b = String.append a c -> b = c.
Proof.
  induction a as [| x a IH]; simpl; [auto |]. intros [= H]. auto.
Qed.

Lemma clientKey_inj (r u u' : string) : clientKey r u = clientKey r u' -> u = u'.
Proof.
  unfold clientKey. intros H. apply append_inj_l in H.
  now apply append_inj_l in H.
Qed.

Lemma find_room_deleted (rid : string) (d : Db) :
  find_room rid (delete_room_rows rid d) = None.
Proof.
  unfold find_room, delete_room_rows. simpl.
  induction (rooms d) as [| x l IH]; simpl; [reflexivity |].
  destruct (Room.id x =? rid) eqn:E; simpl; [assumption | now rewrite E].
Qed.

Lemma members_of_deleted (rid : string) (d : Db) :
  members_of rid (delete_room_rows rid d) = [].
Proof.
  unfold members_of, delete_room_rows. simpl.
  induction (roomMembers d) as [| x l IH]; simpl; [reflexivity |].
  destruct (RoomMember.roomId x =? rid) eqn:E; simpl; [assumption | now rewrite E].
Qed.

Lemma find_member_deleted (rid uid : string) (d : Db) :
  find_member rid uid (delete_member_row rid uid d) = None.
Proof.
  unfold find_member, delete_member_row. simpl.
  induction (roomMembers d) as [| x l IH]; simpl; [reflexivity |].
  destruct (is_member_row rid uid x) eqn:E; simpl; [assumption | now rewrite E].
Qed.










(** ** No entry rests at the maximum *)

Lemma quiet_delete (k : string) (m : JsMap ClientConnection) :
  quiet m -> quiet (Map_delete k m).
Proof.
  intros Hq k' c G. destruct (String.eqb_spec k k') as [<- | Hne].
  - rewrite Map_get_delete_eq in G. discriminate.
  - rewrite Map_get_delete_ne in G by assumption. eauto.
Qed.

Lemma quiet_set (k : string) (v : ClientConnection) (m : JsMap ClientConnection) :
  quiet m -> (failedHeartbeats v < MAX_FAILED_HEARTBEATS)%nat ->
  quiet (Map_set k v m).
Proof.
  intros Hq Hv k' c G. destruct (String.eqb_spec k k') as [<- | Hne].
  - rewrite Map_get_set_eq in G. now injection G as <-.
  - rewrite Map_get_set_ne in G by assumption. eauto.
Qed.

Lemma quiet_delete_set (k : string) (v : ClientConnection)
  (m : JsMap ClientConnection) :
  quiet m -> quiet (Map_delete k (Map_set k v m)).
Proof.
  intros Hq k' c G. destruct (String.eqb_spec k k') as [<- | Hne].
  - rewrite Map_get_delete_eq in G. discriminate.
  - rewrite Map_get_delete_ne, Map_get_set_ne in G by assumption. eauto.
Qed.

(** With the room and the member's row in the store, a turn of the member
    loop does not throw, and it leaves no entry at the maximum. *)
Lemma check_member_quiet (room : Room.t) (member : RoomMember.t) (s : State) :
  quiet (clients s) ->
  find_room (Room.id room) (db s) <> None ->
  find_member (Room.id room) (RoomMember.userId member) (db s) <> None ->
  match check_member room member s with
  | Done _ s' => quiet (clients s')
  | Raised _ => False
  end.
Proof.
  intros Hq Hroom Hmem. rewrite check_member_eq. cbv zeta.
  destruct (find_room _ _) as [r0 |]; [| contradiction].
  destruct (find_member _ _ _) as [m0 |]; [| contradiction].
  destruct (Map_get _ (clients s)) as [c |] eqn:G.
  - destruct (Nat.leb_spec MAX_FAILED_HEARTBEATS (S (failedHeartbeats c))).
    + destruct (_ =? _); simpl; now apply quiet_delete_set.
    + simpl. now apply quiet_set.
  - destruct (_ =? _); simpl; assumption.
Qed.

Lemma vanished_loop_quiet (room : Room.t) (l : list RoomMember.t) (s : State) :
  quiet (clients s) ->
  quiet (clients (fold_left (fun st m => vanished_told room m st) l s)).
Proof.
  revert s. induction l as [| m l IH]; intros s Hq; simpl; [assumption |].
  apply IH. unfold vanished_told.
  destruct (Map_get _ (clients s)); simpl; [now apply quiet_delete | assumption].
Qed.

Lemma check_room_quiet (room : Room.t) (s : State) :
  Db_wf (db s) ->
  quiet (clients s) ->
  match check_room room s with
  | Done _ s' => quiet (clients s')
  | Raised _ => False
  end.
Proof.
  intros Hwf Hq. rewrite check_room_eq. cbv zeta.
  destruct (find_room (Room.id room) (db s)) as [r0 |] eqn:F;
    [| now apply vanished_loop_quiet].
  pose proof (for_of_rule
    (fun rest st => quiet (clients st) /\ members_pending room rest st)
    (fun st => quiet (clients st)) (check_member room)) as Rule.
  specialize (Rule ltac:(
    intros x rest st (Hq' & Hp);
    pose proof (check_member_quiet room x st Hq' (proj1 Hp)
                  (proj2 (proj2 Hp) x (or_introl eq_refl))) as H;
    destruct (check_member room x st) as [[|] st' | st'] eqn:E; try exact H;
    split; [exact H | eapply members_pending_step; eassumption])).
  specialize (Rule (members_of (Room.id room) (db s)) s).
  assert (Hstart : members_pending room (members_of (Room.id room) (db s)) s).
  { apply members_pending_start; [assumption | congruence]. }
  specialize (Rule (conj Hq Hstart)).
  destruct (for_of _ (check_member room) s) as [[|] s1 | s1]; try exact Rule.
  destruct Rule as (Hq1 & Hroom1 & _).
  destruct (_ =? 0)%nat; [| exact Hq1].
  destruct (find_room _ (db s1)); [exact Hq1 | contradiction].
Qed.

(** In a store that respects its unique indexes a cycle runs to its end
    without an exception, and if no entry was at the maximum before, none
    is after. *)
Lemma sweep_quiet (s : State) :
  Db_wf (db s) ->
  quiet (clients s) ->
  exists c s', for_of (active_rooms (db s)) check_room s = Done c s' /\
               sweep s = s' /\ quiet (clients s') /\ Db_wf (db s').
Proof.
  intros Hwf Hq. unfold sweep. rewrite heartbeatCheck_eq.
  pose proof (for_of_rule
    (fun (_ : list Room.t) st => quiet (clients st) /\ Db_wf (db st))
    (fun st => quiet (clients st) /\ Db_wf (db st))
    check_room) as Rule.
  assert (Hstep : forall x (rest : list Room.t) st,
            quiet (clients st) /\ Db_wf (db st) ->
            match check_room x st with
            | Done Normal st' => quiet (clients st') /\ Db_wf (db st')
            | Done Return st' => quiet (clients st') /\ Db_wf (db st')
            | Raised _ => False
            end).
  { intros x rest st (Hq' & Hwf').
    pose proof (check_room_quiet x st Hwf' Hq') as H.
    pose proof (check_room_sweep_step x st) as (_ & _ & Hd & _).
    destruct (check_room x st) as [[|] st' | st']; simpl in Hd; try exact H;
      (split; [exact H | eapply Db_wf_shrunk; eassumption]). }
  specialize (Rule Hstep (active_rooms (db s)) s (conj Hq Hwf)).
  destruct (for_of _ check_room s) as [[|] s' | s']; [| | contradiction];
    destruct Rule as (Hq' & Hwf'); eexists _, s'; simpl; auto.
Qed.

Lemma on_message_quiet (sess : Session) (msg : Inbound) (s : State) :
  (0 < MAX_FAILED_HEARTBEATS)%nat ->
  quiet (clients s) -> quiet (clients (snd (on_message sess msg s))).
Proof.
  intros Hmax Hq.
  destruct (on_message_cases sess msg s)
    as [-> | (data & r & u & _ & [(_ & ->) | (_ & _ & c & _ & ->)])];
    [assumption | |]; now apply quiet_set.
Qed.

Lemma on_close_quiet (sess : Session) (s : State) :
  quiet (clients s) -> quiet (clients (on_close sess s)).
Proof.
  intros Hq. destruct (on_close_registry sess s) as [[-> | (k & ->)] _];
    [assumption | now apply quiet_delete].
Qed.


(** ** Callbacks that wait *)

Lemma in_every_run_mono {A} (E : State -> State -> Prop)
  (Q Q' : Outcome A -> Prop) (t : Task A) :
  (forall o, Q o -> Q' o) -> in_every_run E Q t -> in_every_run E Q' t.
Proof.
  intros HQ. induction t as [o | s resume IH]; simpl; [apply HQ |].
  intros H s' Hs. apply IH, H, Hs.
Qed.

Lemma in_every_run_env {A} (E E' : State -> State -> Prop)
  (Q : Outcome A -> Prop) (t : Task A) :
  (forall s s', E' s s' -> E s s') -> in_every_run E Q t -> in_every_run E' Q t.
Proof.
  intros HE. induction t as [o | s resume IH]; simpl; [auto |].
  intros H s' Hs. apply IH, H, HE, Hs.
Qed.

Lemma in_every_run_then {A B} (E : State -> State -> Prop)
  (Q : Outcome B -> Prop) (t : Task A) (k : A -> Async B) :
  in_every_run E
    (fun o => match o with
              | Done a s => in_every_run E Q (k a s)
              | Raised s => Q (Raised s)
              end) t ->
  in_every_run E Q (then_ t k).
Proof.
  induction t as [[a s | s] | s resume IH]; simpl; auto.
Qed.

Lemma in_every_run_caught {A} (E : State -> State -> Prop)
  (Q : Outcome A -> Prop) (t : Task A) (h : Async A) :
  in_every_run E
    (fun o => match o with
              | Done a s => Q (Done a s)
              | Raised s => in_every_run E Q (h s)
              end) t ->
  in_every_run E Q (caught t h).
Proof.
  induction t as [[a s | s] | s resume IH]; simpl; auto.
Qed.

(** The rule of the loop: an invariant of the turns, indexed by the
    elements still to come. *)
Lemma in_every_run_for_of {A} (E : State -> State -> Prop)
  (Inv : list A -> State -> Prop) (Q : State -> Prop)
  (body : A -> Async Completion) :
  (forall x rest s, Inv (x :: rest) s ->
     in_every_run E
       (fun o => match o with
                 | Done Normal s' => Inv rest s'
                 | Done Return s' => Q s'
                 | Raised _ => False
                 end) (body x s)) ->
  forall l s, Inv l s ->
    in_every_run E
      (fun o => match o with
                | Done Normal s' => Inv [] s'
                | Done Return s' => Q s'
                | Raised _ => False
                end) (for_of_async l body s).
Proof.
  intros Hbody. induction l as [| x l IH]; intros s Hinv; [exact Hinv |].
  simpl. unfold abind. apply in_every_run_then.
  eapply in_every_run_mono; [| apply Hbody, Hinv].
  intros [[|] s' | s'] H; simpl; auto.
Qed.

(** A run under a schedule is one of the runs. *)
Lemma run_with_sound {A} (E : State -> State -> Prop) (Q : Outcome A -> Prop)
  (env : list Others) (t : Task A) :
  (forall s, E s s) ->
  Forall (fun e => forall s, E s (e s)) env ->
  in_every_run E Q t -> Q (run_with env t).
Proof.
  intros Hrefl. revert env.
  induction t as [o | s resume IH]; intros env Henv H; simpl; [exact H |].
  destruct env as [| e env'].
  - apply IH; [constructor | apply H, Hrefl].
  - inversion Henv as [| ? ? He Hrest]; subst. apply IH; [exact Hrest |].
    apply H, He.
Qed.

(** With nothing else happening a callback that waits is the sequential
    one. *)
Lemma run_alone_then {A B} (t : Task A) (k : A -> Async B) :
  run_with [] (then_ t k) =
  match run_with [] t with
  | Done a s => run_with [] (k a s)
  | Raised s => Raised s
  end.
Proof.
  induction t as [[a s | s] | s resume IH]; simpl; auto.
Qed.

Lemma run_alone_await {A} (c : M A) (s : State) : run_with [] (await c s) = c s.
Proof. simpl. now destruct (c s). Qed.

Lemma run_alone_caught {A} (t : Task A) (h : Async A) :
  run_with [] (caught t h) =
  match run_with [] t with
  | Done a s => Done a s
  | Raised s => run_with [] (h s)
  end.
Proof.
  induction t as [[a s | s] | s resume IH]; simpl; auto.
Qed.

Lemma run_alone_for_of {A} (body : A -> Async Completion) (body' : A -> M Completion) :
  (forall x s, run_with [] (body x s) = body' x s) ->
  forall l s, run_with [] (for_of_async l body s) = for_of l body' s.
Proof.
  intros Hbody. induction l as [| x l IH]; intros s; [reflexivity |].
  simpl. unfold abind, bind. rewrite run_alone_then, Hbody.
  destruct (body' x s) as [[|] s' | s']; auto.
Qed.

Lemma run_alone_sync_then {A B} (c : M A) (k : A -> Async B) (s : State) :
  run_with [] (then_ (sync c s) k) =
  match c s with
  | Done a s' => run_with [] (k a s')
  | Raised s' => Raised s'
  end.
Proof. unfold sync. simpl. now destruct (c s). Qed.

Lemma run_alone_await_then {A B} (c : M A) (k : A -> Async B) (s : State) :
  run_with [] (then_ (await c s) k) =
  match c s with
  | Done a s' => run_with [] (k a s')
  | Raised s' => Raised s'
  end.
Proof. rewrite run_alone_then, run_alone_await. reflexivity. Qed.

Lemma probe_or_absent_alone (room : Room.t) (member : RoomMember.t) (s : State) :
  run_with [] (probe_or_absent_async room member s) = probe_or_absent room member s.
Proof.
  unfold probe_or_absent_async, probe_or_absent, abind, bind, clients_get.
  rewrite run_alone_sync_then.
  destruct (Map_get _ (clients s)) as [c |]; [reflexivity |].
  destruct (_ =? _).
  - rewrite run_alone_await_then.
    destruct (roomMember_findMany_not _ _ s) as [l s1 | s1]; [| reflexivity].
    rewrite run_alone_sync_then.
    destruct (for_of l _ s1) as [c s2 | s2]; [| reflexivity].
    rewrite run_alone_await_then.
    destruct (room_delete _ s2) as [[] s3 | s3]; reflexivity.
  - rewrite run_alone_await_then.
    destruct (roomMember_findUnique _ _ s) as [[m |] s1 | s1]; try reflexivity.
    rewrite run_alone_await_then.
    destruct (roomMember_delete _ _ s1) as [[] s2 | s2]; reflexivity.
Qed.

Lemma threshold_check_alone (room : Room.t) (member : RoomMember.t) (s : State) :
  run_with [] (threshold_check_async room member s) = threshold_check room member s.
Proof.
  unfold threshold_check_async, threshold_check, abind, bind, clients_get.
  rewrite run_alone_sync_then.
  destruct (Map_get _ (clients s)) as [c |]; [| reflexivity].
  destruct (_ <=? _)%nat; [| reflexivity].
  destruct (_ =? _).
  - rewrite run_alone_await_then.
    destruct (roomMember_findMany_not _ _ s) as [l s1 | s1]; [| reflexivity].
    rewrite run_alone_sync_then.
    destruct (for_of l _ s1) as [c0 s2 | s2]; [| reflexivity].
    rewrite run_alone_await_then.
    destruct (room_delete _ s2) as [[] s3 | s3]; [| reflexivity].
    rewrite run_alone_sync_then.
    destruct (clients_delete _ s3) as [[] s4 | s4]; reflexivity.
  - rewrite run_alone_await_then.
    destruct (roomMember_delete _ _ s) as [[] s1 | s1]; [| reflexivity].
    rewrite run_alone_sync_then.
    destruct (clients_delete _ s1) as [[] s2 | s2]; reflexivity.
Qed.

Lemma check_member_alone (room : Room.t) (member : RoomMember.t) (s : State) :
  run_with [] (check_member_async room member s) = check_member room member s.
Proof.
  unfold check_member_async, check_member, abind, bind.
  rewrite run_alone_then, probe_or_absent_alone.
  destruct (probe_or_absent room member s) as [[|] s1 | s1]; try reflexivity.
  apply threshold_check_alone.
Qed.

Lemma check_room_alone (room : Room.t) (s : State) :
  run_with [] (check_room_async room s) = check_room room s.
Proof.
  unfold check_room_async, check_room, abind, bind.
  rewrite run_alone_await_then.
  destruct (roomMember_findMany _ s) as [members s1 | s1]; [| reflexivity].
  rewrite run_alone_await_then.
  destruct (room_findUnique _ s1) as [[r0 |] s2 | s2]; [| | reflexivity].
  - rewrite run_alone_then, (run_alone_for_of _ _ (check_member_alone room)).
    destruct (for_of members _ s2) as [[|] s3 | s3]; try reflexivity.
    rewrite run_alone_await_then.
    destruct (roomMember_count _ s3) as [n s4 | s4]; [| reflexivity].
    destruct (n =? 0)%nat; [| reflexivity].
    rewrite run_alone_await_then.
    destruct (room_delete _ s4) as [[] s5 | s5]; reflexivity.
  - rewrite run_alone_sync_then.
    destruct (for_of members _ s2) as [c s3 | s3]; reflexivity.
Qed.

(** The sequential sweep is the run of the waiting one in which no other
    handler does anything. *)
Lemma heartbeatCheck_alone (s : State) :
  run_with [] (heartbeatCheck_async s) = heartbeatCheck s.
Proof.
  unfold heartbeatCheck_async, heartbeatCheck, try_catch_async, try_catch.
  rewrite run_alone_caught. unfold sweep_rooms_async, abind, bind.
  rewrite run_alone_await_then.
  destruct (room_findMany_active s) as [rooms s1 | s1]; [| reflexivity].
  rewrite run_alone_then, (run_alone_for_of _ _ check_room_alone).
  destruct (for_of rooms check_room s1) as [c s2 | s2]; reflexivity.
Qed.

(** ** What frames and closes can do during a wait *)

Lemma counts_not_raised_refl (m : JsMap ClientConnection) : counts_not_raised m m.
Proof. intros k c G. right. exists c. split; [exact G | lia]. Qed.

Lemma counts_not_raised_trans (m1 m2 m3 : JsMap ClientConnection) :
  counts_not_raised m1 m2 -> counts_not_raised m2 m3 -> counts_not_raised m1 m3.
Proof.
  intros H12 H23 k c3 G3.
  destruct (H23 k c3 G3) as [H0 | (c2 & G2 & Hle)]; [now left |].
  destruct (H12 k c2 G2) as [H0 | (c1 & G1 & Hle')].
  - left. lia.
  - right. exists c1. split; [exact G1 | lia].
Qed.

Lemma counts_not_raised_set (k : string) (v : ClientConnection)
  (m : JsMap ClientConnection) :
  failedHeartbeats v = 0 -> counts_not_raised m (Map_set k v m).
Proof.
  intros Hv k' c' G. destruct (String.eqb_spec k k') as [<- | Hne].
  - rewrite Map_get_set_eq in G. injection G as <-. now left.
  - rewrite Map_get_set_ne in G by assumption.
    right. exists c'. split; [exact G | lia].
Qed.

Lemma counts_not_raised_delete (k : string) (m : JsMap ClientConnection) :
  counts_not_raised m (Map_delete k m).
Proof.
  intros k' c' G. destruct (String.eqb_spec k k') as [<- | Hne].
  - rewrite Map_get_delete_eq in G. discriminate.
  - rewrite Map_get_delete_ne in G by assumption.
    right. exists c'. split; [exact G | lia].
Qed.

Lemma undisturbed_refl (s : State) : undisturbed s s.
Proof. split; [reflexivity | apply counts_not_raised_refl]. Qed.

Lemma undisturbed_trans (s1 s2 s3 : State) :
  undisturbed s1 s2 -> undisturbed s2 s3 -> undisturbed s1 s3.
Proof.
  unfold undisturbed, store_kept. intros (Hd & Hc) (Hd' & Hc'). split.
  - congruence.
  - eapply counts_not_raised_trans; eassumption.
Qed.

Lemma on_message_undisturbed (sess : Session) (msg : Inbound) (s : State) :
  undisturbed s (snd (on_message sess msg s)).
Proof.
  split; [apply (on_message_registry sess msg s) |].
  destruct (on_message_cases sess msg s)
    as [-> | (data & r & u & _ & [(_ & ->) | (_ & _ & c & _ & ->)])].
  - apply counts_not_raised_refl.
  - now apply counts_not_raised_set.
  - now apply counts_not_raised_set.
Qed.

Lemma on_close_undisturbed (sess : Session) (s : State) :
  undisturbed s (on_close sess s).
Proof.
  destruct (on_close_registry sess s) as [[E | (k & E)] Hd];
    (split; [exact Hd |]); rewrite E.
  - apply counts_not_raised_refl.
  - apply counts_not_raised_delete.
Qed.

(** Frames, closes and breaking sockets leave the store alone and raise
    no failure count. *)
Lemma ws_activity_undisturbed (s s' : State) : ws_activity s s' -> undisturbed s s'.
Proof.
  induction 1 as [s | s s' sess msg _ IH | s s' sess _ IH | s s' h _ IH].
  - apply undisturbed_refl.
  - eapply undisturbed_trans; [exact IH | apply on_message_undisturbed].
  - eapply undisturbed_trans; [exact IH | apply on_close_undisturbed].
  - eapply undisturbed_trans; [exact IH |].
    split; [reflexivity | apply counts_not_raised_refl].
Qed.

Lemma quiet_undisturbed (m m' : JsMap ClientConnection) :
  (0 < MAX_FAILED_HEARTBEATS)%nat ->
  counts_not_raised m m' -> quiet m -> quiet m'.
Proof.
  intros Hmax Hc Hq k c' G.
  destruct (Hc k c' G) as [H0 | (c & G0 & Hle)]; [lia |].
  specialize (Hq k c G0). lia.
Qed.

Lemma quiet_but_undisturbed (k : string) (m m' : JsMap ClientConnection) :
  (0 < MAX_FAILED_HEARTBEATS)%nat ->
  counts_not_raised m m' -> quiet_but k m -> quiet_but k m'.
Proof.
  intros Hmax Hc Hq k' c' Hne G.
  destruct (Hc k' c' G) as [H0 | (c & G0 & Hle)]; [lia |].
  specialize (Hq k' c Hne G0). lia.
Qed.

Lemma quiet_but_set (k : string) (v : ClientConnection) (m : JsMap ClientConnection) :
  quiet m -> quiet_but k (Map_set k v m).
Proof.
  intros Hq k' c Hne G. rewrite Map_get_set_ne in G by congruence. eauto.
Qed.

Lemma quiet_but_delete (k : string) (m : JsMap ClientConnection) :
  quiet_but k m -> quiet (Map_delete k m).
Proof.
  intros Hq k' c G. destruct (String.eqb_spec k k') as [<- | Hne].
  - rewrite Map_get_delete_eq in G. discriminate.
  - rewrite Map_get_delete_ne in G by assumption. apply (Hq k' c); congruence.
Qed.

Lemma absent_stays_fresh (k : string) (m m' : JsMap ClientConnection)
  (c' : ClientConnection) :
  counts_not_raised m m' -> Map_get k m = None -> Map_get k m' = Some c' ->
  failedHeartbeats c' = 0.
Proof.
  intros Hc G G'. destruct (Hc k c' G') as [H0 | (c & G0 & _)]; congruence.
Qed.

Lemma in_every_run_await_then {A B} (E : State -> State -> Prop)
  (Q : Outcome B -> Prop) (c : M A) (k : A -> Async B) (s : State) :
  (forall s1, E s s1 -> forall s2, E (final (c s1)) s2 ->
     match c s1 with
     | Done a _ => in_every_run E Q (k a s2)
     | Raised _ => Q (Raised s2)
     end) ->
  in_every_run E Q (then_ (await c s) k).
Proof.
  intros H. simpl. intros s1 H1 s2 H2. specialize (H s1 H1 s2 H2).
  destruct (c s1); exact H.
Qed.

Lemma in_every_run_sync_then {A B} (E : State -> State -> Prop)
  (Q : Outcome B -> Prop) (c : M A) (k : A -> Async B) (s : State) :
  match c s with
  | Done a s' => in_every_run E Q (k a s')
  | Raised s' => Q (Raised s')
  end ->
  in_every_run E Q (then_ (sync c s) k).
Proof. unfold sync. simpl. destruct (c s); auto. Qed.

(** ** The turn of a member, with its waits *)

Lemma check_member_async_live (room : Room.t) (member : RoomMember.t)
  (c : ClientConnection) (s : State) :
  Map_get (clientKey (Room.roomId room) (RoomMember.userId member)) (clients s)
    = Some c ->
  check_member_async room member s =
  threshold_check_async room member (probed room member c s).
Proof.
  intros G. pose proof (probe_or_absent_live room member c s G) as Hp.
  unfold probe_or_absent, bind, clients_get in Hp. rewrite G in Hp.
  unfold check_member_async, probe_or_absent_async, abind, sync, clients_get.
  simpl. rewrite G. simpl. unfold bind. rewrite Hp. reflexivity.
Qed.

(** Below the maximum, and with no entry, the threshold check holds no
    [await]. *)
Lemma threshold_check_async_below (room : Room.t) (member : RoomMember.t) (s : State) :
  (forall c, Map_get (clientKey (Room.roomId room) (RoomMember.userId member))
               (clients s) = Some c ->
             (failedHeartbeats c < MAX_FAILED_HEARTBEATS)%nat) ->
  threshold_check_async room member s = Settled (Done Normal s).
Proof.
  intros H. unfold threshold_check_async, abind, sync, clients_get. simpl.
  destruct (Map_get _ (clients s)) as [c |]; [| reflexivity].
  specialize (H c eq_refl). apply Nat.leb_gt in H. now rewrite H.
Qed.

(** At the maximum the member who is not the owner is evicted whatever
    happens to the registry during the waits, as long as the store is left
    to the sweep. *)
Lemma threshold_check_async_evicts (room : Room.t) (member : RoomMember.t)
  (c : ClientConnection) (s : State) :
  let k := clientKey (Room.roomId room) (RoomMember.userId member) in
  let uid := RoomMember.userId member in
  Map_get k (clients s) = Some c ->
  (MAX_FAILED_HEARTBEATS <= failedHeartbeats c)%nat ->
  uid <> Room.ownerId room ->
  find_member (Room.id room) uid (db s) <> None ->
  in_every_run store_kept
    (fun o => exists s3,
       o = Done Normal s3 /\
       db s3 = delete_member_row (Room.id room) uid (db s) /\
       Map_get k (clients s3) = None)
    (threshold_check_async room member s).
Proof.
  intros k uid G Hmax Hne Hrow.
  unfold threshold_check_async, abind. fold k uid.
  apply in_every_run_sync_then. unfold clients_get. rewrite G.
  apply Nat.leb_le in Hmax. rewrite Hmax.
  apply String.eqb_neq in Hne. rewrite Hne.
  apply in_every_run_await_then. intros s1 H1 s2 H2.
  unfold roomMember_delete in *. unfold store_kept in H1.
  rewrite H1 in *.
  destruct (find_member (Room.id room) uid (db s)) as [row |] eqn:F;
    [| now exfalso].
  apply in_every_run_sync_then. simpl.
  eexists. split; [reflexivity |]. simpl.
  unfold store_kept in H2. simpl in H2.
  split; [now rewrite H2, H1 | apply Map_get_delete_eq].
Qed.

(** At the maximum the owner's room is dissolved, in the same way. *)
Lemma threshold_check_async_dissolves (room : Room.t) (member : RoomMember.t)
  (c : ClientConnection) (s : State) :
  let k := clientKey (Room.roomId room) (RoomMember.userId member) in
  let uid := RoomMember.userId member in
  Map_get k (clients s) = Some c ->
  (MAX_FAILED_HEARTBEATS <= failedHeartbeats c)%nat ->
  uid = Room.ownerId room ->
  find_room (Room.id room) (db s) <> None ->
  in_every_run store_kept
    (fun o => exists s3,
       o = Done Return s3 /\
       db s3 = delete_room_rows (Room.id room) (db s) /\
       Map_get k (clients s3) = None)
    (threshold_check_async room member s).
Proof.
  intros k uid G Hmax Heq Hroom.
  unfold threshold_check_async, abind. fold k uid.
  apply in_every_run_sync_then. unfold clients_get. rewrite G.
  apply Nat.leb_le in Hmax. rewrite Hmax.
  rewrite Heq, String.eqb_refl.
  apply in_every_run_await_then. intros s1 H1 s2 H2.
  unfold roomMember_findMany_not in *. simpl in H2.
  apply in_every_run_sync_then. rewrite notify_other_loop.
  apply in_every_run_await_then. intros s3 H3 s4 H4.
  unfold store_kept in *. unfold room_delete in *.
  assert (Hd3 : db s3 = db s) by (rewrite H3; simpl; congruence).
  rewrite Hd3 in *.
  destruct (find_room (Room.id room) (db s)) as [r0 |] eqn:F; [| now exfalso].
  apply in_every_run_sync_then. simpl.
  eexists. split; [reflexivity |]. simpl. simpl in H4.
  split; [now rewrite H4, Hd3 | apply Map_get_delete_eq].
Qed.

Lemma members_pending_rest (room : Room.t) (x : RoomMember.t)
  (rest : list RoomMember.t) (s s' : State) :
  members_pending room (x :: rest) s ->
  db s' = db s \/
  db s' = delete_member_row (Room.id room) (RoomMember.userId x) (db s) ->
  members_pending room rest s'.
Proof.
  intros (Hroom & Hnd & Hfind) Hdb.
  simpl in Hnd. inversion Hnd as [| ? ? Hnotin Hnd']; subst.
  split; [| split].
  - destruct Hdb as [-> | ->]; assumption.
  - exact Hnd'.
  - intros y Hy. specialize (Hfind y (or_intror Hy)).
    destruct Hdb as [-> | ->]; [assumption |].
    unfold find_member in *. simpl.
    rewrite find_member_after_other; [assumption |].
    intros E. apply Hnotin. rewrite <- E. now apply in_map.
Qed.

(** A turn of the member loop, frames and closes arriving during its
    waits: no store call is rejected, the members still to come keep
    their rows, and if no entry was at the maximum before, none is
    after. *)
Lemma check_member_async_safe (P : Prop) (room : Room.t) (x : RoomMember.t)
  (rest : list RoomMember.t) (s : State) :
  (0 < MAX_FAILED_HEARTBEATS)%nat ->
  members_pending room (x :: rest) s ->
  (P -> quiet (clients s)) ->
  in_every_run undisturbed
    (fun o => match o with
              | Done Normal s' =>
                  members_pending room rest s' /\ db_shrunk (db s) (db s') /\
                  (P -> quiet (clients s'))
              | Done Return s' =>
                  db_shrunk (db s) (db s') /\ (P -> quiet (clients s'))
              | Raised _ => False
              end)
    (check_member_async room x s).
Proof.
  intros Hmax Hpend Hq.
  pose proof Hpend as (Hroom & _ & Hfind).
  specialize (Hfind x (or_introl eq_refl)).
  set (uid := RoomMember.userId x) in *.
  set (k := clientKey (Room.roomId room) uid).
  destruct (Map_get k (clients s)) as [c |] eqn:G.
  - rewrite (check_member_async_live room x c s G).
    set (s1 := probed room x c s).
    assert (G1 : Map_get k (clients s1) = Some (charge c))
      by (unfold s1, probed; simpl; apply Map_get_set_eq).
    assert (Hd1 : db s1 = db s) by reflexivity.
    assert (Hq1 : P -> quiet_but k (clients s1))
      by (intros HP; unfold s1, probed; simpl; apply quiet_but_set; auto).
    destruct (Nat.leb_spec MAX_FAILED_HEARTBEATS (S (failedHeartbeats c)))
      as [Hle | Hlt].
    + unfold threshold_check_async, abind. fold uid. fold k.
      apply in_every_run_sync_then. unfold clients_get. rewrite G1.
      change (failedHeartbeats (charge c)) with (S (failedHeartbeats c)).
      apply Nat.leb_le in Hle. rewrite Hle.
      destruct (uid =? Room.ownerId room) eqn:Eo.
      * apply in_every_run_await_then. intros s2 (H2 & C2) s3 (H3 & C3).
        unfold roomMember_findMany_not in *. simpl in H3, C3.
        apply in_every_run_sync_then. rewrite notify_other_loop.
        apply in_every_run_await_then. intros s4 (H4 & C4) s5 (H5 & C5).
        unfold store_kept in *. unfold room_delete in *.
        simpl in H4, C4.
        assert (Hd4 : db s4 = db s) by congruence.
        rewrite Hd4 in *.
        destruct (find_room (Room.id room) (db s)) as [r0 |] eqn:F;
          [| now exfalso].
        apply in_every_run_sync_then. simpl. simpl in H5, C5.
        split.
        -- rewrite H5, Hd4. apply db_shrunk_delete_room.
        -- intros HP. apply quiet_but_delete.
           eapply quiet_but_undisturbed; [exact Hmax | exact C5 |].
           eapply quiet_but_undisturbed; [exact Hmax | exact C4 |].
           eapply quiet_but_undisturbed; [exact Hmax | exact C3 |].
           eapply quiet_but_undisturbed; [exact Hmax | exact C2 |]. auto.
      * apply in_every_run_await_then. intros s2 (H2 & C2) s3 (H3 & C3).
        unfold store_kept in *. unfold roomMember_delete in *.
        rewrite H2, Hd1 in *.
        destruct (find_member (Room.id room) uid (db s)) as [row |] eqn:F;
          [| now exfalso].
        apply in_every_run_sync_then. simpl. simpl in H3, C3.
        split; [| split].
        -- apply (members_pending_rest room x rest s); [exact Hpend |].
           right. simpl. now rewrite H3, H2.
        -- rewrite H3, H2. apply db_shrunk_delete_member.
        -- intros HP. apply quiet_but_delete.
           eapply quiet_but_undisturbed; [exact Hmax | exact C3 |].
           eapply quiet_but_undisturbed; [exact Hmax | exact C2 |]. auto.
    + rewrite threshold_check_async_below.
      * simpl. split; [| split].
        -- apply (members_pending_rest room x rest s); auto.
        -- apply db_shrunk_refl.
        -- intros HP. unfold s1, probed. simpl.
           apply quiet_set; [auto |]. simpl. lia.
      * intros c' G'. fold uid in G'. fold k in G'. rewrite G1 in G'. injection G' as <-.
        simpl. lia.
  - unfold check_member_async, probe_or_absent_async, abind. fold uid. fold k.
    apply in_every_run_then. apply in_every_run_sync_then.
    unfold clients_get. rewrite G.
    destruct (uid =? Room.ownerId room) eqn:Eo.
    + apply in_every_run_await_then. intros s2 (H2 & C2) s3 (H3 & C3).
      unfold roomMember_findMany_not in *. simpl in H3, C3.
      apply in_every_run_sync_then. rewrite notify_other_loop.
      apply in_every_run_await_then. intros s4 (H4 & C4) s5 (H5 & C5).
      unfold store_kept in *. unfold room_delete in *.
      simpl in H4, C4.
      assert (Hd4 : db s4 = db s) by congruence.
      rewrite Hd4 in *.
      destruct (find_room (Room.id room) (db s)) as [r0 |] eqn:F;
        [| now exfalso].
      simpl. simpl in H5, C5.
      split.
      * rewrite H5, Hd4. apply db_shrunk_delete_room.
      * intros HP.
        eapply quiet_undisturbed; [exact Hmax | exact C5 |].
        eapply quiet_undisturbed; [exact Hmax | exact C4 |].
        eapply quiet_undisturbed; [exact Hmax | exact C3 |].
        eapply quiet_undisturbed; [exact Hmax | exact C2 |]. auto.
    + apply in_every_run_await_then. intros s2 (H2 & C2) s3 (H3 & C3).
      unfold store_kept in *. unfold roomMember_findUnique in *.
      simpl in H3, C3. rewrite H2.
      destruct (find_member (Room.id room) uid (db s)) as [row |] eqn:F;
        [| now exfalso].
      apply in_every_run_await_then. intros s4 (H4 & C4) s5 (H5 & C5).
      unfold store_kept in *. unfold roomMember_delete in *.
      assert (Hd4 : db s4 = db s) by congruence.
      rewrite Hd4, F in *. simpl. simpl in H5, C5.
      assert (C : counts_not_raised (clients s) (clients s5)).
      { eapply counts_not_raised_trans; [| exact C5].
        eapply counts_not_raised_trans; [| exact C4].
        eapply counts_not_raised_trans; [exact C2 | exact C3]. }
      rewrite threshold_check_async_below.
      * split; [| split].
        -- apply (members_pending_rest room x rest s); [exact Hpend |].
           right. now rewrite H5, Hd4.
        -- rewrite H5, Hd4. apply db_shrunk_delete_member.
        -- intros HP. eapply quiet_undisturbed; [exact Hmax | exact C | auto].
      * intros c' G'. fold uid in G'. fold k in G'.
        rewrite (absent_stays_fresh k _ _ c' C G G'). exact Hmax.
Qed.

Lemma vanished_fold_db (room : Room.t) (l : list RoomMember.t) (s : State) :
  db (fold_left (fun st m => vanished_told room m st) l s) = db s.
Proof.
  revert s. induction l as [| m l IH]; intros s; simpl; [reflexivity |].
  rewrite IH. unfold vanished_told. now destruct (Map_get _ (clients s)).
Qed.

(** A turn of the room loop, in the same way. *)
Lemma check_room_async_safe (P : Prop) (room : Room.t) (s : State) :
  (0 < MAX_FAILED_HEARTBEATS)%nat ->
  Db_wf (db s) ->
  (P -> quiet (clients s)) ->
  in_every_run undisturbed
    (fun o => match o with
              | Done _ s' => Db_wf (db s') /\ (P -> quiet (clients s'))
              | Raised _ => False
              end)
    (check_room_async room s).
Proof.
  intros Hmax Hwf Hq. unfold check_room_async, abind.
  apply in_every_run_await_then. intros s1 (H1 & C1) s2 (H2 & C2).
  unfold roomMember_findMany in *. simpl in H2, C2.
  apply in_every_run_await_then. intros s3 (H3 & C3) s4 (H4 & C4).
  unfold room_findUnique in *. simpl in H4, C4. unfold store_kept in *.
  assert (Hd4 : db s4 = db s) by congruence.
  assert (Hq4 : P -> quiet (clients s4)).
  { intros HP.
    eapply quiet_undisturbed; [exact Hmax | exact C4 |].
    eapply quiet_undisturbed; [exact Hmax | exact C3 |].
    eapply quiet_undisturbed; [exact Hmax | exact C2 |].
    eapply quiet_undisturbed; [exact Hmax | exact C1 |]. auto. }
  rewrite H3, H2, H1.
  destruct (find_room (Room.id room) (db s)) as [r0 |] eqn:F.
  - apply in_every_run_then.
    pose proof (in_every_run_for_of undisturbed
      (fun rest st => members_pending room rest st /\ Db_wf (db st) /\
                      (P -> quiet (clients st)))
      (fun st => Db_wf (db st) /\ (P -> quiet (clients st)))
      (check_member_async room)) as Rule.
    eapply in_every_run_mono; [| apply Rule].
    + intros [[|] st | st]; [| simpl; tauto | simpl; tauto].
      intros ((Hroom & _) & Hwf' & Hq').
      apply in_every_run_await_then. intros s5 (H5 & C5) s6 (H6 & C6).
      unfold roomMember_count in *. simpl in H6, C6. unfold store_kept in *.
      assert (Hq6 : P -> quiet (clients s6)).
      { intros HP.
        eapply quiet_undisturbed; [exact Hmax | exact C6 |].
        eapply quiet_undisturbed; [exact Hmax | exact C5 |]. auto. }
      destruct (_ =? 0)%nat.
      * apply in_every_run_await_then. intros s7 (H7 & C7) s8 (H8 & C8).
        unfold room_delete in *. unfold store_kept in *.
        assert (Hd7 : db s7 = db st) by congruence.
        rewrite Hd7 in *.
        destruct (find_room (Room.id room) (db st)) as [r1 |]; [| now exfalso].
        simpl. simpl in H8, C8. split.
        -- rewrite H8, Hd7. eapply Db_wf_shrunk; [| exact Hwf'].
           apply db_shrunk_delete_room.
        -- intros HP.
           eapply quiet_undisturbed; [exact Hmax | exact C8 |].
           eapply quiet_undisturbed; [exact Hmax | exact C7 |]. auto.
      * simpl. split; [congruence | exact Hq6].
    + intros x rest st (Hpend & Hwf' & Hq').
      eapply in_every_run_mono;
        [| apply (check_member_async_safe P room x rest st Hmax Hpend Hq')].
      intros [[|] st' | st']; [| | tauto].
      * intros (Hp' & Hsh & Hq''). split; [exact Hp' |].
        split; [eapply Db_wf_shrunk; eassumption | exact Hq''].
      * intros (Hsh & Hq''). split; [eapply Db_wf_shrunk; eassumption | exact Hq''].
    + split; [| split; [congruence | exact Hq4]].
      rewrite <- Hd4. apply members_pending_start; [congruence |].
      rewrite Hd4, F. discriminate.
  - apply in_every_run_sync_then. rewrite notify_vanished_loop. simpl.
    rewrite vanished_fold_db. split; [congruence |].
    intros HP. apply vanished_loop_quiet. auto.
Qed.

(** A whole cycle: with frames and closes arriving during its waits, the
    [try] block of the callback comes to its end. *)
Lemma sweep_rooms_async_safe (P : Prop) (s : State) :
  (0 < MAX_FAILED_HEARTBEATS)%nat ->
  Db_wf (db s) ->
  (P -> quiet (clients s)) ->
  in_every_run undisturbed
    (fun o => match o with
              | Done _ s' => Db_wf (db s') /\ (P -> quiet (clients s'))
              | Raised _ => False
              end)
    (sweep_rooms_async s).
Proof.
  intros Hmax Hwf Hq. unfold sweep_rooms_async, abind.
  apply in_every_run_await_then. intros s1 (H1 & C1) s2 (H2 & C2).
  unfold room_findMany_active in *. simpl in H2, C2. unfold store_kept in *.
  apply in_every_run_then.
  pose proof (in_every_run_for_of undisturbed
    (fun (_ : list Room.t) st => Db_wf (db st) /\ (P -> quiet (clients st)))
    (fun st => Db_wf (db st) /\ (P -> quiet (clients st)))
    check_room_async) as Rule.
  eapply in_every_run_mono; [| apply Rule].
  - intros [[|] st | st]; simpl; tauto.
  - intros x rest st (Hwf' & Hq').
    eapply in_every_run_mono; [| apply (check_room_async_safe P x st Hmax Hwf' Hq')].
    intros [[|] st' | st']; tauto.
  - split; [congruence |]. intros HP.
    eapply quiet_undisturbed; [exact Hmax | exact C2 |].
    eapply quiet_undisturbed; [exact Hmax | exact C1 |]. auto.
Qed.

(** C3, as amended.  A heartbeat frame on a socket joined under the key
    of an entry sets that entry's failure count to [0], whatever the count
    was (so for every count below the maximum).  When a cycle examines a
    member whose entry has count [n], the count becomes [n + 1] and, in
    that same turn of the loop: if [n + 1] is below the maximum nothing
    else happens, the turn does not even wait, the store is untouched and
    the entry stays; if [n + 1] has reached the maximum, a member who is
    not the owner loses the member row and the entry while the room stays,
    and for the owner the room is deleted, the entry removed and the cycle
    ends.  No frame and no close ever changes the store, so eviction and
    dissolution happen in sweep steps only.

    At the maximum the turn waits for the store before it removes the
    entry.  Whatever frames and closes are handled during those waits (a
    heartbeat among them sets the count back to [0]), the turn ends with
    the entry removed and the row or the room deleted, the row and the
    room being in the store when the turn begins.  And with a positive
    maximum no entry rests at the maximum: if none is there before a
    frame, a close or a cycle with frames and closes arriving during its
    waits, none is there after. *)
Theorem failure_counter_protocol
  (r u : string) (sess : Session) (data : Data)
  (ca : ClientConnection) (sa : State)
  (s : State) (room : Room.t) (member : RoomMember.t)
  (c : ClientConnection) (s2 : State) :
  let k := clientKey (Room.roomId room) (RoomMember.userId member) in
  let uid := RoomMember.userId member in
  joined_as r u sess ->
  type_is "heartbeat" data = true ->
  Map_get (clientKey r u) (clients sa) = Some ca ->
  Db_wf (db s) ->
  examines s room member s2 ->
  Map_get k (clients s2) = Some c ->
  Map_get (clientKey r u) (clients (snd (on_message sess (Frame data) sa)))
    = Some (mkClient (ws ca) (userId ca) (roomId ca) 0 (clock (ticks sa))) /\
  ((S (failedHeartbeats c) < MAX_FAILED_HEARTBEATS)%nat ->
     exists s3, check_member room member s2 = Done Normal s3 /\
                check_member_async room member s2 = Settled (Done Normal s3) /\
                db s3 = db s2 /\ Map_get k (clients s3) = Some (charge c)) /\
  ((MAX_FAILED_HEARTBEATS <= S (failedHeartbeats c))%nat ->
     uid <> Room.ownerId room ->
     exists s3, check_member room member s2 = Done Normal s3 /\
                find_member (Room.id room) uid (db s3) = None /\
                rooms (db s3) = rooms (db s2) /\
                Map_get k (clients s3) = None) /\
  ((MAX_FAILED_HEARTBEATS <= S (failedHeartbeats c))%nat ->
     uid = Room.ownerId room ->
     exists s3, check_member room member s2 = Done Return s3 /\
                heartbeatCheck s = Done tt s3 /\
                find_room (Room.id room) (db s3) = None /\
                Map_get k (clients s3) = None) /\
  (forall st c0,
     Map_get k (clients st) = Some c0 ->
     (MAX_FAILED_HEARTBEATS <= S (failedHeartbeats c0))%nat ->
     (uid <> Room.ownerId room ->
      find_member (Room.id room) uid (db st) <> None ->
      in_every_run ws_activity
        (fun o => exists s3,
           o = Done Normal s3 /\
           find_member (Room.id room) uid (db s3) = None /\
           rooms (db s3) = rooms (db st) /\
           Map_get k (clients s3) = None)
        (check_member_async room member st)) /\
     (uid = Room.ownerId room ->
      find_room (Room.id room) (db st) <> None ->
      in_every_run ws_activity
        (fun o => exists s3,
           o = Done Return s3 /\
           find_room (Room.id room) (db s3) = None /\
           members_of (Room.id room) (db s3) = [] /\
           Map_get k (clients s3) = None)
        (check_member_async room member st))) /\
  (forall sess' msg s', db (snd (on_message sess' msg s')) = db s') /\
  (forall sess' s', db (on_close sess' s') = db s') /\
  ((0 < MAX_FAILED_HEARTBEATS)%nat ->
   forall s', quiet (clients s') ->
     (forall sess' msg, quiet (clients (snd (on_message sess' msg s')))) /\
     (forall sess', quiet (clients (on_close sess' s'))) /\
     (Db_wf (db s') ->
      quiet (clients (sweep s')) /\
      in_every_run ws_activity (fun o => quiet (clients (final o)))
        (heartbeatCheck_async s'))).
Proof.
  intros k uid Hj Ht Ga Hwf Hex G.
  destruct (examines_inv s room member s2 Hwf Hex) as (_ & Hroom & Hmem & _).
  pose proof (check_member_eq room member s2) as Hrun. cbv zeta in Hrun.
  fold k uid in Hrun. rewrite G in Hrun.
  destruct (find_room (Room.id room) (db s2)) as [r0 |] eqn:F1;
    [| exfalso; now apply Hroom].
  destruct (find_member (Room.id room) uid (db s2)) as [m0 |] eqn:F2;
    [| exfalso; apply Hmem; exact F2].
  split.
  { destruct (on_message_heartbeat r u sess data ca sa Hj Ht Ga) as (_ & -> & _).
    apply Map_get_set_eq. }
  split.
  { intros Hlt. pose proof Hlt as Hlt'. apply Nat.leb_gt in Hlt. rewrite Hlt in Hrun.
    eexists. split; [exact Hrun |]. split; [| split].
    - rewrite (check_member_async_live room member c s2 G).
      apply threshold_check_async_below. intros c' G'.
      unfold probed in G'. simpl in G'. fold uid in G'. fold k in G'.
      rewrite Map_get_set_eq in G'. injection G' as <-. exact Hlt'.
    - reflexivity.
    - unfold probed. simpl. apply Map_get_set_eq. }
  split.
  { intros Hle Hne. apply Nat.leb_le in Hle. rewrite Hle in Hrun.
    apply String.eqb_neq in Hne. rewrite Hne in Hrun.
    eexists. split; [exact Hrun |]. split; [| split].
    - apply find_member_deleted.
    - reflexivity.
    - unfold evicted. simpl. apply Map_get_delete_eq. }
  split.
  { intros Hle Heq. apply Nat.leb_le in Hle. rewrite Hle in Hrun.
    rewrite Heq, String.eqb_refl in Hrun.
    eexists. split; [exact Hrun |].
    split; [eapply examines_Return; eassumption |]. split.
    - apply find_room_deleted.
    - unfold dissolved. simpl. apply Map_get_delete_eq. }
  split.
  { intros st c0 G0 Hle.
    assert (G1 : Map_get k (clients (probed room member c0 st)) = Some (charge c0))
      by (unfold probed; simpl; apply Map_get_set_eq).
    rewrite (check_member_async_live room member c0 st G0). split.
    - intros Hne Hrow.
      eapply in_every_run_env;
        [intros a b Hab; exact (proj1 (ws_activity_undisturbed a b Hab)) |].
      eapply in_every_run_mono;
        [| apply (threshold_check_async_evicts room member (charge c0)
                    (probed room member c0 st) G1 Hle Hne Hrow)].
      intros o (s3 & -> & Hd & Hg). exists s3. split; [reflexivity |].
      rewrite Hd. split; [apply find_member_deleted |]. split; [reflexivity | exact Hg].
    - intros Heq Hfound.
      eapply in_every_run_env;
        [intros a b Hab; exact (proj1 (ws_activity_undisturbed a b Hab)) |].
      eapply in_every_run_mono;
        [| apply (threshold_check_async_dissolves room member (charge c0)
                    (probed room member c0 st) G1 Hle Heq Hfound)].
      intros o (s3 & -> & Hd & Hg). exists s3. split; [reflexivity |].
      rewrite Hd. split; [apply find_room_deleted |].
      split; [apply members_of_deleted | exact Hg]. }
  split; [intros sess' msg s'; apply (on_message_registry sess' msg s') |].
  split; [intros sess' s'; apply (on_close_registry sess' s') |].
  intros Hmax s' Hq. split; [| split].
  - intros sess' msg. now apply on_message_quiet.
  - intros sess'. now apply on_close_quiet.
  - intros Hwf'. split.
    + destruct (sweep_quiet s' Hwf' Hq) as (c0 & s3 & _ & -> & Hq3 & _).
      exact Hq3.
    + unfold heartbeatCheck_async, try_catch_async.
      apply in_every_run_caught.
      eapply in_every_run_env; [exact ws_activity_undisturbed |].
      eapply in_every_run_mono;
        [| apply (sweep_rooms_async_safe True s' Hmax Hwf' (fun _ => Hq))].
      intros [a st | st]; [| tauto]. intros (_ & Hq'). simpl. auto.
Qed.

(** ** Failing sends *)

(** C7, as amended.  When the send to an entry's socket throws inside the
    sweeper, the failure is logged and the sweeper goes on as after a send
    that returned, in each of its three places.  After a failed notice
    the loop that notifies goes on with the next member, and for a
    vanished room the entry is removed.  After a failed probe the entry
    is still in the registry, charged like after a probe that was sent,
    and the threshold check follows: below the maximum the entry stays
    and the loop goes on with the next member; at the maximum a member who
    is not the owner loses the entry and the member row and the loop goes
    on with the next member, and for the owner the room is deleted and the
    entry removed.  At the maximum this is so whatever frames and closes
    are handled while the turn waits for the store. *)
Theorem sweeper_send_failure_is_logged_and_passed_over
  (room : Room.t) (member : RoomMember.t) (rest : list RoomMember.t)
  (why : Reason) (c : ClientConnection) (s : State) :
  let k := clientKey (Room.roomId room) (RoomMember.userId member) in
  let uid := RoomMember.userId member in
  Map_get k (clients s) = Some c ->
  is_closed (ws c) s = true ->
  (exists s1,
     probe_or_absent room member s = Done Normal s1 /\
     events s1 = events s ++ [ConsoleError (err_probe uid (Room.roomId room))] /\
     Map_get k (clients s1) = Some (charge c) /\
     db s1 = db s /\
     ((S (failedHeartbeats c) < MAX_FAILED_HEARTBEATS)%nat ->
      check_member room member s = Done Normal s1 /\
      check_member_async room member s = Settled (Done Normal s1) /\
      for_of (member :: rest) (check_member room) s =
        for_of rest (check_member room) s1) /\
     ((MAX_FAILED_HEARTBEATS <= S (failedHeartbeats c))%nat ->
      uid <> Room.ownerId room ->
      find_member (Room.id room) uid (db s) <> None ->
      (exists s3,
         check_member room member s = Done Normal s3 /\
         Map_get k (clients s3) = None /\
         find_member (Room.id room) uid (db s3) = None /\
         rooms (db s3) = rooms (db s) /\
         for_of (member :: rest) (check_member room) s =
           for_of rest (check_member room) s3) /\
      in_every_run ws_activity
        (fun o => exists s3,
           o = Done Normal s3 /\
           Map_get k (clients s3) = None /\
           find_member (Room.id room) uid (db s3) = None /\
           rooms (db s3) = rooms (db s))
        (check_member_async room member s)) /\
     ((MAX_FAILED_HEARTBEATS <= S (failedHeartbeats c))%nat ->
      uid = Room.ownerId room ->
      find_room (Room.id room) (db s) <> None ->
      (exists s3,
         check_member room member s = Done Return s3 /\
         Map_get k (clients s3) = None /\
         find_room (Room.id room) (db s3) = None /\
         members_of (Room.id room) (db s3) = []) /\
      in_every_run ws_activity
        (fun o => exists s3,
           o = Done Return s3 /\
           Map_get k (clients s3) = None /\
           find_room (Room.id room) (db s3) = None /\
           members_of (Room.id room) (db s3) = [])
        (check_member_async room member s))) /\
  (exists s1,
     notify_vanished room member s = Done Normal s1 /\
     events s1 = events s ++ [ConsoleError (err_notify_user uid)] /\
     Map_get k (clients s1) = None /\
     for_of (member :: rest) (notify_vanished room) s =
       for_of rest (notify_vanished room) s1) /\
  (exists s1,
     notify_other room why member s = Done Normal s1 /\
     events s1 = events s ++ [ConsoleError (err_notify_member uid)] /\
     for_of (member :: rest) (notify_other room why) s =
       for_of rest (notify_other room why) s1).
Proof.
  intros k uid G Hclosed. split; [| split].
  - exists (probed room member c s).
    pose proof (probe_or_absent_live room member c s G) as Hp.
    pose proof (check_member_eq room member s) as Hrun. cbv zeta in Hrun.
    fold k uid in Hrun. rewrite G in Hrun.
    assert (G1 : Map_get k (clients (probed room member c s)) = Some (charge c))
      by (unfold probed; simpl; apply Map_get_set_eq).
    split; [exact Hp |]. split; [| split; [exact G1 | split; [reflexivity |]]].
    { unfold probed. simpl. now rewrite Hclosed. }
    split; [| split].
    + intros Hlt. pose proof Hlt as Hlt'. apply Nat.leb_gt in Hlt.
      rewrite Hlt in Hrun. split; [exact Hrun |]. split.
      * rewrite (check_member_async_live room member c s G).
        apply threshold_check_async_below. intros c' G'.
        fold k in G'. rewrite G1 in G'. injection G' as <-.
        exact Hlt'.
      * now rewrite for_of_cons, Hrun.
    + intros Hle Hne Hrow. split.
      * apply Nat.leb_le in Hle. rewrite Hle in Hrun.
        apply String.eqb_neq in Hne. rewrite Hne in Hrun.
        destruct (find_member (Room.id room) uid (db s)) as [m0 |];
          [| now exfalso].
        eexists. split; [exact Hrun |]. split; [| split; [| split]].
        -- unfold evicted. simpl. apply Map_get_delete_eq.
        -- apply find_member_deleted.
        -- reflexivity.
        -- now rewrite for_of_cons, Hrun.
      * rewrite (check_member_async_live room member c s G).
        eapply in_every_run_env;
          [intros a b Hab; exact (proj1 (ws_activity_undisturbed a b Hab)) |].
        eapply in_every_run_mono;
          [| apply (threshold_check_async_evicts room member (charge c)
                      (probed room member c s) G1 Hle Hne Hrow)].
        intros o (s3 & -> & Hd & Hg). exists s3. split; [reflexivity |].
        rewrite Hd. split; [exact Hg |].
        split; [apply find_member_deleted | reflexivity].
    + intros Hle Heq Hfound. split.
      * apply Nat.leb_le in Hle. rewrite Hle in Hrun.
        rewrite Heq, String.eqb_refl in Hrun.
        destruct (find_room (Room.id room) (db s)) as [r0 |];
          [| now exfalso].
        eexists. split; [exact Hrun |]. split; [| split].
        -- unfold dissolved. simpl. apply Map_get_delete_eq.
        -- apply find_room_deleted.
        -- apply members_of_deleted.
      * rewrite (check_member_async_live room member c s G).
        eapply in_every_run_env;
          [intros a b Hab; exact (proj1 (ws_activity_undisturbed a b Hab)) |].
        eapply in_every_run_mono;
          [| apply (threshold_check_async_dissolves room member (charge c)
                      (probed room member c s) G1 Hle Heq Hfound)].
        intros o (s3 & -> & Hd & Hg). exists s3. split; [reflexivity |].
        rewrite Hd. split; [exact Hg |].
        split; [apply find_room_deleted | apply members_of_deleted].
  - exists (vanished_told room member s).
    split; [apply notify_vanished_eq |]. split; [| split].
    + unfold vanished_told. fold k uid. rewrite G. simpl. now rewrite Hclosed.
    + unfold vanished_told. fold k uid. rewrite G. simpl. apply Map_get_delete_eq.
    + now rewrite for_of_cons, notify_vanished_eq.
  - exists (add_events (notice room why s member) s).
    split; [apply notify_other_step |]. split.
    + unfold notice. fold k uid. now rewrite G, Hclosed.
    + now rewrite for_of_cons, notify_other_step.
Qed.

(** ** What the dissolution paths leave undone *)

Lemma served_cut_eq (r u : string) (s : State)
  (pre post : JsMap ClientConnection) (b : string * ClientConnection) :
  peer_of r u b = true ->
  is_closed (ws (snd b)) s = true ->
  served r u s (pre ++ b :: post) = served r u s pre.
Proof.
  intros Hp Hc. induction pre as [| x pre IH]; simpl.
  - now rewrite Hp, Hc.
  - destruct (peer_of r u x); [destruct (is_closed (ws (snd x)) s) |];
      congruence.
Qed.

(** A [draw_event] is relayed up to the first peer whose socket throws;
    the entries listed after that peer are sent nothing, and the handler
    logs the exception. *)
Lemma broadcast_cut_short (r u : string) (sess : Session) (data : Data)
  (s : State) (pre post : JsMap ClientConnection) (b : string * ClientConnection) :
  joined_as r u sess ->
  type_is "draw_event" data = true ->
  clients s = pre ++ b :: post ->
  peer_of r u b = true ->
  is_closed (ws (snd b)) s = true ->
  events (snd (on_message sess (Frame data) s)) =
  events s ++ map (relayed data) (served r u s pre) ++ [ConsoleError err_message].
Proof.
  intros Hj Ht Hc Hp Hb.
  rewrite (on_message_draw_event r u sess data s Hj Ht), Hc.
  destruct (served_cut r u s pre post b Hp Hb) as (-> & _).
  now rewrite (served_cut_eq r u s pre post b Hp Hb).
Qed.

(** A turn of the member loop that dissolves the room removes no registry
    entry but the one of the examined owner. *)
Lemma dissolution_keeps_other_entries (room : Room.t) (member : RoomMember.t)
  (s s' : State) (k' : string) :
  check_member room member s = Done Return s' ->
  k' <> clientKey (Room.roomId room) (RoomMember.userId member) ->
  Map_get k' (clients s') = Map_get k' (clients s).
Proof.
  rewrite check_member_eq. cbv zeta. intros Hrun Hne.
  destruct (Map_get _ (clients s)) as [c |].
  - destruct (_ <=? _)%nat; [| discriminate].
    destruct (_ =? _).
    + destruct (find_room _ _); [| discriminate].
      injection Hrun as <-. unfold dissolved, probed. simpl.
      rewrite Map_get_delete_ne, Map_get_set_ne by congruence. reflexivity.
    + destruct (find_member _ _ _); discriminate.
  - destruct (_ =? _).
    + destruct (find_room _ _); [| discriminate]. now injection Hrun as <-.
    + destruct (find_member _ _ _); discriminate.
Qed.

(** Once a room's turn [return]s, the rooms listed after it are not
    processed in this cycle. *)
Lemma dissolution_skips_later_rooms (s s1 s3 : State) (room : Room.t)
  (pre post : list Room.t) :
  active_rooms (db s) = pre ++ room :: post ->
  for_of pre check_room s = Done Normal s1 ->
  check_room room s1 = Done Return s3 ->
  heartbeatCheck s = Done tt s3.
Proof.
  intros Hrooms Hpre Hr.
  now rewrite heartbeatCheck_eq, Hrooms, for_of_app, Hpre, for_of_cons, Hr.
Qed.

(** ** Further properties of the handlers *)

Lemma keyed_set (k : string) (v : ClientConnection) (m : JsMap ClientConnection) :
  keyed m ->
  k = clientKey (roomId v) (userId v) -> roomId v <> "" -> userId v <> "" ->
  keyed (Map_set k v m).
Proof.
  intros Hm Hk Hr Hu k' c G. destruct (String.eqb_spec k k') as [<- | Hne].
  - rewrite Map_get_set_eq in G. injection G as <-. auto.
  - rewrite Map_get_set_ne in G by assumption. auto.
Qed.

Lemma keyed_aged (m m' : JsMap ClientConnection) :
  keyed m -> registry_aged m m' -> keyed m'.
Proof.
  intros Hm Ha k c' G.
  destruct (Ha k c' G) as (c & Gc & (_ & Hu & Hr & _) & _).
  destruct (Hm k c Gc) as (Hk & Hr' & Hu'). rewrite Hu, Hr. auto.
Qed.

(** X1. Every registry entry is stored under the key built from its own
    [roomId] and [userId], neither of them empty; a frame, a close and a
    sweep cycle all keep it so. *)
Theorem registry_stays_keyed (s : State) :
  keyed (clients s) ->
  (forall sess msg, keyed (clients (snd (on_message sess msg s)))) /\
  (forall sess, keyed (clients (on_close sess s))) /\
  keyed (clients (sweep s)).
Proof.
  intros Hk. split; [| split].
  - intros sess msg.
    destruct (on_message_cases sess msg s)
      as [-> | (data & r & u & Hmsg & [(Hj & ->) | (_ & _ & c & G & ->)])];
      [assumption | |].
    + subst msg. destruct Hj as (_ & _ & _ & Hu & Hr).
      apply keyed_set; simpl; auto.
    + destruct (Hk _ c G) as (Hkey & Hr & Hu). apply keyed_set; simpl; auto.
  - intros sess. destruct (on_close_registry sess s) as [[-> | (k & ->)] _];
      [assumption |]. eapply keyed_aged; [exact Hk | apply registry_aged_delete].
  - eapply keyed_aged; [exact Hk |]. apply (sweep_sweep_step s).
Qed.

(** X2. A join frame that lacks [userId] or [roomId] changes nothing in the
    state and sends nothing, yet it overwrites the socket's closure
    variables: the entry the socket had installed before stays in the
    registry when the socket closes, whereas a close without that frame
    would have removed it. *)
Theorem incomplete_join_detaches_socket
  (r u : string) (sess : Session) (data : Data) (c : ClientConnection) (s : State) :
  joined_as r u sess ->
  Map_get (clientKey r u) (clients s) = Some c ->
  type_is "join" data = true ->
  nonempty (duserId data) = None \/ nonempty (droomId data) = None ->
  let sess' := fst (on_message sess (Frame data) s) in
  let s' := snd (on_message sess (Frame data) s) in
  s' = s /\
  on_close sess' s' = s /\
  Map_get (clientKey r u) (clients (on_close sess s)) = None.
Proof.
  intros (Hu & Hr & Hune & Hrne) G Ht Hmiss sess' s'.
  assert (Hs : s' = s /\ (nonempty (s_userId sess') = None \/
                          nonempty (s_roomId sess') = None)).
  { unfold s', sess', on_message, assign, handle_frame. rewrite Ht. simpl.
    destruct Hmiss as [H | H]; rewrite H.
    - auto.
    - destruct (nonempty (duserId data)); auto. }
  destruct Hs as (Hs & Hclosure). split; [exact Hs |]. split.
  - rewrite Hs. unfold on_close. destruct Hclosure as [-> | H]; [reflexivity |].
    rewrite H. now destruct (nonempty (s_userId sess')).
  - unfold on_close. rewrite Hu, Hr, (nonempty_Some u Hune), (nonempty_Some r Hrne).
    simpl. apply Map_get_delete_eq.
Qed.

Lemma relay_loop_anonymous (sess : Session) (r : string) (data : Data)
  (l : list (string * ClientConnection)) (s : State) :
  s_userId sess = None ->
  (forall k c, In (k, c) l -> roomId c = r -> is_closed (ws c) s = false) ->
  for_of l (relay sess r data) s =
  Done Normal
    (add_events (map (relayed data) (filter (fun e => roomId (snd e) =? r) l)) s).
Proof.
  intros Hu Hopen.
  assert (G : forall new,
    for_of l (relay sess r data) (add_events new s) =
    Done Normal
      (add_events (new ++ map (relayed data)
                            (filter (fun e => roomId (snd e) =? r) l)) s)).
  { induction l as [| [k c] l IH]; intros new.
    - simpl. now rewrite app_nil_r.
    - rewrite for_of_cons, relay_step, Hu. simpl.
      change (is_closed (ws c) (add_events new s)) with (is_closed (ws c) s).
      rewrite andb_true_r.
      destruct (roomId c =? r) eqn:E; simpl.
      + apply String.eqb_eq in E.
        rewrite (Hopen k c (or_introl eq_refl) E).
        replace (mkState (clients s) (db s) (closed s)
                   ((events s ++ new) ++ [Sent k (ws c) (draw_event data)])
                   (ticks s))
          with (add_events (new ++ [relayed data (k, c)]) s)
          by (unfold add_events, relayed; simpl; now rewrite app_assoc).
        rewrite IH, <- app_assoc; [reflexivity |].
        intros k' c' Hin. apply (Hopen k' c'). now right.
      + apply IH. intros k' c' Hin. apply (Hopen k' c'). now right. }
  specialize (G []). simpl in G.
  replace (add_events [] s) with s in G
    by (unfold add_events; rewrite app_nil_r; now destruct s).
  exact G.
Qed.

(** X3. A socket whose last join frame carried a [roomId] but no [userId]
    is not registered, but its [draw_event] frames are relayed: the
    handler checks [roomId] alone, and with no [userId] to compare every
    entry of the room is a recipient (their sockets accepting the send). *)
Theorem half_joined_socket_broadcasts
  (r : string) (sess : Session) (join draw : Data) (s : State) :
  type_is "join" join = true ->
  duserId join = None ->
  droomId join = Some r ->
  r <> "" ->
  type_is "draw_event" draw = true ->
  (forall k c, In (k, c) (clients s) -> roomId c = r -> is_closed (ws c) s = false) ->
  let sess1 := fst (on_message sess (Frame join) s) in
  let s1 := snd (on_message sess (Frame join) s) in
  s1 = s /\
  events (snd (on_message sess1 (Frame draw) s1)) =
  events s ++ map (relayed draw)
                  (filter (fun e => roomId (snd e) =? r) (clients s)).
Proof.
  intros Htj Hu Hr Hrne Htd Hopen sess1 s1.
  assert (H1 : s1 = s /\ s_userId sess1 = None /\ s_roomId sess1 = Some r).
  { unfold s1, sess1, on_message, assign, handle_frame. rewrite Htj. simpl.
    rewrite Hu, Hr. simpl. auto. }
  destruct H1 as (Hs1 & Hsu & Hsr). split; [exact Hs1 |].
  rewrite Hs1. unfold on_message, assign, handle_frame.
  rewrite (type_is_exclusive _ "join" _ Htd) by discriminate.
  rewrite (type_is_exclusive _ "heartbeat" _ Htd) by discriminate.
  rewrite Htd, Hsr, (nonempty_Some r Hrne).
  unfold try_catch, bind.
  rewrite (relay_loop_anonymous sess1 r draw (clients s) s Hsu Hopen).
  reflexivity.
Qed.

(** X4. A frame that is not a [draw_event] reaches nobody but its sender:
    it adds at most one event, which is a reply on the sender's own socket
    or the handler's error line; it sends nothing on a registry entry and
    leaves the store alone. *)
Theorem only_draw_event_reaches_others (sess : Session) (msg : Inbound) (s : State) :
  (forall data, msg = Frame data -> type_is "draw_event" data = false) ->
  exists new,
    events (snd (on_message sess msg s)) = events s ++ new /\
    (length new <= 1)%nat /\
    forallb (own_reply (s_ws sess)) new = true /\
    db (snd (on_message sess msg s)) = db s.
Proof.
  intros Hnd. destruct msg as [| data].
  { exists [ConsoleError err_message]. simpl. auto. }
  specialize (Hnd data eq_refl).
  unfold on_message, handle_frame, try_catch.
  destruct (type_is "join" data) eqn:Tj.
  { assert (Hws : s_ws (assign sess data) = s_ws sess)
      by (unfold assign; now rewrite Tj).
    destruct (nonempty _) as [u |];
      [| exists []; simpl; rewrite app_nil_r; auto].
    destruct (nonempty _) as [r |];
      [| exists []; simpl; rewrite app_nil_r; auto].
    unfold bind, Date_now, clients_set, set_clients, ws_send, is_closed. simpl.
    rewrite Hws.
    destruct (existsb _ _); simpl; eexists; (split; [reflexivity |]); simpl;
      rewrite ?Nat.eqb_refl; auto. }
  assert (Hsess : assign sess data = sess) by (unfold assign; now rewrite Tj).
  rewrite Hsess.
  destruct (type_is "heartbeat" data).
  { destruct (nonempty _) as [u |];
      [| exists []; simpl; rewrite app_nil_r; auto].
    destruct (nonempty _) as [r |];
      [| exists []; simpl; rewrite app_nil_r; auto].
    unfold bind, clients_get. simpl.
    destruct (Map_get _ _) as [c |];
      [| exists []; simpl; rewrite app_nil_r; auto].
    unfold Date_now, clients_set, set_clients, ws_send, is_closed. simpl.
    destruct (existsb _ _); simpl; eexists; (split; [reflexivity |]); simpl;
      rewrite ?Nat.eqb_refl; auto. }
  rewrite Hnd. exists []. simpl. rewrite app_nil_r. auto.
Qed.

Lemma plain_tail (a : Ascii.ascii) (r : string) : plain (String a r) -> plain r.
Proof.
  intros H x y E. apply (H (String a x) y). simpl. now rewrite E.
Qed.

(** X5. For room identifiers without an underscore the registry key
    determines the pair it was built from. *)
Theorem clientKey_determines_pair (r r' u u' : string) :
  plain r -> plain r' ->
  clientKey r u = clientKey r' u' -> r = r' /\ u = u'.
Proof.
  unfold clientKey. revert r'. induction r as [| a r IH]; intros r' Hp Hp' E.
  - destruct r' as [| a' r'].
    + simpl in E. injection E as E. auto.
    + simpl in E. injection E as Ea E. exfalso.
      apply (Hp' "" r'). simpl. now subst a'.
  - destruct r' as [| a' r'].
    + simpl in E. injection E as Ea E. exfalso.
      apply (Hp "" r). simpl. now subst a.
    + simpl in E. injection E as Ea E.
      destruct (IH r' (plain_tail _ _ Hp) (plain_tail _ _ Hp') E) as (-> & ->).
      now subst a'.
Qed.

Lemma string_append_assoc (a b c : string) :
  String.append (String.append a b) c = String.append a (String.append b c).
Proof.
  induction a as [| x a IH]; simpl; [reflexivity | now rewrite IH].
Qed.

(** X6. With an underscore in play two different pairs share a key: the
    pair of room [r_u] and user [v] and the pair of room [r] and user
    [u_v].  An accepted join of the second therefore puts its own entry
    where the first is looked up, by the sweeper or by a heartbeat. *)
Theorem underscore_pairs_collide
  (r u v : string) (sess : Session) (msg : Inbound) (s : State) :
  accepted_join r (String.append u (String.append "_" v)) msg ->
  clientKey (String.append r (String.append "_" u)) v
    = clientKey r (String.append u (String.append "_" v)) /\
  Map_get (clientKey (String.append r (String.append "_" u)) v)
          (clients (snd (on_message sess msg s)))
    = Some (mkClient (s_ws sess) (String.append u (String.append "_" v)) r 0
                     (clock (ticks s))).
Proof.
  intros Hj.
  assert (E : clientKey (String.append r (String.append "_" u)) v
              = clientKey r (String.append u (String.append "_" v))).
  { unfold clientKey. now rewrite !string_append_assoc. }
  split; [exact E |]. rewrite E.
  destruct (on_message_join _ _ sess msg s Hj) as (_ & -> & _).
  apply Map_get_set_eq.
Qed.

(** ** Further properties of the sweep *)

Lemma In_delete_member_row (rid uid : string) (d : Db) (x : RoomMember.t) :
  In x (roomMembers (delete_member_row rid uid d)) <->
  In x (roomMembers d) /\ is_member_row rid uid x = false.
Proof.
  unfold delete_member_row. simpl. rewrite filter_In, negb_true_iff. reflexivity.
Qed.

Lemma other_row_not_member_row (rid uid : string) (x : RoomMember.t) :
  RoomMember.roomId x <> rid \/ RoomMember.userId x <> uid ->
  is_member_row rid uid x = false.
Proof.
  unfold is_member_row. intros [H | H]; apply String.eqb_neq in H; rewrite H;
    [reflexivity | apply andb_false_r].
Qed.

Lemma find_member_room_deleted (rid uid : string) (d : Db) :
  find_member rid uid (delete_room_rows rid d) = None.
Proof.
  unfold find_member, delete_room_rows. simpl.
  induction (roomMembers d) as [| x l IH]; simpl; [reflexivity |].
  destruct (RoomMember.roomId x =? rid) eqn:E; simpl; [assumption |].
  unfold is_member_row at 1. now rewrite E.
Qed.

(** X7. The turn of a member who is not the owner is local: it never ends
    the cycle, never touches the room rows, the rows of other members or
    the registry entries under other keys.  If the member has no registry
    entry, the turn deletes the member's row and does nothing else: no
    frame is sent, the registry is as before. *)
Theorem non_owner_turn_is_local (room : Room.t) (member : RoomMember.t) (s : State) :
  let k := clientKey (Room.roomId room) (RoomMember.userId member) in
  let uid := RoomMember.userId member in
  let o := check_member room member s in
  uid <> Room.ownerId room ->
  (forall s', o <> Done Return s') /\
  rooms (db (final o)) = rooms (db s) /\
  (forall x, RoomMember.roomId x <> Room.id room \/ RoomMember.userId x <> uid ->
     (In x (roomMembers (db (final o))) <-> In x (roomMembers (db s)))) /\
  (forall k', k' <> k -> Map_get k' (clients (final o)) = Map_get k' (clients s)) /\
  (Map_get k (clients s) = None ->
     o = Done Normal (final o) /\
     find_member (Room.id room) uid (db (final o)) = None /\
     clients (final o) = clients s /\ events (final o) = events s).
Proof.
  intros k uid o Hne. unfold o. rewrite check_member_eq. cbv zeta. fold k uid.
  apply String.eqb_neq in Hne. rewrite Hne.
  assert (Hrow : forall d x,
            RoomMember.roomId x <> Room.id room \/ RoomMember.userId x <> uid ->
            (In x (roomMembers (delete_member_row (Room.id room) uid d)) <->
             In x (roomMembers d))).
  { intros d x Hx. rewrite In_delete_member_row.
    pose proof (other_row_not_member_row _ _ x Hx). tauto. }
  destruct (Map_get k (clients s)) as [c |] eqn:G.
  - assert (Hk : forall k', k' <> k ->
              Map_get k' (Map_set k (charge c) (clients s)) = Map_get k' (clients s)).
    { intros k' Hk'. apply Map_get_set_ne. congruence. }
    destruct (_ <=? _)%nat.
    + destruct (find_member _ _ _) eqn:F; simpl.
      * split; [discriminate |]. split; [reflexivity |].
        split; [intros x Hx; now apply Hrow |].
        split; [| discriminate].
        intros k' Hk'. rewrite Map_get_delete_ne by congruence. now apply Hk.
      * split; [discriminate |]. split; [reflexivity |].
        split; [tauto |]. split; [exact Hk | discriminate].
    + simpl. split; [discriminate |]. split; [reflexivity |].
      split; [tauto |]. split; [exact Hk | discriminate].
  - destruct (find_member _ _ _) eqn:F; simpl.
    + split; [discriminate |]. split; [reflexivity |].
      split; [intros x Hx; now apply Hrow |]. split; [reflexivity |].
      intros _. split; [reflexivity |]. split; [apply find_member_deleted | auto].
    + split; [discriminate |]. split; [reflexivity |]. split; [tauto |].
      split; [reflexivity |]. intros _. auto.
Qed.

Lemma vanished_told_events (room : Room.t) (m : RoomMember.t) (s : State) (e : Event) :
  In e (events s) -> In e (events (vanished_told room m s)).
Proof.
  unfold vanished_told. destruct (Map_get _ (clients s)); simpl; [| auto].
  intros H. apply in_or_app. now left.
Qed.

Lemma vanished_fold_events (room : Room.t) (l : list RoomMember.t) (s : State)
  (e : Event) :
  In e (events s) ->
  In e (events (fold_left (fun st m => vanished_told room m st) l s)).
Proof.
  revert s. induction l as [| m l IH]; intros s H; simpl; [assumption |].
  apply IH. now apply vanished_told_events.
Qed.

(** X8. When the room row is gone by the time it is looked up, the cycle
    tells each listed member whose entry is in the registry that the room
    is deleted, with no reason given, removes the entry of every listed
    member whether the send returned or threw, leaves the entries under
    other keys and the store alone, and goes on to the next room. *)
Theorem vanished_room_clears_listed_members
  (room : Room.t) (members : list RoomMember.t) (s : State) :
  let key := fun m => clientKey (Room.roomId room) (RoomMember.userId m) in
  let s' := fold_left (fun st m => vanished_told room m st) members s in
  for_of members (notify_vanished room) s = Done Normal s' /\
  (find_room (Room.id room) (db s) = None ->
   members = members_of (Room.id room) (db s) ->
   check_room room s = Done Normal s') /\
  db s' = db s /\
  (forall m, In m members -> Map_get (key m) (clients s') = None) /\
  (forall k', (forall m, In m members -> k' <> key m) ->
     Map_get k' (clients s') = Map_get k' (clients s)) /\
  (forall m c, In m members ->
     Map_get (key m) (clients s) = Some c -> is_closed (ws c) s = false ->
     In (Sent (key m) (ws c) (room_deleted (Room.roomId room) None)) (events s')).
Proof.
  intros key s'. split; [apply notify_vanished_loop |]. split.
  { intros F ->. rewrite check_room_eq. cbv zeta. now rewrite F. }
  unfold s'. clear s'. revert s. induction members as [| x l IH]; intros s.
  { simpl. repeat split; auto; contradiction. }
  simpl. destruct (IH (vanished_told room x s)) as (Hdb & Hgone & Hother & Hsent).
  assert (Hx_db : db (vanished_told room x s) = db s).
  { unfold vanished_told. now destruct (Map_get _ (clients s)). }
  assert (Hx_closed : forall h, is_closed h (vanished_told room x s) = is_closed h s).
  { intros h. unfold vanished_told, is_closed.
    now destruct (Map_get _ (clients s)). }
  assert (Hx_key : Map_get (key x) (clients (vanished_told room x s)) = None).
  { unfold vanished_told. fold (key x).
    destruct (Map_get (key x) (clients s)) eqn:G; simpl;
      [apply Map_get_delete_eq | exact G]. }
  assert (Hx_other : forall k', k' <> key x ->
            Map_get k' (clients (vanished_told room x s)) = Map_get k' (clients s)).
  { intros k' Hk'. unfold vanished_told. fold (key x).
    destruct (Map_get (key x) (clients s)); simpl; [| reflexivity].
    apply Map_get_delete_ne. congruence. }
  split; [congruence |]. split; [| split].
  - intros m [<- | Hin]; [| now apply Hgone].
    destruct (in_dec string_dec (key x) (map key l)) as [Hi | Hn].
    + apply in_map_iff in Hi. destruct Hi as (y & Hy & Hyin).
      rewrite <- Hy. now apply Hgone.
    + rewrite Hother; [exact Hx_key |]. intros m Hm E. apply Hn.
      rewrite E. now apply in_map.
  - intros k' Hk'. rewrite Hother by (intros m Hm; apply Hk'; now right).
    apply Hx_other. apply Hk'. now left.
  - intros m c Hin G Hopen.
    destruct (String.eqb_spec (key m) (key x)) as [E | Hne].
    + apply vanished_fold_events. unfold vanished_told. fold (key x).
      rewrite <- E, G, Hopen. simpl. apply in_or_app. right. now left.
    + destruct Hin as [-> | Hin]; [congruence |].
      apply Hsent; [assumption | | now rewrite Hx_closed].
      now rewrite Hx_other.
Qed.

(** The turn of a member who is not the owner and has no registry entry:
    the member's row is deleted, if there is one, and that is all. *)
Lemma absent_non_owner_turn (room : Room.t) (member : RoomMember.t) (s : State) :
  RoomMember.userId member <> Room.ownerId room ->
  Map_get (clientKey (Room.roomId room) (RoomMember.userId member)) (clients s) = None ->
  exists s',
    check_member room member s = Done Normal s' /\
    rooms (db s') = rooms (db s) /\
    (forall x, RoomMember.roomId x <> Room.id room \/
               RoomMember.userId x <> RoomMember.userId member ->
       (In x (roomMembers (db s')) <-> In x (roomMembers (db s)))) /\
    find_member (Room.id room) (RoomMember.userId member) (db s') = None /\
    clients s' = clients s /\ events s' = events s.
Proof.
  intros Hne G. rewrite check_member_eq. cbv zeta.
  assert (Hrow : forall d x,
            RoomMember.roomId x <> Room.id room \/
            RoomMember.userId x <> RoomMember.userId member ->
            (In x (roomMembers (delete_member_row (Room.id room)
                                  (RoomMember.userId member) d)) <->
             In x (roomMembers d))).
  { intros d x Hx. rewrite In_delete_member_row.
    pose proof (other_row_not_member_row _ _ x Hx). tauto. }
  apply String.eqb_neq in Hne. rewrite Hne, G.
  destruct (find_member _ _ _) eqn:F; simpl.
  - eexists. split; [reflexivity |]. simpl. split; [reflexivity |].
    split; [intros x Hx; now apply Hrow |].
    split; [apply find_member_deleted | auto].
  - exists s. split; [reflexivity |]. split; [reflexivity |].
    split; [tauto |]. auto.
Qed.

(** X9. A room whose listed members are all without a registry entry, none
    of them being the owner, is emptied and then deleted by the cycle that
    visits it: each member row is deleted in its turn, no row being left
    the room row is deleted too, nothing is sent, the registry and the
    rows of other rooms are as before, and the cycle goes on. *)
Theorem abandoned_room_is_deleted (room : Room.t) (s : State) :
  find_room (Room.id room) (db s) <> None ->
  (forall m, In m (members_of (Room.id room) (db s)) ->
     RoomMember.userId m <> Room.ownerId room /\
     Map_get (clientKey (Room.roomId room) (RoomMember.userId m)) (clients s) = None) ->
  exists s',
    check_room room s = Done Normal s' /\
    find_room (Room.id room) (db s') = None /\
    members_of (Room.id room) (db s') = [] /\
    clients s' = clients s /\ events s' = events s /\
    (forall x, RoomMember.roomId x <> Room.id room ->
       (In x (roomMembers (db s')) <-> In x (roomMembers (db s)))).
Proof.
  intros Hroom Hall.
  pose (Inv := fun (rest : list RoomMember.t) (cur : State) =>
    clients cur = clients s /\ events cur = events s /\
    rooms (db cur) = rooms (db s) /\
    (forall x, RoomMember.roomId x <> Room.id room ->
       (In x (roomMembers (db cur)) <-> In x (roomMembers (db s)))) /\
    (forall x, In x (roomMembers (db cur)) -> RoomMember.roomId x = Room.id room ->
       exists y, In y rest /\ RoomMember.userId y = RoomMember.userId x) /\
    (forall y, In y rest ->
       RoomMember.userId y <> Room.ownerId room /\
       Map_get (clientKey (Room.roomId room) (RoomMember.userId y)) (clients s) = None)).
  assert (Hstep : forall x rest cur, Inv (x :: rest) cur ->
            match check_member room x cur with
            | Done Normal cur' => Inv rest cur'
            | Done Return _ => False
            | Raised _ => False
            end).
  { intros x rest cur (Hc & He & Hr & Hoth & Hcov & Habs).
    destruct (Habs x (or_introl eq_refl)) as (Hno & Hx).
    rewrite <- Hc in Hx.
    destruct (absent_non_owner_turn room x cur Hno Hx)
      as (cur' & Hrun & Hr' & Hrows & Hgone & Hc' & He').
    rewrite Hrun.
    split; [congruence |]. split; [congruence |]. split; [congruence |].
    split; [| split].
    - intros z Hz. rewrite (Hrows z (or_introl Hz)). now apply Hoth.
    - intros z Hz Hzr.
      destruct (String.eqb_spec (RoomMember.userId z) (RoomMember.userId x))
        as [E | Hne].
      + exfalso. apply (find_present _ _ z Hz) in Hgone; [exact Hgone |].
        unfold is_member_row. now rewrite Hzr, E, !String.eqb_refl.
      + apply (Hrows z (or_intror Hne)) in Hz.
        destruct (Hcov z Hz Hzr) as (y & [-> | Hy] & Hyu); [congruence |].
        now exists y.
    - intros y Hy. apply Habs. now right. }
  pose proof (for_of_rule Inv (fun _ => False) (check_member room) Hstep
                (members_of (Room.id room) (db s)) s) as Rule.
  assert (Hinit : Inv (members_of (Room.id room) (db s)) s).
  { split; [reflexivity |]. split; [reflexivity |]. split; [reflexivity |].
    split; [tauto |]. split; [| exact Hall].
    intros x Hx Hxr. exists x. split; [| reflexivity].
    apply filter_In. split; [assumption | now apply String.eqb_eq]. }
  specialize (Rule Hinit). rewrite check_room_eq. cbv zeta.
  destruct (find_room (Room.id room) (db s)) as [r0 |] eqn:F; [| contradiction].
  destruct (for_of _ (check_member room) s) as [[|] s1 | s1]; try contradiction.
  destruct Rule as (Hc & He & Hr & Hoth & Hcov & _).
  assert (Hempty : members_of (Room.id room) (db s1) = []).
  { unfold members_of. destruct (filter _ _) as [| z l] eqn:E; [reflexivity |].
    assert (Hz : In z (filter (fun m => RoomMember.roomId m =? Room.id room)
                         (roomMembers (db s1)))) by (rewrite E; now left).
    apply filter_In in Hz. destruct Hz as (Hz & Hzr). apply String.eqb_eq in Hzr.
    destruct (Hcov z Hz Hzr) as (y & [] & _). }
  rewrite Hempty. simpl.
  assert (F1 : find_room (Room.id room) (db s1) = Some r0)
    by (unfold find_room in *; now rewrite Hr).
  rewrite F1. eexists. split; [reflexivity |]. simpl.
  split; [apply find_room_deleted |]. split; [apply members_of_deleted |].
  split; [exact Hc |]. split; [exact He |].
  intros x Hx. rewrite filter_In, <- (Hoth x Hx).
  apply String.eqb_neq in Hx. rewrite Hx. simpl. tauto.
Qed.

Lemma check_member_completes (room : Room.t) (member : RoomMember.t) (s : State) :
  find_room (Room.id room) (db s) <> None ->
  find_member (Room.id room) (RoomMember.userId member) (db s) <> None ->
  exists c s', check_member room member s = Done c s'.
Proof.
  intros Hroom Hmem. rewrite check_member_eq. cbv zeta.
  destruct (find_room _ _); [| contradiction].
  destruct (find_member _ _ _); [| contradiction].
  destruct (Map_get _ (clients s)).
  - destruct (_ <=? _)%nat; [destruct (_ =? _) |]; eauto.
  - destruct (_ =? _); eauto.
Qed.

Lemma check_room_completes (room : Room.t) (s : State) :
  Db_wf (db s) -> exists c s', check_room room s = Done c s'.
Proof.
  intros Hwf. rewrite check_room_eq. cbv zeta.
  destruct (find_room (Room.id room) (db s)) as [r0 |] eqn:F; [| eauto].
  pose proof (for_of_rule (members_pending room) (fun _ => True)
                (check_member room)) as Rule.
  specialize (Rule ltac:(
    intros x rest st Hp;
    destruct (check_member_completes room x st (proj1 Hp)
                (proj2 (proj2 Hp) x (or_introl eq_refl))) as (c & st' & E);
    rewrite E; destruct c; [| exact I];
    eapply members_pending_step; eassumption)).
  specialize (Rule (members_of (Room.id room) (db s)) s).
  assert (Hstart : members_pending room (members_of (Room.id room) (db s)) s).
  { apply members_pending_start; [assumption | congruence]. }
  specialize (Rule Hstart).
  destruct (for_of _ (check_member room) s) as [[|] s1 | s1];
    [| eauto | contradiction].
  destruct Rule as (Hroom1 & _).
  destruct (_ =? 0)%nat; [| eauto].
  destruct (find_room _ (db s1)); [eauto | contradiction].
Qed.

(** X10. On a store that respects its unique indexes a sweep cycle never
    reaches its [catch] as long as no other handler changes the store
    while it waits: run alone, the loop over the rooms comes to an end or
    to a [return] without any rejected store call; with a positive maximum
    the same holds whatever frames and closes are handled during the
    waits; and the indexes are respected afterwards.  The condition on the
    other handlers is needed: when the row of a member about to be evicted
    is deleted during the wait by a handler that does not write the
    registry, as [/api/rooms/leave] does, the delete of the sweep is
    rejected and the entry stays in the registry with its count at the
    maximum. *)
Theorem cycle_completes_on_consistent_store (s : State) :
  Db_wf (db s) ->
  (exists c s',
     for_of (active_rooms (db s)) check_room s = Done c s' /\
     heartbeatCheck s = Done tt s' /\
     run_with [] (heartbeatCheck_async s) = Done tt s' /\
     Db_wf (db s')) /\
  ((0 < MAX_FAILED_HEARTBEATS)%nat ->
   in_every_run ws_activity
     (fun o => exists s', o = Done tt s' /\ Db_wf (db s'))
     (sweep_rooms_async s)) /\
  (forall (room : Room.t) (member : RoomMember.t) (c : ClientConnection)
          (st : State) (leave : Others),
     let k := clientKey (Room.roomId room) (RoomMember.userId member) in
     let uid := RoomMember.userId member in
     Map_get k (clients st) = Some c ->
     (MAX_FAILED_HEARTBEATS <= S (failedHeartbeats c))%nat ->
     uid <> Room.ownerId room ->
     clients (leave (probed room member c st)) = clients (probed room member c st) ->
     find_member (Room.id room) uid (db (leave (probed room member c st))) = None ->
     exists s3,
       run_with [leave] (check_member_async room member st) = Raised s3 /\
       Map_get k (clients s3) = Some (charge c)).
Proof.
  intros Hwf. split; [| split].
  - pose proof (for_of_rule
      (fun (_ : list Room.t) st => Db_wf (db st)) (fun st => Db_wf (db st))
      check_room) as Rule.
    assert (Hstep : forall x (rest : list Room.t) st, Db_wf (db st) ->
              match check_room x st with
              | Done Normal st' => Db_wf (db st')
              | Done Return st' => Db_wf (db st')
              | Raised _ => False
              end).
    { intros x rest st Hwf'.
      destruct (check_room_completes x st Hwf') as (c & st' & E).
      pose proof (check_room_sweep_step x st) as (_ & _ & Hd & _).
      rewrite E in *. simpl in Hd.
      destruct c; eapply Db_wf_shrunk; eassumption. }
    specialize (Rule Hstep (active_rooms (db s)) s Hwf).
    rewrite heartbeatCheck_alone, heartbeatCheck_eq.
    destruct (for_of _ check_room s) as [[|] s' | s']; [| | contradiction];
      eexists _, s'; auto.
  - intros Hmax.
    eapply in_every_run_env; [exact ws_activity_undisturbed |].
    eapply in_every_run_mono;
      [| apply (sweep_rooms_async_safe False s Hmax Hwf
                  (fun f : False => match f with end))].
    intros [[] st | st]; [| tauto]. intros (Hwf' & _). eauto.
  - intros room member c st leave k uid G Hle Hne Hreg Hgone.
    rewrite (check_member_async_live room member c st G).
    unfold threshold_check_async, abind, sync, clients_get. simpl.
    fold uid. fold k. rewrite Map_get_set_eq.
    change (failedHeartbeats (charge c)) with (S (failedHeartbeats c)).
    apply Nat.leb_le in Hle. rewrite Hle.
    apply String.eqb_neq in Hne. rewrite Hne. simpl.
    unfold roomMember_delete. rewrite Hgone. simpl.
    eexists. split; [reflexivity |]. rewrite Hreg.
    unfold probed. simpl. apply Map_get_set_eq.
Qed.

(** X11. Whatever a sweep cycle does, it only removes and charges: every
    registry entry after it was there before, on the same socket and with
    a failure count that was not larger; every room row and member row
    after it was there before; the events are extended, never rewritten. *)
Theorem cycle_only_removes_and_charges (s : State) :
  (forall k c', Map_get k (clients (sweep s)) = Some c' ->
     exists c, Map_get k (clients s) = Some c /\
               ws c' = ws c /\ userId c' = userId c /\ roomId c' = roomId c /\
               lastHeartbeat c' = lastHeartbeat c /\
               (failedHeartbeats c <= failedHeartbeats c')%nat) /\
  (forall x, In x (rooms (db (sweep s))) -> In x (rooms (db s))) /\
  (forall x, In x (roomMembers (db (sweep s))) -> In x (roomMembers (db s))) /\
  (exists new, events (sweep s) = events s ++ new).
Proof.
  destruct (sweep_sweep_step s) as (_ & Hr & (f & g & Hf & Hg) & He).
  split; [| split; [| split]].
  - intros k c' G. destruct (Hr k c' G) as (c & Gc & (H1 & H2 & H3 & H4) & H5).
    exists c. auto 10.
  - intros x. rewrite Hf, filter_In. tauto.
  - intros x. rewrite Hg, filter_In. tauto.
  - exact He.
Qed.


Lemma examined_below (room : Room.t) (member : RoomMember.t)
  (c : ClientConnection) (s : State) (n : nat) :
  let k := clientKey (Room.roomId room) (RoomMember.userId member) in
  Map_get k (clients s) = Some c ->
  (failedHeartbeats c + n < MAX_FAILED_HEARTBEATS)%nat ->
  exists cn, Map_get k (clients (examined n room member s)) = Some cn /\
             failedHeartbeats cn = failedHeartbeats c + n /\
             ws cn = ws c /\
             db (examined n room member s) = db s.
Proof.
  intros k G. subst k. induction n as [| n IH]; intros Hlt.
  - exists c. simpl. auto.
  - destruct IH as (cn & Gn & Hn & Hw & Hdb); [lia |].
    simpl examined. rewrite check_member_eq. cbv zeta. rewrite Gn.
    assert (L : (MAX_FAILED_HEARTBEATS <=? S (failedHeartbeats cn))%nat = false)
      by (apply Nat.leb_gt; lia).
    rewrite L. simpl final. exists (charge cn). unfold probed. simpl.
    split; [apply Map_get_set_eq |]. split; [lia |]. auto.
Qed.

(** X13. A member who is not the owner and never acks is evicted by the
    probe that brings the count to the maximum and by none before: with
    [n + 1] probes missing to the maximum, the first [n] examinations only
    charge the entry and leave the store alone, and the next one deletes
    the member's row and the entry, the room staying.  For a fresh entry
    that is the examination number [MAX_FAILED_HEARTBEATS]. *)
Theorem unanswered_probes_evict_at_the_maximum
  (room : Room.t) (member : RoomMember.t) (c : ClientConnection) (s : State)
  (n : nat) :
  let k := clientKey (Room.roomId room) (RoomMember.userId member) in
  let uid := RoomMember.userId member in
  uid <> Room.ownerId room ->
  find_member (Room.id room) uid (db s) <> None ->
  Map_get k (clients s) = Some c ->
  failedHeartbeats c + S n = MAX_FAILED_HEARTBEATS ->
  (forall i, (i <= n)%nat ->
     exists ci, Map_get k (clients (examined i room member s)) = Some ci /\
                failedHeartbeats ci = failedHeartbeats c + i /\
                db (examined i room member s) = db s) /\
  Map_get k (clients (examined (S n) room member s)) = None /\
  find_member (Room.id room) uid (db (examined (S n) room member s)) = None /\
  rooms (db (examined (S n) room member s)) = rooms (db s).
Proof.
  intros k uid Hne Hmem G Hmax. subst k uid. split.
  - intros i Hi.
    destruct (examined_below room member c s i G) as (ci & H1 & H2 & _ & H3);
      [lia | eauto].
  - destruct (examined_below room member c s n G) as (cn & Gn & Hn & _ & Hdb);
      [lia |].
    simpl examined. rewrite check_member_eq. cbv zeta. rewrite Gn.
    assert (L : (MAX_FAILED_HEARTBEATS <=? S (failedHeartbeats cn))%nat = true)
      by (apply Nat.leb_le; lia).
    apply String.eqb_neq in Hne. rewrite L, Hne, Hdb.
    destruct (find_member (Room.id room) _ (db s)); [| contradiction].
    simpl. split; [apply Map_get_delete_eq |].
    split; [apply find_member_deleted | now rewrite Hdb].
Qed.

(** X14. With a maximum of at least [2], a member whose heartbeat frame
    arrives after every probe is never evicted, owner or not: after any
    number of rounds of examination and ack the entry is in the registry
    on its socket with count [0] and the store is as it was. *)
Theorem acked_probes_never_evict
  (room : Room.t) (member : RoomMember.t) (sess : Session) (data : Data)
  (c : ClientConnection) (s : State) (n : nat) :
  let k := clientKey (Room.roomId room) (RoomMember.userId member) in
  (2 <= MAX_FAILED_HEARTBEATS)%nat ->
  joined_as (Room.roomId room) (RoomMember.userId member) sess ->
  type_is "heartbeat" data = true ->
  Map_get k (clients s) = Some c ->
  failedHeartbeats c = 0 ->
  exists c',
    Map_get k (clients (examined_and_acked n sess data room member s)) = Some c' /\
    failedHeartbeats c' = 0 /\ ws c' = ws c /\
    db (examined_and_acked n sess data room member s) = db s.
Proof.
  intros k Hmax Hj Ht G Hz. subst k. induction n as [| n IH].
  - exists c. simpl. auto.
  - destruct IH as (cn & Gn & Hn & Hw & Hdb).
    change (examined_and_acked (S n) sess data room member s)
      with (snd (on_message sess (Frame data)
                   (final (check_member room member
                             (examined_and_acked n sess data room member s))))).
    set (sn := examined_and_acked n sess data room member s) in *.
    rewrite check_member_eq. cbv zeta. rewrite Gn.
    assert (L : (MAX_FAILED_HEARTBEATS <=? S (failedHeartbeats cn))%nat = false)
      by (apply Nat.leb_gt; lia).
    rewrite L. simpl final.
    assert (Gp : Map_get (clientKey (Room.roomId room) (RoomMember.userId member))
                         (clients (probed room member cn sn)) = Some (charge cn))
      by (unfold probed; simpl; apply Map_get_set_eq).
    destruct (on_message_heartbeat _ _ sess data (charge cn)
                (probed room member cn sn) Hj Ht Gp) as (_ & Hc & Hd).
    eexists. rewrite Hc, Hd. split; [apply Map_get_set_eq |].
    simpl. auto.
Qed.

(** X15. With a maximum of [0] or [1] a connected member does not survive
    its first probe, however promptly it would ack: in a store that has
    the room and the member's row, the turn that sends the probe also
    removes the entry and the member's row. *)
Theorem maximum_below_two_evicts_at_first_probe
  (room : Room.t) (member : RoomMember.t) (c : ClientConnection) (s : State) :
  let k := clientKey (Room.roomId room) (RoomMember.userId member) in
  let uid := RoomMember.userId member in
  (MAX_FAILED_HEARTBEATS <= 1)%nat ->
  find_room (Room.id room) (db s) <> None ->
  find_member (Room.id room) uid (db s) <> None ->
  Map_get k (clients s) = Some c ->
  Map_get k (clients (final (check_member room member s))) = None /\
  find_member (Room.id room) uid (db (final (check_member room member s))) = None.
Proof.
  intros k uid Hmax Hroom Hmem G. subst k uid. rewrite check_member_eq. cbv zeta.
  rewrite G.
  assert (L : (MAX_FAILED_HEARTBEATS <=? S (failedHeartbeats c))%nat = true)
    by (apply Nat.leb_le; lia).
  rewrite L.
  destruct (find_room _ _); [| contradiction].
  destruct (find_member _ _ _); [| contradiction].
  destruct (_ =? Room.ownerId room); simpl.
  - split; [apply Map_get_delete_eq | apply find_member_room_deleted].
  - split; [apply Map_get_delete_eq | apply find_member_deleted].
Qed.

(** ** The room routes *)

Lemma notify_route_step (room : Room.t) (m : RoomMember.t) (s : State) :
  notify_route room m s = Done Normal (add_events (told room s m) s).
Proof.
  unfold notify_route, told, bind, clients_get, try_catch, client_send.
  destruct (Map_get _ (clients s)) as [c |].
  - destruct (is_closed (ws c) s); reflexivity.
  - unfold add_events, ret. rewrite app_nil_r. now destruct s.
Qed.

Lemma notify_route_loop (room : Room.t) (l : list RoomMember.t) (s : State) :
  for_of l (notify_route room) s =
  Done Normal (add_events (flat_map (told room s) l) s).
Proof.
  assert (G : forall new,
    for_of l (notify_route room) (add_events new s) =
    Done Normal (add_events (new ++ flat_map (told room s) l) s)).
  { induction l as [| m l IH]; intros new.
    - simpl. now rewrite app_nil_r.
    - rewrite for_of_cons, notify_route_step.
      change (told room (add_events new s) m) with (told room s m).
      replace (add_events (told room s m) (add_events new s))
        with (add_events (new ++ told room s m) s)
        by (unfold add_events; simpl; now rewrite app_assoc).
      rewrite IH. simpl. now rewrite app_assoc. }
  specialize (G []). simpl in G.
  replace (add_events [] s) with s in G
    by (unfold add_events; rewrite app_nil_r; now destruct s).
  exact G.
Qed.

Lemma found_by_code_has_id (code : string) (d : Db) (room : Room.t) :
  find_room_by_code code d = Some room ->
  In room (rooms d) /\ Room.roomId room = code /\ find_room (Room.id room) d <> None.
Proof.
  unfold find_room_by_code. intros H. apply find_some in H.
  destruct H as (Hin & Hc). apply String.eqb_eq in Hc.
  repeat split; auto. apply (find_present _ _ room Hin). apply String.eqb_refl.
Qed.

(** The shared dissolution in closed form. *)
Lemma dissolve_by_route_eq (room : Room.t) (s : State) :
  find_room (Room.id room) (db s) <> None ->
  dissolve_by_route room s =
  Done (reply 200 ok_dissolved)
       (mkState (clients s) (delete_room_rows (Room.id room) (db s)) (closed s)
          (events s ++ flat_map (told room s) (members_of (Room.id room) (db s)))
          (ticks s)).
Proof.
  intros Hroom. unfold dissolve_by_route, bind, roomMember_findMany.
  rewrite notify_route_loop. unfold room_delete. simpl.
  destruct (find_room (Room.id room) (db s)); [reflexivity | contradiction].
Qed.

Lemma roomId_given (req : RoomRequest) (code : string) :
  nonempty (body_roomId req) = Some code ->
  roomId_field req = field_string code /\ falsy (roomId_field req) = false.
Proof.
  unfold body_roomId, falsy. destruct (roomId_field req) as [| v | b];
    simpl; try discriminate.
  destruct (v =? ""); [discriminate |]. intros E. injection E as ->. auto.
Qed.

Lemma leave_room_found (verifyToken : string -> option Payload)
  (req : RoomRequest) (s : State) (tok code : string) (p : Payload) (room : Room.t) :
  nonempty (token req) = Some tok ->
  verifyToken tok = Some p ->
  nonempty (body_roomId req) = Some code ->
  find_room_by_code code (db s) = Some room ->
  leave_room verifyToken req s =
  if Room.ownerId room =? p_userId p
  then dissolve_by_route room s
  else Done (reply 200 ok_left)
            (mkState (clients s)
               (delete_member_row (Room.id room) (p_userId p) (db s))
               (closed s) (events s) (ticks s)).
Proof.
  intros Ht Hp Hc Hf. destruct (roomId_given req code Hc) as (Hfield & Hfalsy).
  unfold leave_room, try_catch. rewrite Ht, Hp, Hfalsy, Hfield.
  unfold bind at 1. unfold room_findUnique_code at 1. rewrite Hf.
  destruct (Room.ownerId room =? p_userId p).
  - destruct (found_by_code_has_id _ _ _ Hf) as (_ & _ & Hroom).
    now rewrite (dissolve_by_route_eq room s Hroom).
  - reflexivity.
Qed.

Lemma delete_room_found (verifyToken : string -> option Payload)
  (req : RoomRequest) (s : State) (tok code : string) (p : Payload) (room : Room.t) :
  nonempty (token req) = Some tok ->
  verifyToken tok = Some p ->
  nonempty (body_roomId req) = Some code ->
  find_room_by_code code (db s) = Some room ->
  delete_room verifyToken req s =
  if Room.ownerId room =? p_userId p
  then dissolve_by_route room s
  else Done (reply 403 error_not_owner) s.
Proof.
  intros Ht Hp Hc Hf. destruct (roomId_given req code Hc) as (Hfield & Hfalsy).
  unfold delete_room, try_catch. rewrite Ht, Hp, Hfalsy, Hfield.
  unfold bind at 1. unfold room_findUnique_code at 1. rewrite Hf.
  destruct (Room.ownerId room =? p_userId p); simpl.
  - destruct (found_by_code_has_id _ _ _ Hf) as (_ & _ & Hroom).
    now rewrite (dissolve_by_route_eq room s Hroom).
  - reflexivity.
Qed.

Lemma join_room_found (verifyToken : string -> option Payload)
  (password_of : Room.t -> option string)
  (req : RoomRequest) (s : State) (tok code : string) (p : Payload) (room : Room.t) :
  nonempty (token req) = Some tok ->
  verifyToken tok = Some p ->
  nonempty (body_roomId req) = Some code ->
  find_room_by_code code (db s) = Some room ->
  join_room verifyToken password_of req s =
  if password_refused (password_of room) (body_password req)
  then Done (reply 401 error_wrong_password) s
  else match find_member (Room.id room) (p_userId p) (db s) with
       | Some _ => Done (reply 400 error_already_member) s
       | None =>
           if (Room.maxUsers room <=? length (members_of (Room.id room) (db s)))%nat
           then Done (reply 400 error_room_full) s
           else Done (reply 200 (ok_joined room))
                     (mkState (clients s)
                        (add_member_row
                           (RoomMember.mk (Room.id room) (p_userId p) "member")
                           (db s))
                        (closed s) (events s) (ticks s))
       end.
Proof.
  intros Ht Hp Hc Hf. destruct (roomId_given req code Hc) as (Hfield & Hfalsy).
  unfold join_room, try_catch. rewrite Ht, Hp, Hfalsy, Hfield.
  unfold bind at 1. unfold room_findUnique_code at 1. rewrite Hf.
  destruct (password_refused _ _); [reflexivity |].
  unfold bind at 1. unfold roomMember_findUnique at 1.
  destruct (find_member (Room.id room) (p_userId p) (db s)) eqn:F; [reflexivity |].
  unfold bind at 1. unfold roomMember_count at 1.
  destruct (_ <=? _)%nat; [reflexivity |].
  unfold bind, roomMember_create. simpl. now rewrite F.
Qed.

(** How a request fares before the route's own work begins: admitted
    with the verified payload and the room found, refused with a reply, or
    rejected by the store for a [roomId] that is not a string. *)
Lemma request_resolves (verifyToken : string -> option Payload)
  (req : RoomRequest) (s : State) :
  (exists tok p code room,
     nonempty (token req) = Some tok /\ verifyToken tok = Some p /\
     nonempty (body_roomId req) = Some code /\
     find_room_by_code code (db s) = Some room) \/
  (exists r,
     status_of r <> 200 /\ status_of r <> 500 /\
     ~ (exists tok p, nonempty (token req) = Some tok /\
                      verifyToken tok = Some p /\
                      roomId_field req = field_other true) /\
     leave_room verifyToken req s = Done r s /\
     delete_room verifyToken req s = Done r s /\
     forall password_of, join_room verifyToken password_of req s = Done r s) \/
  ((exists tok p, nonempty (token req) = Some tok /\
                  verifyToken tok = Some p /\
                  roomId_field req = field_other true) /\
   leave_room verifyToken req s = Done (reply 500 error_route_failed) s /\
   delete_room verifyToken req s = Done (reply 500 error_route_failed) s /\
   forall password_of,
     join_room verifyToken password_of req s = Done (reply 500 error_route_failed) s).
Proof.
  unfold leave_room, delete_room, join_room, try_catch.
  destruct (nonempty (token req)) as [tok |] eqn:Ht;
    [| right; left; exists (reply 401 error_login_first);
       repeat split; simpl; try (discriminate || reflexivity);
       intros (tok & p & E & _); discriminate].
  destruct (verifyToken tok) as [p |] eqn:Hp;
    [| right; left; exists (reply 401 error_token_invalid);
       repeat split; simpl; try (discriminate || reflexivity);
       intros (tok' & p & E & Hp' & _); congruence].
  unfold body_roomId.
  destruct (roomId_field req) as [| code | [|]] eqn:Hfield; simpl.
  - right; left; exists (reply 400 error_roomId_empty).
    repeat split; simpl; try (discriminate || reflexivity).
    intros (tok' & p' & _ & _ & E); discriminate.
  - destruct (code =? "") eqn:Hcode.
    + right; left; exists (reply 400 error_roomId_empty).
      repeat split; simpl; try (discriminate || reflexivity).
      intros (tok' & p' & _ & _ & E); discriminate.
    + unfold bind, room_findUnique_code.
      destruct (find_room_by_code code (db s)) as [room |] eqn:Hf.
      * left. exists tok, p, code, room. auto.
      * right; left; exists (reply 404 error_room_missing).
        repeat split; simpl; try (discriminate || reflexivity).
        intros (tok' & p' & _ & _ & E); discriminate.
  - right; right. split; [exists tok, p; auto |]. repeat split.
  - right; left; exists (reply 400 error_roomId_empty).
    repeat split; simpl; try (discriminate || reflexivity).
    intros (tok' & p' & _ & _ & E); discriminate.
Qed.

(** X16. Handled one at a time, the three room routes never write to the
    registry, and a request that is not answered 200 leaves the store and
    the events exactly as they were.  With the store answering, the reply
    is 500 exactly when the token is valid and the [roomId] of the body is
    a truthy value that is not a string: it passes [if (!roomId)] and the
    store rejects it.  No other store call of a route is rejected: the row
    deleted was just found, the row created was just checked absent. *)
Theorem refused_request_changes_nothing
  (verifyToken : string -> option Payload) (password_of : Room.t -> option string)
  (req : RoomRequest) (s : State) :
  forall o,
    o = leave_room verifyToken req s \/
    o = delete_room verifyToken req s \/
    o = join_room verifyToken password_of req s ->
    clients (final o) = clients s /\
    closed (final o) = closed s /\
    (status_of (answer o) <> 200 -> final o = s) /\
    (status_of (answer o) = 500 <->
     exists tok p, nonempty (token req) = Some tok /\
                   verifyToken tok = Some p /\
                   roomId_field req = field_other true).
Proof.
  clear clock MAX_FAILED_HEARTBEATS.
  intros o Ho.
  destruct (request_resolves verifyToken req s)
    as [(tok & p & code & room & Ht & Hp & Hc & Hf)
       | [(r & H2 & H5 & Hno & Hl & Hd & Hj) | (Hyes & Hl & Hd & Hj)]].
  - destruct (found_by_code_has_id _ _ _ Hf) as (_ & _ & Hroom).
    destruct (roomId_given req code Hc) as (Hfield & _).
    assert (Hno : ~ (exists tok p, nonempty (token req) = Some tok /\
                       verifyToken tok = Some p /\
                       roomId_field req = field_other true))
      by (intros (tok' & p' & _ & _ & E); congruence).
    destruct Ho as [-> | [-> | ->]].
    + rewrite (leave_room_found _ _ _ _ _ _ _ Ht Hp Hc Hf).
      destruct (_ =? _); [rewrite (dissolve_by_route_eq room s Hroom) |];
        simpl; repeat split; try congruence; try discriminate; tauto.
    + rewrite (delete_room_found _ _ _ _ _ _ _ Ht Hp Hc Hf).
      destruct (_ =? _); [rewrite (dissolve_by_route_eq room s Hroom) |];
        simpl; repeat split; try congruence; try discriminate; tauto.
    + rewrite (join_room_found _ _ _ _ _ _ _ _ Ht Hp Hc Hf).
      destruct (password_refused _ _);
        [simpl; repeat split; try congruence; try discriminate; tauto |].
      destruct (find_member _ _ _);
        [simpl; repeat split; try congruence; try discriminate; tauto |].
      destruct (_ <=? _)%nat;
        simpl; repeat split; try congruence; try discriminate; tauto.
  - specialize (Hj password_of).
    destruct Ho as [-> | [-> | ->]]; rewrite ?Hl, ?Hd, ?Hj; simpl;
      repeat split; auto; tauto.
  - specialize (Hj password_of).
    destruct Ho as [-> | [-> | ->]]; rewrite ?Hl, ?Hd, ?Hj; simpl;
      repeat split; auto.
Qed.

Lemma plainly_told_app (k : string) (a b : list Event) :
  plainly_told k (a ++ b) = plainly_told k a + plainly_told k b.
Proof.
  unfold plainly_told. now rewrite filter_app, length_app.
Qed.

Lemma plainly_told_other (room : Room.t) (s : State) (m x : RoomMember.t) :
  RoomMember.userId x <> RoomMember.userId m ->
  plainly_told (member_key room m) (told room s x) = 0.
Proof.
  intros Hne. unfold told, member_key.
  destruct (Map_get _ (clients s)) as [c |]; [| reflexivity].
  destruct (is_closed (ws c) s); [reflexivity |].
  unfold plainly_told. simpl.
  destruct (String.eqb_spec (clientKey (Room.roomId room) (RoomMember.userId x))
                            (clientKey (Room.roomId room) (RoomMember.userId m)))
    as [E | _]; [| reflexivity].
  apply clientKey_inj in E. contradiction.
Qed.

Lemma plainly_told_others (room : Room.t) (s : State) (m : RoomMember.t)
  (l : list RoomMember.t) :
  ~ In (RoomMember.userId m) (map RoomMember.userId l) ->
  plainly_told (member_key room m) (flat_map (told room s) l) = 0.
Proof.
  induction l as [| x l IH]; simpl; [reflexivity |].
  intros H. rewrite plainly_told_app, IH by (intros Hin; apply H; now right).
  rewrite plainly_told_other; [reflexivity |]. intros E. apply H. now left.
Qed.

Lemma plainly_told_once (room : Room.t) (s : State) (m : RoomMember.t)
  (c : ClientConnection) (l : list RoomMember.t) :
  NoDup (map RoomMember.userId l) ->
  In m l ->
  Map_get (member_key room m) (clients s) = Some c ->
  is_closed (ws c) s = false ->
  plainly_told (member_key room m) (flat_map (told room s) l) = 1.
Proof.
  intros Hnd Hin G Hopen. induction l as [| x l IH]; simpl; [contradiction |].
  simpl in Hnd. inversion Hnd as [| ? ? Hnotin Hnd']; subst.
  rewrite plainly_told_app. destruct Hin as [-> | Hin].
  - rewrite plainly_told_others by assumption.
    unfold told. fold (member_key room m). rewrite G, Hopen.
    unfold plainly_told. simpl. now rewrite String.eqb_refl.
  - rewrite (IH Hnd' Hin), plainly_told_other; [reflexivity |].
    intros E. apply Hnotin. rewrite E. now apply in_map.
Qed.

(** X17. When the owner, holding a valid token, asks [/api/rooms/delete]
    for a room that exists, every member with a registry entry, the owner
    included, is sent one [room_deleted] frame without a reason (those
    whose socket accepts the send receive exactly one), then the room and
    its member rows are deleted and the answer is 200.  The registry is
    not touched: the members' entries are still there. *)
Theorem owner_delete_tells_members_and_removes_room
  (verifyToken : string -> option Payload) (req : RoomRequest) (s : State)
  (tok code : string) (p : Payload) (room : Room.t) :
  nonempty (token req) = Some tok ->
  verifyToken tok = Some p ->
  nonempty (body_roomId req) = Some code ->
  find_room_by_code code (db s) = Some room ->
  Room.ownerId room = p_userId p ->
  Db_wf (db s) ->
  exists s' new,
    delete_room verifyToken req s = Done (reply 200 ok_dissolved) s' /\
    find_room (Room.id room) (db s') = None /\
    members_of (Room.id room) (db s') = [] /\
    clients s' = clients s /\
    events s' = events s ++ new /\
    forall m c,
      In m (members_of (Room.id room) (db s)) ->
      Map_get (member_key room m) (clients s) = Some c ->
      is_closed (ws c) s = false ->
      plainly_told (member_key room m) new = 1.
Proof.
  intros Ht Hp Hc Hf Ho Hwf.
  destruct (found_by_code_has_id _ _ _ Hf) as (_ & _ & Hroom).
  rewrite (delete_room_found _ _ _ _ _ _ _ Ht Hp Hc Hf), Ho, String.eqb_refl.
  rewrite (dissolve_by_route_eq room s Hroom).
  eexists _, _. split; [reflexivity |]. simpl.
  split; [apply find_room_deleted |]. split; [apply members_of_deleted |].
  split; [reflexivity |]. split; [reflexivity |].
  intros m c Hin G Hopen.
  apply (plainly_told_once room s m c); auto. now apply members_of_NoDup.
Qed.

(** X18. For the owner of the room, [/api/rooms/leave] is
    [/api/rooms/delete]: same answer, same frames to the same members,
    same state afterwards. *)
Theorem owner_leave_is_delete
  (verifyToken : string -> option Payload) (req : RoomRequest) (s : State)
  (tok code : string) (p : Payload) (room : Room.t) :
  nonempty (token req) = Some tok ->
  verifyToken tok = Some p ->
  nonempty (body_roomId req) = Some code ->
  find_room_by_code code (db s) = Some room ->
  Room.ownerId room = p_userId p ->
  leave_room verifyToken req s = delete_room verifyToken req s /\
  answer (leave_room verifyToken req s) = reply 200 ok_dissolved /\
  find_room (Room.id room) (db (final (leave_room verifyToken req s))) = None.
Proof.
  intros Ht Hp Hc Hf Ho.
  destruct (found_by_code_has_id _ _ _ Hf) as (_ & _ & Hroom).
  rewrite (delete_room_found _ _ _ _ _ _ _ Ht Hp Hc Hf).
  rewrite (leave_room_found _ _ _ _ _ _ _ Ht Hp Hc Hf).
  rewrite Ho, String.eqb_refl, (dissolve_by_route_eq room s Hroom). simpl.
  split; [reflexivity |]. split; [reflexivity | apply find_room_deleted].
Qed.

Lemma filter_keeps_all {A} (f : A -> bool) (l : list A) :
  (forall x, In x l -> f x = true) -> filter f l = l.
Proof.
  induction l as [| x l IH]; simpl; [reflexivity |]. intros H.
  rewrite (H x (or_introl eq_refl)). f_equal. apply IH. intros y Hy. apply H. now right.
Qed.

Lemma delete_absent_member_row (rid uid : string) (d : Db) :
  find_member rid uid d = None -> delete_member_row rid uid d = d.
Proof.
  intros F. unfold delete_member_row. rewrite filter_keeps_all; [now destruct d |].
  intros x Hx. unfold find_member in F. now rewrite (find_none _ _ F x Hx).
Qed.

(** X19. When a user who is not the owner asks [/api/rooms/leave], the
    user's own member row is deleted and the answer is 200; the room, the
    other rows, the registry (the user's own entry included) and the
    events are as before, nobody is told.  A user who has no row in the
    room gets the same 200 and nothing changes at all. *)
Theorem member_leave_removes_own_row_only
  (verifyToken : string -> option Payload) (req : RoomRequest) (s : State)
  (tok code : string) (p : Payload) (room : Room.t) :
  nonempty (token req) = Some tok ->
  verifyToken tok = Some p ->
  nonempty (body_roomId req) = Some code ->
  find_room_by_code code (db s) = Some room ->
  Room.ownerId room <> p_userId p ->
  exists s',
    leave_room verifyToken req s = Done (reply 200 ok_left) s' /\
    find_member (Room.id room) (p_userId p) (db s') = None /\
    rooms (db s') = rooms (db s) /\
    (forall x, RoomMember.roomId x <> Room.id room \/
               RoomMember.userId x <> p_userId p ->
       (In x (roomMembers (db s')) <-> In x (roomMembers (db s)))) /\
    clients s' = clients s /\ events s' = events s /\
    (find_member (Room.id room) (p_userId p) (db s) = None -> s' = s).
Proof.
  clear clock MAX_FAILED_HEARTBEATS.
  intros Ht Hp Hc Hf Ho.
  rewrite (leave_room_found _ _ _ _ _ _ _ Ht Hp Hc Hf).
  apply String.eqb_neq in Ho. rewrite Ho.
  eexists. split; [reflexivity |]. simpl.
  split; [apply find_member_deleted |]. split; [reflexivity |].
  split; [| split; [reflexivity | split; [reflexivity |]]].
  - intros x Hx. rewrite filter_In, negb_true_iff.
    pose proof (other_row_not_member_row _ _ x Hx). tauto.
  - intros F.
    change (mkDb (rooms (db s))
              (filter (fun m => negb (is_member_row (Room.id room) (p_userId p) m))
                      (roomMembers (db s))))
      with (delete_member_row (Room.id room) (p_userId p) (db s)).
    rewrite (delete_absent_member_row _ _ _ F). now destruct s.
Qed.

Lemma members_of_add_row (rid : string) (row : RoomMember.t) (d : Db) :
  members_of rid (add_member_row row d) =
  members_of rid d ++ (if RoomMember.roomId row =? rid then [row] else []).
Proof.
  unfold members_of, add_member_row. simpl. now rewrite filter_app.
Qed.

Lemma Db_wf_add_row (row : RoomMember.t) (d : Db) :
  Db_wf d ->
  find_member (RoomMember.roomId row) (RoomMember.userId row) d = None ->
  Db_wf (add_member_row row d).
Proof.
  clear clock MAX_FAILED_HEARTBEATS.
  intros (Hr & Hm) F. split; [exact Hr |]. unfold add_member_row. simpl.
  rewrite map_app. simpl. apply NoDup_app; [exact Hm | repeat constructor; simpl; tauto |].
  intros pr Hin [<- | []]. apply in_map_iff in Hin.
  destruct Hin as (x & Hx & Hin). unfold find_member in F.
  pose proof (find_none _ _ F x Hin) as Hno. unfold is_member_row in Hno.
  injection Hx as H1 H2. now rewrite H1, H2, !String.eqb_refl in Hno.
Qed.

(** X20. A user with a valid token who is not yet a member is admitted by
    [/api/rooms/join] exactly when the password check passes and the room
    has fewer member rows than [maxUsers]: then one row with role
    [member] is appended for the user and the answer is 200, the unique
    indexes still hold and the room has at most [maxUsers] rows; with the
    room full the answer is 400 and nothing changes.  The registry is not
    written either way. *)
Theorem join_admits_below_capacity
  (verifyToken : string -> option Payload) (password_of : Room.t -> option string)
  (req : RoomRequest) (s : State)
  (tok code : string) (p : Payload) (room : Room.t) :
  let row := RoomMember.mk (Room.id room) (p_userId p) "member" in
  let o := join_room verifyToken password_of req s in
  nonempty (token req) = Some tok ->
  verifyToken tok = Some p ->
  nonempty (body_roomId req) = Some code ->
  find_room_by_code code (db s) = Some room ->
  password_refused (password_of room) (body_password req) = false ->
  find_member (Room.id room) (p_userId p) (db s) = None ->
  Db_wf (db s) ->
  ((length (members_of (Room.id room) (db s)) < Room.maxUsers room)%nat ->
     answer o = reply 200 (ok_joined room) /\
     roomMembers (db (final o)) = roomMembers (db s) ++ [row] /\
     rooms (db (final o)) = rooms (db s) /\
     members_of (Room.id room) (db (final o))
       = members_of (Room.id room) (db s) ++ [row] /\
     (length (members_of (Room.id room) (db (final o))) <= Room.maxUsers room)%nat /\
     Db_wf (db (final o)) /\
     clients (final o) = clients s) /\
  ((Room.maxUsers room <= length (members_of (Room.id room) (db s)))%nat ->
     o = Done (reply 400 error_room_full) s).
Proof.
  intros row o Ht Hp Hc Hf Hpw F Hwf. subst row o.
  rewrite (join_room_found _ _ _ _ _ _ _ _ Ht Hp Hc Hf), Hpw, F. split.
  - intros Hlt. assert (L : (Room.maxUsers room <=?
                             length (members_of (Room.id room) (db s)))%nat = false)
      by (apply Nat.leb_gt; lia).
    rewrite L. simpl answer. simpl final.
    split; [reflexivity |]. split; [reflexivity |]. split; [reflexivity |].
    assert (Hm : members_of (Room.id room)
                   (add_member_row
                      (RoomMember.mk (Room.id room) (p_userId p) "member") (db s))
                 = members_of (Room.id room) (db s)
                   ++ [RoomMember.mk (Room.id room) (p_userId p) "member"]).
    { rewrite members_of_add_row. simpl. now rewrite String.eqb_refl. }
    split; [exact Hm |]. split.
    + simpl db. rewrite Hm, length_app. simpl. lia.
    + split; [| reflexivity]. simpl db. now apply Db_wf_add_row.
  - intros Hle. apply Nat.leb_le in Hle. now rewrite Hle.
Qed.

Lemma same_id_same_row (d : Db) (a b : Room.t) :
  Db_wf d -> In a (rooms d) -> In b (rooms d) -> Room.id a = Room.id b -> a = b.
Proof.
  clear clock MAX_FAILED_HEARTBEATS.
  intros (Hnd & _). induction (rooms d) as [| x l IH]; simpl; [tauto |].
  simpl in Hnd. inversion Hnd as [| ? ? Hnotin Hnd']; subst.
  intros [-> | Ha] [-> | Hb] E; auto.
  - exfalso. apply Hnotin. rewrite E. now apply in_map.
  - exfalso. apply Hnotin. rewrite <- E. now apply in_map.
Qed.

(** X21. [/api/rooms/join] never overfills a room: on a store that
    respects its unique indexes and in which no room has more member rows
    than its [maxUsers], both still hold after any join request. *)
Theorem join_never_overfills
  (verifyToken : string -> option Payload) (password_of : Room.t -> option string)
  (req : RoomRequest) (s : State) :
  Db_wf (db s) ->
  within_capacity (db s) ->
  Db_wf (db (final (join_room verifyToken password_of req s))) /\
  within_capacity (db (final (join_room verifyToken password_of req s))).
Proof.
  intros Hwf Hcap.
  destruct (request_resolves verifyToken req s)
    as [(tok & p & code & room & Ht & Hp & Hc & Hf)
       | [(r & _ & _ & _ & _ & _ & Hj) | (_ & _ & _ & Hj)]];
    [| rewrite (Hj password_of); auto | rewrite (Hj password_of); auto].
  rewrite (join_room_found _ _ _ _ _ _ _ _ Ht Hp Hc Hf).
  destruct (password_refused _ _); [auto |].
  destruct (find_member _ _ _) eqn:F; [auto |].
  destruct (Nat.leb_spec (Room.maxUsers room)
              (length (members_of (Room.id room) (db s)))) as [Hle | Hlt]; [auto |].
  simpl final. simpl db. split; [now apply Db_wf_add_row |].
  destruct (found_by_code_has_id _ _ _ Hf) as (Hin & _ & _).
  intros r Hr. simpl in Hr. rewrite members_of_add_row. simpl RoomMember.roomId.
  destruct (String.eqb_spec (Room.id room) (Room.id r)) as [E | Hne].
  - rewrite (same_id_same_row (db s) room r Hwf Hin Hr E) in *.
    rewrite length_app. simpl. lia.
  - rewrite app_nil_r. now apply Hcap.
Qed.

(** X22. Joining and then leaving is a round trip: when a user who is not
    the owner and not yet a member is admitted by [/api/rooms/join] and
    then asks [/api/rooms/leave] for the same room, the state is again
    exactly what it was before the join. *)
Theorem join_then_leave_restores_state
  (verifyToken : string -> option Payload) (password_of : Room.t -> option string)
  (req : RoomRequest) (s : State)
  (tok code : string) (p : Payload) (room : Room.t) :
  nonempty (token req) = Some tok ->
  verifyToken tok = Some p ->
  nonempty (body_roomId req) = Some code ->
  find_room_by_code code (db s) = Some room ->
  Room.ownerId room <> p_userId p ->
  answer (join_room verifyToken password_of req s) = reply 200 (ok_joined room) ->
  leave_room verifyToken req (final (join_room verifyToken password_of req s))
    = Done (reply 200 ok_left) s.
Proof.
  intros Ht Hp Hc Hf Ho.
  rewrite (join_room_found _ _ _ _ _ _ _ _ Ht Hp Hc Hf).
  destruct (password_refused _ _); [discriminate |].
  destruct (find_member _ _ _) eqn:F; [discriminate |].
  destruct (_ <=? _)%nat; [discriminate |]. intros _. simpl final.
  match goal with |- leave_room _ _ ?st = _ => set (s' := st) end.
  assert (Hf' : find_room_by_code code (db s') = Some room) by exact Hf.
  rewrite (leave_room_found verifyToken req s' tok code p room Ht Hp Hc Hf').
  apply String.eqb_neq in Ho. rewrite Ho. f_equal. unfold s'. simpl.
  unfold delete_member_row, add_member_row. simpl.
  rewrite filter_app. simpl. unfold is_member_row at 2. simpl.
  rewrite !String.eqb_refl. simpl. rewrite app_nil_r, filter_keeps_all.
  - now destruct s as [? [? ?] ? ? ?].
  - intros x Hx. unfold find_member in F. now rewrite (find_none _ _ F x Hx).
Qed.

(** ** Entries the sweep never looks at *)

Lemma for_of_invariant {A} (Inv : State -> Prop) (body : A -> M Completion)
  (l : list A) :
  (forall x, In x l -> forall s, Inv s -> Inv (final (body x s))) ->
  forall s, Inv s -> Inv (final (for_of l body s)).
Proof.
  induction l as [| x l IH]; intros Hbody s HI; [exact HI |].
  rewrite for_of_cons.
  pose proof (Hbody x (or_introl eq_refl) s HI) as Hx.
  destruct (body x s) as [[|] s' | s']; simpl in *; [| exact Hx | exact Hx].
  apply IH; [| exact Hx]. intros y Hy. apply Hbody. now right.
Qed.

Lemma check_member_other_keys (room : Room.t) (member : RoomMember.t)
  (s : State) (k' : string) :
  k' <> member_key room member ->
  Map_get k' (clients (final (check_member room member s))) = Map_get k' (clients s).
Proof.
  unfold member_key. intros Hne. rewrite check_member_eq. cbv zeta.
  destruct (Map_get _ (clients s)) as [c |].
  - assert (Hs : forall t, Map_get k' (clients (probed room member c t))
                           = Map_get k' (clients t)).
    { intros t. unfold probed. simpl. apply Map_get_set_ne. congruence. }
    destruct (_ <=? _)%nat; [| apply Hs].
    destruct (_ =? _).
    + destruct (find_room _ _); simpl; [| apply Map_get_set_ne; congruence].
      rewrite Map_get_delete_ne by congruence. apply Map_get_set_ne. congruence.
    + destruct (find_member _ _ _); simpl; [| apply Map_get_set_ne; congruence].
      rewrite Map_get_delete_ne by congruence. apply Map_get_set_ne. congruence.
  - destruct (_ =? _).
    + now destruct (find_room _ _).
    + now destruct (find_member _ _ _).
Qed.

Lemma vanished_fold_other_keys (room : Room.t) (l : list RoomMember.t)
  (s : State) (k' : string) :
  (forall m, In m l -> k' <> member_key room m) ->
  Map_get k' (clients (fold_left (fun st m => vanished_told room m st) l s))
    = Map_get k' (clients s).
Proof.
  revert s. induction l as [| x l IH]; intros s H; simpl; [reflexivity |].
  rewrite IH by (intros m Hm; apply H; now right).
  unfold vanished_told. destruct (Map_get _ (clients s)); simpl; [| reflexivity].
  apply Map_get_delete_ne. specialize (H x (or_introl eq_refl)).
  unfold member_key in H. congruence.
Qed.

Lemma members_of_shrunk (rid : string) (d d' : Db) (m : RoomMember.t) :
  db_shrunk d d' -> In m (members_of rid d') -> In m (members_of rid d).
Proof.
  clear clock MAX_FAILED_HEARTBEATS.
  intros (f & g & _ & Hg). unfold members_of. rewrite Hg, !filter_In. tauto.
Qed.

(** X23. The sweep touches only the registry entries stored under the key
    of a member row of an active room: an entry under any other key, such
    as the entry a member keeps after its room was dissolved, is neither
    probed nor charged nor removed by a cycle, whatever else the cycle
    does. *)
Theorem sweep_leaves_unlisted_entries (s : State) (k : string) :
  (forall room m, In room (active_rooms (db s)) ->
     In m (members_of (Room.id room) (db s)) -> k <> member_key room m) ->
  Map_get k (clients (sweep s)) = Map_get k (clients s).
Proof.
  intros Hk.
  pose (Inv := fun cur : State =>
    db_shrunk (db s) (db cur) /\ Map_get k (clients cur) = Map_get k (clients s)).
  assert (Hroom : forall room, In room (active_rooms (db s)) ->
            forall cur, Inv cur -> Inv (final (check_room room cur))).
  { intros room Hin cur (Hsh & Hget).
    assert (Hlist : forall m, In m (members_of (Room.id room) (db cur)) ->
              k <> member_key room m).
    { intros m Hm. apply (Hk room m Hin). eapply members_of_shrunk; eassumption. }
    split.
    - eapply db_shrunk_trans; [exact Hsh |].
      now destruct (check_room_sweep_step room cur) as (_ & _ & H & _).
    - rewrite <- Hget. rewrite check_room_eq. cbv zeta.
      destruct (find_room (Room.id room) (db cur)).
      + pose proof (for_of_invariant
            (fun st => Map_get k (clients st) = Map_get k (clients cur))
            (check_member room) (members_of (Room.id room) (db cur))) as Loop.
        specialize (Loop ltac:(
          intros m Hm st Hst; rewrite <- Hst;
          apply check_member_other_keys; now apply Hlist) cur eq_refl).
        destruct (for_of _ (check_member room) cur) as [[|] s1 | s1];
          simpl in Loop; try exact Loop.
        destruct (_ =? 0)%nat; [| exact Loop].
        destruct (find_room _ (db s1)); exact Loop.
      + simpl. now apply vanished_fold_other_keys. }
  pose proof (for_of_invariant Inv check_room (active_rooms (db s)) Hroom s
                (conj (db_shrunk_refl _) eq_refl)) as (_ & H).
  unfold sweep. rewrite heartbeatCheck_eq.
  destruct (for_of _ check_room s) as [c s' | s']; exact H.
Qed.

End Coordinator.

(** ** The statements at concrete inputs *)

(** Sockets 1 and 2 both join as [U1] in [R1]; socket 1 closes. *)
Lemma close_of_replaced_socket_witness :
  let s := start [] store_R1 [] in
  let sess1' := fst (on_message clk (fresh_socket 1) (join_frame "U1" "R1") s) in
  let s1 := snd (on_message clk (fresh_socket 1) (join_frame "U1" "R1") s) in
  let s2 := snd (on_message clk (fresh_socket 2) (join_frame "U1" "R1") s1) in
  Map_get (clientKey "R1" "U1") (clients s2)
    = Some (mkClient 2 "U1" "R1" 0 (clk (ticks s1))) /\
  Map_get (clientKey "R1" "U1") (clients (on_close sess1' s2)) = None.
Proof.
  apply (close_of_replaced_socket_removes_successor clk "R1" "U1"
           (fresh_socket 1) (fresh_socket 2)
           (join_frame "U1" "R1") (join_frame "U1" "R1") (start [] store_R1 []));
    simpl; repeat split; discriminate.
Defined.

(** Three sockets join as [U1] in [R1], one after the other. *)
Lemma join_last_writer_wins_witness :
  let s := start [] store_R1 [] in
  let earlier := [(fresh_socket 1, join_frame "U1" "R1");
                  (fresh_socket 2, join_frame "U1" "R1")] in
  let before := run_messages clk earlier s in
  let after := run_messages clk (earlier ++ [(fresh_socket 3, join_frame "U1" "R1")]) s in
  Map_get (clientKey "R1" "U1") (clients after)
    = Some (mkClient 3 "U1" "R1" 0 (clk (ticks before))) /\
  Map_count (clientKey "R1" "U1") (clients after) = 1.
Proof.
  apply (join_last_writer_wins clk "R1" "U1"
           [(fresh_socket 1, join_frame "U1" "R1");
            (fresh_socket 2, join_frame "U1" "R1")]
           (fresh_socket 3) (join_frame "U1" "R1") (start [] store_R1 [])).
  - constructor.
  - simpl. repeat split; discriminate.
Defined.

(** [A] draws in [R1], where [B] and [C] are; all sockets are open. *)
Lemma draw_event_delivered_witness :
  let s := start registry_ABC store_R1 [] in
  let s' := snd (on_message clk (socket_of 1 "A" "R1") (Frame stroke) s) in
  exists new,
    events s' = events s ++ new /\
    (forall k h m, In (Sent k h m) new ->
       m = draw_event stroke /\
       exists c, In (k, c) (clients s) /\ h = ws c /\ roomId c = "R1" /\ userId c <> "A") /\
    (forall h m, ~ In (Replied h m) new) /\
    ((forall k c, In (k, c) (clients s) -> ws c = 1 -> roomId c = "R1" ->
                  userId c = "A") ->
     forall k m, ~ In (Sent k 1 m) new) /\
    ((forall k c, In (k, c) (clients s) -> roomId c = "R1" -> userId c <> "A" ->
                  is_closed (ws c) s = false) ->
     new = map (relayed stroke) (filter (peer_of "R1" "A") (clients s)) /\
     forall k c, In (k, c) (clients s) -> roomId c = "R1" -> userId c <> "A" ->
                 In (Sent k (ws c) (draw_event stroke)) new).
Proof.
  apply (draw_event_delivered_to_peers_only clk "R1" "A"
           (socket_of 1 "A" "R1") stroke (start registry_ABC store_R1 [])).
  - unfold joined_as. simpl. repeat split; discriminate.
  - reflexivity.
Defined.

(** C5 as stated fails twice.  [A] draws in [R1] while the socket of [B]
    throws: [C], whose room is [R1], whose user is not [A] and whose socket
    is open, is sent nothing.  And a socket that joined [R1] as [A] and
    then as [B] draws: the frame is sent on the entry of [A], which is the
    sender's own socket. *)
Lemma draw_event_misses_open_peer_and_reaches_sender :
  In ("R1_C", entry 3 "C" "R1" 0) registry_ABC /\
  is_closed 3 (start registry_ABC store_R1 [2]) = false /\
  ~ In (Sent "R1_C" 3 (draw_event stroke))
       (events (snd (on_message clk (socket_of 1 "A" "R1") (Frame stroke)
                       (start registry_ABC store_R1 [2])))) /\
  s_ws (fst (on_message clk
               (fst (on_message clk (fresh_socket 1) (join_frame "A" "R1")
                       (start [] store_R1 [])))
               (join_frame "B" "R1")
               (snd (on_message clk (fresh_socket 1) (join_frame "A" "R1")
                       (start [] store_R1 []))))) = 1 /\
  events
    (snd (on_message clk
            (fst (on_message clk
                    (fst (on_message clk (fresh_socket 1) (join_frame "A" "R1")
                            (start [] store_R1 [])))
                    (join_frame "B" "R1")
                    (snd (on_message clk (fresh_socket 1) (join_frame "A" "R1")
                            (start [] store_R1 [])))))
            (Frame stroke)
            (snd (on_message clk
                    (fst (on_message clk (fresh_socket 1) (join_frame "A" "R1")
                            (start [] store_R1 [])))
                    (join_frame "B" "R1")
                    (snd (on_message clk (fresh_socket 1) (join_frame "A" "R1")
                            (start [] store_R1 [])))))))
    = [Replied 1 (joined "R1" "A"); Replied 1 (joined "R1" "B");
       Sent "R1_A" 1 (draw_event stroke)].
Proof.
  split; [simpl; auto |]. split; [reflexivity |]. split; [| split; reflexivity].
  simpl. intros [E | []]. discriminate.
Qed.

(** The sweeper probes the owner of [R1], whose entry has count [0]. *)
Lemma probe_charges_counter_witness :
  let c := entry 1 "U1" "R1" 0 in
  let s := start [("R1_U1", c)] store_R1 [] in
  probe_or_absent clk room_R1 owner_U1 s = Done Normal (probed clk room_R1 owner_U1 c s) /\
  Map_get "R1_U1" (clients (probed clk room_R1 owner_U1 c s)) = Some (charge c) /\
  failedHeartbeats (charge c) = 1 /\
  (forall k', ~ reset_at k' s (sweep clk 3 s)) /\
  (forall k' sess, ~ reset_at k' s (on_close sess s)) /\
  (forall k' sess msg,
     reset_at k' s (snd (on_message clk sess msg s)) ->
     exists data r u,
       msg = Frame data /\ k' = clientKey r u /\
       (accepted_join r u msg \/
        (type_is "heartbeat" data = true /\ joined_as r u sess))).
Proof.
  apply (probe_charges_counter_at_once clk 3 room_R1 owner_U1
           (entry 1 "U1" "R1" 0)
           (start [("R1_U1", entry 1 "U1" "R1" 0)] store_R1 [])).
  reflexivity.
Defined.

Lemma store_R1_wf : Db_wf store_R1.
Proof.
  split; simpl; repeat constructor; simpl; intuition discriminate.
Qed.



(** [U2] acks with its count at [2]; the owner [U1], first in the store,
    is examined with its count at [2] and a maximum of [3]. *)
Lemma failure_counter_witness :
  let ca := entry 2 "U2" "R1" 2 in
  let sa := start [("R1_U2", ca)] store_R1 [] in
  let c := entry 1 "U1" "R1" 2 in
  let s := start [("R1_U1", c); ("R1_U2", ca)] store_R1 [] in
  Map_get "R1_U2" (clients (snd (on_message clk (socket_of 2 "U2" "R1") heartbeat_frame sa)))
    = Some (mkClient 2 "U2" "R1" 0 0) /\
  (exists s3, check_member clk 3 room_R1 owner_U1 s = Done Return s3 /\
              heartbeatCheck clk 3 s = Done tt s3 /\
              find_room "id1" (db s3) = None /\
              Map_get "R1_U1" (clients s3) = None) /\
  in_every_run (ws_activity clk)
    (fun o => exists s3,
       o = Done Return s3 /\
       find_room "id1" (db s3) = None /\
       members_of "id1" (db s3) = [] /\
       Map_get "R1_U1" (clients s3) = None)
    (check_member_async clk 3 room_R1 owner_U1 s) /\
  (exists s3,
     run_with [arrives clk (socket_of 1 "U1" "R1") heartbeat_frame]
       (check_member_async clk 3 room_R1 owner_U1 s) = Done Return s3 /\
     find_room "id1" (db s3) = None /\
     members_of "id1" (db s3) = [] /\
     Map_get "R1_U1" (clients s3) = None).
Proof.
  pose proof (failure_counter_protocol clk 3 "R1" "U2"
                (socket_of 2 "U2" "R1") (mkData (Some "heartbeat") None None "")
                (entry 2 "U2" "R1" 2)
                (start [("R1_U2", entry 2 "U2" "R1" 2)] store_R1 [])
                (start [("R1_U1", entry 1 "U1" "R1" 2);
                        ("R1_U2", entry 2 "U2" "R1" 2)] store_R1 [])
                room_R1 owner_U1 (entry 1 "U1" "R1" 2)
                (start [("R1_U1", entry 1 "U1" "R1" 2);
                        ("R1_U2", entry 2 "U2" "R1" 2)] store_R1 [])) as H.
  cbv zeta in H.
  assert (Hj : joined_as "R1" "U2" (socket_of 2 "U2" "R1")).
  { unfold joined_as. simpl. repeat split; discriminate. }
  assert (Hex : examines clk 3
                  (start [("R1_U1", entry 1 "U1" "R1" 2);
                          ("R1_U2", entry 2 "U2" "R1" 2)] store_R1 [])
                  room_R1 owner_U1
                  (start [("R1_U1", entry 1 "U1" "R1" 2);
                          ("R1_U2", entry 2 "U2" "R1" 2)] store_R1 [])).
  { exists [], [], [], [member_U2],
      (start [("R1_U1", entry 1 "U1" "R1" 2);
              ("R1_U2", entry 2 "U2" "R1" 2)] store_R1 []).
    split; [reflexivity |]. split; [reflexivity |].
    split; [simpl; discriminate |]. split; reflexivity. }
  specialize (H Hj eq_refl eq_refl store_R1_wf Hex eq_refl).
  destruct H as (Hack & _ & _ & Howner & Hwaits & _).
  assert (Hevery : in_every_run (ws_activity clk)
            (fun o => exists s3,
               o = Done Return s3 /\
               find_room "id1" (db s3) = None /\
               members_of "id1" (db s3) = [] /\
               Map_get "R1_U1" (clients s3) = None)
            (check_member_async clk 3 room_R1 owner_U1
               (start [("R1_U1", entry 1 "U1" "R1" 2);
                       ("R1_U2", entry 2 "U2" "R1" 2)] store_R1 []))).
  { apply (Hwaits _ (entry 1 "U1" "R1" 2)).
    + reflexivity.
    + apply le_n.
    + reflexivity.
    + discriminate. }
  split; [exact Hack |]. split; [| split; [exact Hevery |]].
  - apply Howner; [apply le_n | reflexivity].
  - assert (HF : Forall (fun e : Others => forall s0, ws_activity clk s0 (e s0))
                   [arrives clk (socket_of 1 "U1" "R1") heartbeat_frame]).
    { constructor; [| constructor]. intros s0. apply ws_frame, ws_nothing. }
    exact (run_with_sound _ _ _ _ (ws_nothing clk) HF Hevery).
Defined.

(** C3 as stated fails.  With a maximum of [3] the cycle probes [U2],
    whose count is [2], finds the count at the maximum and waits for the
    store to delete the member row; it is the seventh wait of the cycle,
    after two for each of its three reads of the store.  The heartbeat
    frame of [U2]'s socket handled during that wait finds the count at
    [3], sets it to [0] and is acknowledged: a transition from the maximum
    that is neither eviction nor dissolution nor a fresh join.  The cycle
    then removes the entry and the row all the same. *)
Lemma heartbeat_resets_counter_at_the_maximum :
  option_map (fun s1 => Map_get "R1_U2" (clients s1))
    (waiting_in [idle; idle; idle; idle; idle; idle]
       (heartbeatCheck_async clk 3 (start registry_U2_late store_R1 [])))
    = Some (Some (entry 2 "U2" "R1" 3)) /\
  option_map
    (fun s1 => Map_get "R1_U2"
                 (clients (arrives clk (socket_of 2 "U2" "R1") heartbeat_frame s1)))
    (waiting_in [idle; idle; idle; idle; idle; idle]
       (heartbeatCheck_async clk 3 (start registry_U2_late store_R1 [])))
    = Some (Some (mkClient 2 "U2" "R1" 0 2)) /\
  option_map
    (fun s1 => events (arrives clk (socket_of 2 "U2" "R1") heartbeat_frame s1))
    (waiting_in [idle; idle; idle; idle; idle; idle]
       (heartbeatCheck_async clk 3 (start registry_U2_late store_R1 [])))
    = Some [Sent "R1_U1" 1 (heartbeat 0); Sent "R1_U2" 2 (heartbeat 1);
            Replied 2 (heartbeat_ack 3)] /\
  Map_get "R1_U2"
    (clients (final (run_with
       [idle; idle; idle; idle; idle; idle;
        arrives clk (socket_of 2 "U2" "R1") heartbeat_frame]
       (heartbeatCheck_async clk 3 (start registry_U2_late store_R1 [])))))
    = None /\
  find_member "id1" "U2"
    (db (final (run_with
       [idle; idle; idle; idle; idle; idle;
        arrives clk (socket_of 2 "U2" "R1") heartbeat_frame]
       (heartbeatCheck_async clk 3 (start registry_U2_late store_R1 [])))))
    = None.
Proof.
  repeat split; reflexivity.
Qed.

(** The owner's socket throws while [U2] is still to be examined, with
    the owner's count at [0] and, for the last part, at [2] with a maximum
    of [3]. *)
Lemma sweeper_send_failure_witness :
  let c := entry 1 "U1" "R1" 0 in
  let s := start [("R1_U1", c); ("R1_U2", entry 2 "U2" "R1" 0)] store_R1 [1] in
  let s' := start [("R1_U1", entry 1 "U1" "R1" 2);
                   ("R1_U2", entry 2 "U2" "R1" 0)] store_R1 [1] in
  (exists s1,
     probe_or_absent clk room_R1 owner_U1 s = Done Normal s1 /\
     events s1 = events s ++ [ConsoleError (err_probe "U1" "R1")] /\
     Map_get "R1_U1" (clients s1) = Some (charge c) /\
     check_member clk 3 room_R1 owner_U1 s = Done Normal s1 /\
     for_of [owner_U1; member_U2] (check_member clk 3 room_R1) s =
       for_of [member_U2] (check_member clk 3 room_R1) s1) /\
  (exists s1,
     notify_vanished room_R1 owner_U1 s = Done Normal s1 /\
     events s1 = events s ++ [ConsoleError (err_notify_user "U1")] /\
     Map_get "R1_U1" (clients s1) = None /\
     for_of [owner_U1; member_U2] (notify_vanished room_R1) s =
       for_of [member_U2] (notify_vanished room_R1) s1) /\
  (exists s1,
     notify_other room_R1 owner_timeout owner_U1 s = Done Normal s1 /\
     events s1 = events s ++ [ConsoleError (err_notify_member "U1")] /\
     for_of [owner_U1; member_U2] (notify_other room_R1 owner_timeout) s =
       for_of [member_U2] (notify_other room_R1 owner_timeout) s1) /\
  (exists s3,
     check_member clk 3 room_R1 owner_U1 s' = Done Return s3 /\
     Map_get "R1_U1" (clients s3) = None /\
     find_room "id1" (db s3) = None /\
     members_of "id1" (db s3) = []).
Proof.
  intros c s s'.
  destruct (sweeper_send_failure_is_logged_and_passed_over clk 3 room_R1 owner_U1
              [member_U2] owner_timeout c s eq_refl eq_refl)
    as ((s1 & Hp & He & Hg & _ & Hbelow & _) & Hvanished & Hother).
  destruct (sweeper_send_failure_is_logged_and_passed_over clk 3 room_R1 owner_U1
              [member_U2] owner_timeout (entry 1 "U1" "R1" 2) s' eq_refl eq_refl)
    as ((s2 & _ & _ & _ & _ & _ & _ & Howner) & _).
  split; [| split; [exact Hvanished | split; [exact Hother |]]].
  - destruct Hbelow as (Hrun & _ & Hloop); [simpl; lia |].
    exists s1. repeat split; assumption.
  - destruct Howner as (Hseq & _); [apply le_n | reflexivity | discriminate |].
    exact Hseq.
Defined.

(** C7 as stated fails: the probe to [U1]'s socket throws, the failure is
    logged and the cycle goes on to [U2], but [U1]'s entry is still in the
    registry after the cycle, its count charged. *)
Lemma failed_probe_leaves_entry :
  is_closed 1 (start [("R1_U1", entry 1 "U1" "R1" 0);
                      ("R1_U2", entry 2 "U2" "R1" 0)] store_R1 [1]) = true /\
  events (sweep clk 3 (start [("R1_U1", entry 1 "U1" "R1" 0);
                              ("R1_U2", entry 2 "U2" "R1" 0)] store_R1 [1]))
    = [ConsoleError (err_probe "U1" "R1"); Sent "R1_U2" 2 (heartbeat 1)] /\
  Map_get "R1_U1"
    (clients (sweep clk 3 (start [("R1_U1", entry 1 "U1" "R1" 0);
                                  ("R1_U2", entry 2 "U2" "R1" 0)] store_R1 [1])))
    = Some (entry 1 "U1" "R1" 1) /\
  Map_get "R1_U1"
    (clients (sweep clk 3 (start [("R1_U1", entry 1 "U1" "R1" 0);
                                  ("R1_U2", entry 2 "U2" "R1" 0)] store_R1 [1])))
    <> None.
Proof.
  repeat split; try reflexivity. discriminate.
Qed.

(** C6 at a failing input.  [A] draws in [R1]; [B]'s socket throws.  With
    [B] before [C] in the registry, [C] is sent nothing: the exception
    leaves the [forEach] and is logged by the handler's [catch].  With [C]
    before [B], [C] is served. *)
Theorem broadcast_stops_at_first_failed_send :
  events (snd (on_message clk (socket_of 1 "A" "R1") (Frame stroke)
                 (start registry_ABC store_R1 [2])))
    = [ConsoleError err_message] /\
  events (snd (on_message clk (socket_of 1 "A" "R1") (Frame stroke)
                 (start registry_ACB store_R1 [2])))
    = [Sent "R1_C" 3 (draw_event stroke); ConsoleError err_message].
Proof.
  split; reflexivity.
Qed.

(** C9 at a failing input.  [R1] and [R2] are active, the owner of [R1] is
    not connected, the owner [U3] of [R2] is.  The cycle dissolves [R1]
    and ends: [U3] is not probed and its count is not charged.  [R2] is
    reached by the next cycle only. *)
Theorem dissolution_ends_the_whole_cycle :
  active_rooms store_R1_R2 = [room_R1; room_R2] /\
  events (sweep clk 3 (start [("R1_U2", entry 2 "U2" "R1" 0);
                              ("R2_U3", entry 3 "U3" "R2" 0)] store_R1_R2 []))
    = [Sent "R1_U2" 2 (room_deleted "R1" (Some owner_disconnected))] /\
  Map_get "R2_U3"
    (clients (sweep clk 3 (start [("R1_U2", entry 2 "U2" "R1" 0);
                                  ("R2_U3", entry 3 "U3" "R2" 0)] store_R1_R2 [])))
    = Some (entry 3 "U3" "R2" 0) /\
  events (sweep clk 3
            (sweep clk 3 (start [("R1_U2", entry 2 "U2" "R1" 0);
                                 ("R2_U3", entry 3 "U3" "R2" 0)] store_R1_R2 [])))
    = [Sent "R1_U2" 2 (room_deleted "R1" (Some owner_disconnected));
       Sent "R2_U3" 3 (heartbeat 0)].
Proof.
  repeat split; reflexivity.
Qed.

(** C2 at a failing input, the scenario of the specification.  Threshold
    [3]; [U1] and [U2] join [R1]; [U2] acks after each of the first two
    cycles, [U1] never does.  The third cycle deletes [R1] and its member
    rows, tells [U2] with reason [owner_timeout] and removes the entry of
    [U1]; the entry of [U2] is still in the registry. *)
Theorem dissolution_leaves_member_entries :
  let joined1 := snd (on_message clk (fresh_socket 1) (join_frame "U1" "R1")
                        (start [] store_R1 [])) in
  let joined2 := snd (on_message clk (fresh_socket 2) (join_frame "U2" "R1") joined1) in
  let ack := fun s => snd (on_message clk (socket_of 2 "U2" "R1") heartbeat_frame s) in
  let after := sweep clk 3 (ack (sweep clk 3 (ack (sweep clk 3 joined2)))) in
  db after = mkDb [] [] /\
  In (Sent "R1_U2" 2 (room_deleted "R1" (Some owner_timeout))) (events after) /\
  Map_get "R1_U1" (clients after) = None /\
  Map_get "R1_U2" (clients after) = Some (mkClient 2 "U2" "R1" 0 8).
Proof.
  cbv zeta. split; [reflexivity |]. split; [| split; reflexivity].
  vm_compute. tauto.
Qed.

(** The same after an absent owner: [U2]'s entry outlives the room. *)
Lemma absent_owner_leaves_member_entries :
  db (sweep clk 3 (start [("R1_U2", entry 2 "U2" "R1" 0)] store_R1 []))
    = mkDb [] [] /\
  clients (sweep clk 3 (start [("R1_U2", entry 2 "U2" "R1" 0)] store_R1 []))
    = [("R1_U2", entry 2 "U2" "R1" 0)].
Proof.
  split; reflexivity.
Qed.

(** *** Further statements at concrete inputs *)

Lemma registry_R1_keyed : keyed registry_R1.
Proof.
  intros k c H. unfold registry_R1, Map_get in H.
  destruct ("R1_U1" =? k) eqn:E1.
  - apply String.eqb_eq in E1. injection H as <-. subst k.
    repeat split; discriminate.
  - destruct ("R1_U2" =? k) eqn:E2; [| discriminate].
    apply String.eqb_eq in E2. injection H as <-. subst k.
    repeat split; discriminate.
Qed.

Lemma R1_plain : plain "R1".
Proof.
  intros a b E. destruct a as [| x [| y [| z a]]]; simpl in E; discriminate.
Qed.

Lemma registry_stays_keyed_witness :
  keyed (clients (sweep clk 3 (start registry_R1 store_R1 []))).
Proof.
  apply (registry_stays_keyed clk 3 (start registry_R1 store_R1 [])).
  exact registry_R1_keyed.
Defined.

Lemma incomplete_join_detaches_socket_witness :
  let s := start registry_R1 store_R1 [] in
  let sess := socket_of 1 "U1" "R1" in
  on_close (fst (on_message clk sess (Frame join_without_room) s))
           (snd (on_message clk sess (Frame join_without_room) s)) = s /\
  Map_get "R1_U1" (clients (on_close sess s)) = None.
Proof.
  intros s sess.
  apply (incomplete_join_detaches_socket clk "R1" "U1" sess join_without_room
           (entry 1 "U1" "R1" 0) s).
  - repeat split; discriminate.
  - reflexivity.
  - reflexivity.
  - right. reflexivity.
Defined.

Lemma half_joined_socket_broadcasts_witness :
  let s := start registry_ABC store_R1 [] in
  let sess1 := fst (on_message clk (fresh_socket 9) (Frame join_without_user) s) in
  events (snd (on_message clk sess1 (Frame stroke) s)) =
  map (relayed stroke) registry_ABC.
Proof.
  intros s sess1.
  assert (Hr : "R1" <> "") by discriminate.
  assert (Hopen : forall k c, In (k, c) (clients s) -> roomId c = "R1" ->
                    is_closed (ws c) s = false) by (intros; reflexivity).
  destruct (half_joined_socket_broadcasts clk "R1" (fresh_socket 9)
              join_without_user stroke s eq_refl eq_refl eq_refl Hr eq_refl Hopen)
    as (E1 & E2).
  cbv zeta in E1, E2. rewrite E1 in E2. exact E2.
Defined.

Lemma only_draw_event_reaches_others_witness :
  let s := start registry_R1 store_R1 [] in
  exists new,
    events (snd (on_message clk (socket_of 2 "U2" "R1") heartbeat_frame s))
      = events s ++ new /\
    (length new <= 1)%nat /\
    forallb (own_reply 2) new = true /\
    db (snd (on_message clk (socket_of 2 "U2" "R1") heartbeat_frame s)) = db s.
Proof.
  intros s.
  apply (only_draw_event_reaches_others clk (socket_of 2 "U2" "R1")
           heartbeat_frame s).
  intros data E. injection E as <-. reflexivity.
Defined.

Lemma clientKey_determines_pair_witness :
  plain "R1" /\
  clientKey "R1" "U1" = "R1_U1" /\
  ("R1" = "R1" /\ "U1" = "U1").
Proof.
  split; [exact R1_plain |]. split; [reflexivity |].
  apply (clientKey_determines_pair "R1" "R1" "U1" "U1" R1_plain R1_plain eq_refl).
Defined.

Lemma underscore_pairs_collide_witness :
  Map_get (clientKey "R_A" "B")
          (clients (snd (on_message clk (fresh_socket 7) (join_frame "A_B" "R")
                           (start registry_R1 store_R1 []))))
    = Some (mkClient 7 "A_B" "R" 0 0).
Proof.
  apply (underscore_pairs_collide clk "R" "A" "B" (fresh_socket 7)
           (join_frame "A_B" "R") (start registry_R1 store_R1 [])).
  repeat split; discriminate.
Defined.

Lemma non_owner_turn_is_local_witness :
  let s := start [("R1_U1", entry 1 "U1" "R1" 0)] store_R1 [] in
  rooms (db (final (check_member clk 3 room_R1 member_U2 s))) = [room_R1] /\
  find_member "id1" "U2" (db (final (check_member clk 3 room_R1 member_U2 s)))
    = None /\
  events (final (check_member clk 3 room_R1 member_U2 s)) = [].
Proof.
  intros s.
  destruct (non_owner_turn_is_local clk 3 room_R1 member_U2 s)
    as (_ & Hr & _ & _ & Habs); [discriminate |].
  destruct (Habs eq_refl) as (_ & Hf & _ & He).
  split; [exact Hr |]. split; [exact Hf | exact He].
Defined.

Lemma abandoned_room_is_deleted_witness :
  exists s',
    check_room clk 3 room_R1 (start [] store_R1_no_owner []) = Done Normal s' /\
    find_room "id1" (db s') = None /\
    members_of "id1" (db s') = [] /\
    events s' = [].
Proof.
  destruct (abandoned_room_is_deleted clk 3 room_R1 (start [] store_R1_no_owner []))
    as (s' & H1 & H2 & H3 & _ & H5 & _).
  - discriminate.
  - intros m [<- | []]. split; [discriminate | reflexivity].
  - exists s'. repeat split; assumption.
Defined.

Lemma cycle_completes_on_consistent_store_witness :
  (exists c s',
     for_of (active_rooms store_R1) (check_room clk 3)
            (start registry_R1 store_R1 []) = Done c s' /\
     heartbeatCheck clk 3 (start registry_R1 store_R1 []) = Done tt s' /\
     run_with [] (heartbeatCheck_async clk 3 (start registry_R1 store_R1 []))
       = Done tt s' /\
     Db_wf (db s')) /\
  in_every_run (ws_activity clk)
    (fun o => exists s', o = Done tt s' /\ Db_wf (db s'))
    (sweep_rooms_async clk 3 (start registry_R1 store_R1 [])) /\
  (exists s3,
     run_with [fun s0 => final (leave_room tokens (request "t2" "R1") s0)]
       (check_member_async clk 3 room_R1 member_U2
          (start registry_U2_late store_R1 [])) = Raised s3 /\
     Map_get "R1_U2" (clients s3) = Some (entry 2 "U2" "R1" 3)).
Proof.
  destruct (cycle_completes_on_consistent_store clk 3
              (start registry_R1 store_R1 []) store_R1_wf)
    as (Halone & Hwaits & Hleave).
  split; [exact Halone |]. split; [apply Hwaits; lia |].
  apply (Hleave room_R1 member_U2 (entry 2 "U2" "R1" 2)
           (start registry_U2_late store_R1 [])
           (fun s0 => final (leave_room tokens (request "t2" "R1") s0))).
  - reflexivity.
  - apply le_n.
  - discriminate.
  - reflexivity.
  - reflexivity.
Defined.


Lemma unanswered_probes_evict_at_the_maximum_witness :
  let s := start registry_R1 store_R1 [] in
  Map_get "R1_U2" (clients (examined clk 3 3 room_R1 member_U2 s)) = None /\
  find_member "id1" "U2" (db (examined clk 3 3 room_R1 member_U2 s)) = None /\
  db (examined clk 3 2 room_R1 member_U2 s) = store_R1.
Proof.
  intros s.
  destruct (unanswered_probes_evict_at_the_maximum clk 3 room_R1 member_U2
              (entry 2 "U2" "R1" 0) s 2)
    as (H1 & H2 & H3 & _); try reflexivity; try discriminate.
  destruct (H1 2 (le_n 2)) as (ci & _ & _ & Hd).
  split; [exact H2 |]. split; [exact H3 | exact Hd].
Defined.

Lemma acked_probes_never_evict_witness :
  let s := start registry_R1 store_R1 [] in
  exists c',
    Map_get "R1_U2"
      (clients (examined_and_acked clk 3 5 (socket_of 2 "U2" "R1") heartbeat_data
                  room_R1 member_U2 s)) = Some c' /\
    failedHeartbeats c' = 0 /\ ws c' = 2.
Proof.
  intros s.
  destruct (acked_probes_never_evict clk 3 room_R1 member_U2
              (socket_of 2 "U2" "R1") heartbeat_data (entry 2 "U2" "R1" 0) s 5)
    as (c' & H1 & H2 & H3 & _).
  - lia.
  - repeat split; discriminate.
  - reflexivity.
  - reflexivity.
  - reflexivity.
  - exists c'. repeat split; assumption.
Defined.

Lemma maximum_below_two_evicts_at_first_probe_witness :
  let s := start registry_R1 store_R1 [] in
  Map_get "R1_U2" (clients (final (check_member clk 1 room_R1 member_U2 s))) = None /\
  find_member "id1" "U2" (db (final (check_member clk 1 room_R1 member_U2 s))) = None.
Proof.
  intros s.
  apply (maximum_below_two_evicts_at_first_probe clk 1 room_R1 member_U2
           (entry 2 "U2" "R1" 0) s).
  - lia.
  - discriminate.
  - discriminate.
  - reflexivity.
Defined.

Lemma refused_request_changes_nothing_witness :
  final (delete_room tokens (request "t2" "R1") (start registry_R1 store_R1 []))
    = start registry_R1 store_R1 [] /\
  status_of (answer (leave_room tokens (mkRequest (Some "t1") (field_other true) None)
                       (start registry_R1 store_R1 []))) = 500.
Proof.
  split.
  - destruct (refused_request_changes_nothing tokens no_password
                (request "t2" "R1") (start registry_R1 store_R1 [])
                (delete_room tokens (request "t2" "R1")
                   (start registry_R1 store_R1 []))) as (_ & _ & H & _).
    + right. left. reflexivity.
    + apply H. discriminate.
  - destruct (refused_request_changes_nothing tokens no_password
                (mkRequest (Some "t1") (field_other true) None)
                (start registry_R1 store_R1 [])
                (leave_room tokens (mkRequest (Some "t1") (field_other true) None)
                   (start registry_R1 store_R1 []))) as (_ & _ & _ & H).
    + left. reflexivity.
    + apply H. exists "t1", (mkPayload "U1"). repeat split.
Defined.

Lemma owner_delete_tells_members_and_removes_room_witness :
  let s := start registry_R1 store_R1 [] in
  exists s' new,
    delete_room tokens (request "t1" "R1") s = Done (reply 200 ok_dissolved) s' /\
    find_room "id1" (db s') = None /\
    clients s' = registry_R1 /\
    events s' = new /\
    plainly_told "R1_U2" new = 1.
Proof.
  intros s.
  destruct (owner_delete_tells_members_and_removes_room tokens (request "t1" "R1") s
              "t1" "R1" (mkPayload "U1") room_R1)
    as (s' & new & H1 & H2 & _ & H4 & H5 & H6);
    try reflexivity.
  - exact store_R1_wf.
  - exists s', new. repeat split; try assumption.
    apply (H6 member_U2 (entry 2 "U2" "R1" 0)).
    + simpl. right. left. reflexivity.
    + reflexivity.
    + reflexivity.
Defined.

Lemma owner_leave_is_delete_witness :
  let s := start registry_R1 store_R1 [] in
  leave_room tokens (request "t1" "R1") s = delete_room tokens (request "t1" "R1") s /\
  answer (leave_room tokens (request "t1" "R1") s) = reply 200 ok_dissolved.
Proof.
  intros s.
  destruct (owner_leave_is_delete tokens (request "t1" "R1") s
              "t1" "R1" (mkPayload "U1") room_R1)
    as (H1 & H2 & _); try reflexivity.
  split; assumption.
Defined.

Lemma member_leave_removes_own_row_only_witness :
  let s := start registry_R1 store_R1 [] in
  exists s',
    leave_room tokens (request "t2" "R1") s = Done (reply 200 ok_left) s' /\
    find_member "id1" "U2" (db s') = None /\
    rooms (db s') = [room_R1] /\
    clients s' = registry_R1 /\ events s' = [].
Proof.
  intros s.
  destruct (member_leave_removes_own_row_only tokens (request "t2" "R1") s
              "t2" "R1" (mkPayload "U2") room_R1)
    as (s' & H1 & H2 & H3 & _ & H5 & H6 & _);
    try reflexivity; try discriminate.
  exists s'. repeat split; assumption.
Defined.

Lemma join_admits_below_capacity_witness :
  let s := start registry_R1 store_R1 [] in
  answer (join_room tokens no_password (request "t9" "R1") s)
    = reply 200 (ok_joined room_R1) /\
  roomMembers (db (final (join_room tokens no_password (request "t9" "R1") s)))
    = [owner_U1; member_U2; RoomMember.mk "id1" "U9" "member"].
Proof.
  intros s.
  destruct (join_admits_below_capacity tokens no_password (request "t9" "R1") s
              "t9" "R1" (mkPayload "U9") room_R1)
    as (Hadm & _); try reflexivity.
  - exact store_R1_wf.
  - destruct Hadm as (H1 & H2 & _); [simpl; lia |].
    split; [exact H1 | exact H2].
Defined.

Lemma store_R1_within_capacity : within_capacity store_R1.
Proof.
  intros r [<- | []]. simpl. lia.
Qed.

Lemma join_never_overfills_witness :
  let s := start registry_R1 store_R1 [] in
  Db_wf (db (final (join_room tokens no_password (request "t9" "R1") s))) /\
  within_capacity (db (final (join_room tokens no_password (request "t9" "R1") s))).
Proof.
  intros s.
  apply (join_never_overfills tokens no_password (request "t9" "R1") s).
  - exact store_R1_wf.
  - exact store_R1_within_capacity.
Defined.

Lemma join_then_leave_restores_state_witness :
  let s := start registry_R1 store_R1 [] in
  leave_room tokens (request "t9" "R1")
             (final (join_room tokens no_password (request "t9" "R1") s))
    = Done (reply 200 ok_left) s.
Proof.
  intros s.
  apply (join_then_leave_restores_state tokens no_password (request "t9" "R1") s
           "t9" "R1" (mkPayload "U9") room_R1);
    try reflexivity.
  discriminate.
Defined.

Lemma sweep_leaves_unlisted_entries_witness :
  Map_get "R9_U9" (clients (sweep clk 3 (start registry_R1_and_stale store_R1 [])))
    = Some (entry 9 "U9" "R9" 2).
Proof.
  rewrite (sweep_leaves_unlisted_entries clk 3
             (start registry_R1_and_stale store_R1 []) "R9_U9").
  - reflexivity.
  - intros room m [<- | []] [<- | [<- | []]]; discriminate.
Defined.
